(** * Sustainable-energy dashboard: loader, scorer and selector

    A shallow embedding of the computational core of
    [sustainable_energy_app.py]: [load_data] (lines 10-30), the investment
    score (lines 52-71) and the recommendation filter (lines 153-157), and
    of what the rest of the page computes from them: the key metrics (lines
    39-43), the frames of the three charts (lines 91-92, 111, 133-137) and
    the recommendation cards (lines 159-174).

    Numbers.  A pandas cell of a numeric column is a binary64 float or NaN.
    In the model of the script a finite float is an exact rational ([Q]) and
    NaN is [None]; rounding and the infinities are not represented, and the
    general theorems are statements of exact arithmetic, up to [Qeq] ([==]).
    The scaler and the weighted sum are given a second time on binary64
    numbers ([Binary64]), to evaluate on examples what the script computes
    to the last bit.

    Objects.  [df] and [latest_df] are assigned to after they are created, so
    they live in a store of frames and are handled by location.  A frame or a
    Series that the script only reads after building it is a plain value.

    Libraries.  The pandas, scikit-learn and numpy routines the script calls
    are modelled next to it, each under the name it has there.  Two of them
    are parameters of the script: the recogniser of numeric text behind
    [pd.to_numeric], and numpy's [argsort] for the default sort kind, of
    which [Npy.argsort] is the portable implementation. *)

From Stdlib Require Import Ascii QArith Qminmax Lqa PrimFloat Uint63.
From stdpp Require Import base option list strings.

Local Open Scope Q_scope.

(** ** Cells *)

(** A finite float, or NaN. *)
Definition float : Type := option Q.

(** A cell of a column: a float of a numeric column, or the text of an
    [object] column. *)
Inductive value : Type :=
  | Flt (x : float)
  | Str (s : string).

Abbreviation Num q := (Flt (Some q)).
Abbreviation NaN := (Flt None).

(** Python exceptions that the modelled operations raise.  [Unaligned] marks
    what the model of pandas leaves out: two operands whose index differs
    (pandas would re-index them; the script never does that).  [NameError]
    is a location that holds no object. *)
Inductive exn : Type :=
  | NameError
  | KeyError
  | TypeError
  | ValueError
  | IndexError
  | Unaligned.

Inductive result (A : Type) : Type :=
  | Ok (a : A)
  | Err (e : exn).
Arguments Ok {A} a.
Arguments Err {A} e.

#[global] Instance result_ret : MRet result := fun A a => Ok a.
#[global] Instance result_bind : MBind result := fun A B f m =>
  match m with
  | Ok a => f a
  | Err e => Err e
  end.

Definition Qltb (x y : Q) : bool := negb (Qle_bool y x).

(** Float arithmetic: NaN propagates.  A division by zero would give an
    infinity or NaN in numpy; here it gives NaN. *)
Definition fadd (a b : float) : float :=
  match a, b with
  | Some x, Some y => Some (x + y)
  | _, _ => None
  end.

Definition fsub (a b : float) : float :=
  match a, b with
  | Some x, Some y => Some (x - y)
  | _, _ => None
  end.

Definition fmul (a b : float) : float :=
  match a, b with
  | Some x, Some y => Some (x * y)
  | _, _ => None
  end.

Definition fdiv (a b : float) : float :=
  match a, b with
  | Some x, Some y => if Qeq_bool y 0 then None else Some (x / y)
  | _, _ => None
  end.

(** [x > c]: a comparison with NaN is false. *)
Definition fgt (x : float) (c : Q) : bool :=
  match x with
  | Some q => Qltb c q
  | None => false
  end.

(** [x == y] on floats: NaN is equal to nothing. *)
Definition feq (x y : float) : bool :=
  match x, y with
  | Some a, Some b => Qeq_bool a b
  | _, _ => false
  end.

(** [min]/[max] that skip NaN ([numpy.nanmin], [Series.max(skipna=True)]):
    NaN only when every entry is NaN. *)
Definition fmin2 (a b : float) : float :=
  match a, b with
  | Some x, Some y => Some (Qmin x y)
  | Some x, None => Some x
  | None, _ => b
  end.

Definition fmax2 (a b : float) : float :=
  match a, b with
  | Some x, Some y => Some (Qmax x y)
  | Some x, None => Some x
  | None, _ => b
  end.

Definition nanmin (xs : list float) : float := foldr fmin2 None xs.
Definition nanmax (xs : list float) : float := foldr fmax2 None xs.

(** The float of a cell; text in a numeric context is an error [e]. *)
Definition as_float (e : exn) (v : value) : result float :=
  match v with
  | Flt x => Ok x
  | Str _ => Err e
  end.

(** ** Series and frames *)

Record Series : Type := mkSeries {
  sindex : list nat;
  svalues : list value
}.

Record BoolSeries : Type := mkBoolSeries {
  bindex : list nat;
  bvalues : list bool
}.

(** A frame: the row labels and the columns, in column order. *)
Record DataFrame : Type := mkFrame {
  index : list nat;
  columns : list (string * list value)
}.

Fixpoint assoc {A : Type} (c : string) (cols : list (string * A)) : option A :=
  match cols with
  | [] => None
  | (c', v) :: rest => if decide (c' = c) then Some v else assoc c rest
  end.

(** [frame[c] = v]: an existing column is replaced where it stands, a new one
    is added last. *)
Fixpoint assign {A : Type} (c : string) (v : A) (cols : list (string * A))
  : list (string * A) :=
  match cols with
  | [] => [(c, v)]
  | (c', v') :: rest =>
      if decide (c' = c) then (c, v) :: rest else (c', v') :: assign c v rest
  end.

(** The cell of column [c] at row position [i]. *)
Definition cell (d : DataFrame) (c : string) (i : nat) : option value :=
  vs ← assoc c (columns d); vs !! i.

(** [d[c]] *)
Definition getitem (d : DataFrame) (c : string) : result Series :=
  match assoc c (columns d) with
  | Some vs => Ok (mkSeries (index d) vs)
  | None => Err KeyError
  end.

(** [d[c] = s].  The Series is aligned on the frame's row labels; with the
    same index, as everywhere in the script, that is a positional copy. *)
Definition setitem (d : DataFrame) (c : string) (s : Series) : result DataFrame :=
  if decide (sindex s = index d)
  then Ok (mkFrame (index d) (assign c (svalues s) (columns d)))
  else Err Unaligned.

(** The entries of [xs] where the mask is true. *)
Fixpoint mfilter {A : Type} (m : list bool) (xs : list A) : list A :=
  match m, xs with
  | b :: m', x :: xs' => if b then x :: mfilter m' xs' else mfilter m' xs'
  | _, _ => []
  end.

(** [d[mask]]: a new frame with the rows where the mask is true. *)
Definition getitem_mask (d : DataFrame) (m : BoolSeries) : result DataFrame :=
  if decide (bindex m = index d)
  then Ok (mkFrame (mfilter (bvalues m) (index d))
                   (map (fun cv => (cv.1, mfilter (bvalues m) cv.2)) (columns d)))
  else Err Unaligned.

(** [d[[c1, ..., cn]]]: a new frame with these columns, in this order. *)
Definition getitem_cols (d : DataFrame) (cs : list string) : result DataFrame :=
  cols ← mapM (fun c => match assoc c (columns d) with
                        | Some vs => Ok (c, vs)
                        | None => Err KeyError
                        end) cs;
  Ok (mkFrame (index d) cols).

(** [.fillna(c)] on a cell, a Series and a frame. *)
Definition fillna_value (c : Q) (v : value) : value :=
  match v with
  | NaN => Num c
  | _ => v
  end.

Definition fillna (c : Q) (s : Series) : Series :=
  mkSeries (sindex s) (map (fillna_value c) (svalues s)).

Definition frame_fillna (c : Q) (d : DataFrame) : DataFrame :=
  mkFrame (index d) (map (fun cv => (cv.1, map (fillna_value c) cv.2)) (columns d)).

(** Arithmetic on cells.  [+] on two texts concatenates; text with a number
    is a [TypeError]. *)
Definition vadd (a b : value) : result value :=
  match a, b with
  | Flt x, Flt y => Ok (Flt (fadd x y))
  | Str s, Str t => Ok (Str (s ++ t))
  | _, _ => Err TypeError
  end.

Definition vscalar (op : float -> float) (a : value) : result value :=
  match a with
  | Flt x => Ok (Flt (op x))
  | Str _ => Err TypeError
  end.

Fixpoint zip_withM {A B C : Type} (f : A -> B -> result C)
    (xs : list A) (ys : list B) : result (list C) :=
  match xs, ys with
  | x :: xs', y :: ys' => z ← f x y; zs ← zip_withM f xs' ys'; Ok (z :: zs)
  | _, _ => Ok []
  end.

(** [a + b] on two Series of one frame. *)
Definition series_add (a b : Series) : result Series :=
  if decide (sindex a = sindex b)
  then vs ← zip_withM vadd (svalues a) (svalues b); Ok (mkSeries (sindex a) vs)
  else Err Unaligned.

(** [c - s], [s / c] and [s * c] with a scalar [c]. *)
Definition series_rsub (c : Q) (s : Series) : result Series :=
  vs ← mapM (vscalar (fun x => fsub (Some c) x)) (svalues s);
  Ok (mkSeries (sindex s) vs).

Definition series_div (s : Series) (c : Q) : result Series :=
  vs ← mapM (vscalar (fun x => fdiv x (Some c))) (svalues s);
  Ok (mkSeries (sindex s) vs).

Definition series_mul (s : Series) (c : Q) : result Series :=
  vs ← mapM (vscalar (fun x => fmul x (Some c))) (svalues s);
  Ok (mkSeries (sindex s) vs).

(** [s > c]: text against a number is a [TypeError]. *)
Definition series_gt (s : Series) (c : Q) : result BoolSeries :=
  xs ← mapM (as_float TypeError) (svalues s);
  Ok (mkBoolSeries (sindex s) (map (fun x => fgt x c) xs)).

(** [s == y] for a float [y]: text is not equal to a number. *)
Definition series_eq (s : Series) (y : float) : BoolSeries :=
  mkBoolSeries (sindex s)
    (map (fun v => match v with Flt x => feq x y | Str _ => false end) (svalues s)).

(** [a & b] *)
Definition bool_and (a b : BoolSeries) : result BoolSeries :=
  if decide (bindex a = bindex b)
  then Ok (mkBoolSeries (bindex a) (zip_with andb (bvalues a) (bvalues b)))
  else Err Unaligned.

(** [s.max()], NaN skipped; NaN when nothing is left.  The column is taken
    to be numeric (Year is an integer column): a text cell is reported as the
    [TypeError] pandas raises when text meets numbers. *)
Definition series_max (s : Series) : result float :=
  xs ← mapM (as_float TypeError) (svalues s);
  Ok (nanmax xs).

(** [pd.to_numeric(s, errors=...)].  [parse] is pandas' recogniser of numeric
    text: [None] when the text is no number, [Some x] for the float it
    denotes ([Some None] for a NaN literal). *)
Inductive errors_mode : Type :=
  | Raise
  | Coerce.

Definition to_numeric_value (parse : string -> option float)
    (errors : errors_mode) (v : value) : result value :=
  match v with
  | Flt x => Ok (Flt x)
  | Str s =>
      match parse s with
      | Some x => Ok (Flt x)
      | None =>
          match errors with
          | Coerce => Ok NaN
          | Raise => Err ValueError
          end
      end
  end.

Definition to_numeric (parse : string -> option float)
    (errors : errors_mode) (s : Series) : result Series :=
  vs ← mapM (to_numeric_value parse errors) (svalues s);
  Ok (mkSeries (sindex s) vs).

(** ** [sklearn.preprocessing.MinMaxScaler], feature range (0, 1) *)

(** Machine epsilon of binary64, [2^-52]. *)
Definition eps : Q := 1 # 4503599627370496.

(** [_handle_zeros_in_scale]: a range below [10 * eps] counts as constant and
    is replaced by 1. *)
Definition handle_zeros_in_scale (r : float) : float :=
  match r with
  | Some x => if Qltb x (10 * eps) then Some 1 else Some x
  | None => None
  end.

(** [fit] then [transform] on one column: [X * scale_ + min_]. *)
Definition fit_transform_column (xs : list float) : list float :=
  let data_min := nanmin xs in
  let data_max := nanmax xs in
  let data_range := fsub data_max data_min in
  let scale_ := fdiv (fsub (Some 1) (Some 0)) (handle_zeros_in_scale data_range) in
  let min_ := fsub (Some 0) (fmul data_min scale_) in
  map (fun x => fadd (fmul x scale_) min_) xs.

(** [scaler.fit_transform(X)]: the array, column by column.  Input
    validation refuses an array with no row, and text ([ValueError]; text
    that spells a number, which sklearn would convert, is outside the
    model). *)
Definition fit_transform (X : DataFrame) : result (list (list float)) :=
  match index X with
  | [] => Err ValueError
  | _ :: _ =>
      arr ← mapM (fun cv : string * list value => mapM (as_float ValueError) cv.2)
                 (columns X);
      Ok (map fit_transform_column arr)
  end.

(** [pd.DataFrame(arr, columns=names, index=idx)] *)
Definition DataFrame_of_array (arr : list (list float)) (names : list string)
    (idx : list nat) : DataFrame :=
  mkFrame idx (zip names (map (map Flt) arr)).

(** ** [sort_values] *)

(** [xs[js]] with integer positions; a position out of range is an
    [IndexError]. *)
Definition take_pos {A : Type} (xs : list A) (js : list nat) : result (list A) :=
  mapM (fun j => match xs !! j with
                 | Some x => Ok x
                 | None => Err IndexError
                 end) js.

(** [d.take(js)] *)
Definition take_rows (d : DataFrame) (js : list nat) : result DataFrame :=
  idx ← take_pos (index d) js;
  cols ← mapM (fun cv : string * list value =>
                 vs ← take_pos cv.2 js; Ok (cv.1, vs)) (columns d);
  Ok (mkFrame idx cols).

(** The positions of the entries that are not NaN, with their values, and
    the positions of the NaN entries. *)
Fixpoint non_nans_from (i : nat) (items : list float) : list (nat * Q) :=
  match items with
  | [] => []
  | Some q :: rest => (i, q) :: non_nans_from (S i) rest
  | None :: rest => non_nans_from (S i) rest
  end.

Fixpoint nans_from (i : nat) (items : list float) : list nat :=
  match items with
  | [] => []
  | Some _ :: rest => nans_from (S i) rest
  | None :: rest => i :: nans_from (S i) rest
  end.

(** [pandas.core.sorting.nargsort(items, kind, ascending, na_position='last')].
    [argsort] is numpy's [ndarray.argsort(kind=kind)] on a NaN-free array.  A
    descending sort reverses the items, sorts ascending and reverses the
    result; the NaN positions come last. *)
Definition nargsort (argsort : list Q -> list nat) (items : list float)
    (ascending : bool) : result (list nat) :=
  let non_nan := non_nans_from 0 items in
  let nan_idx := nans_from 0 items in
  let non_nan := if ascending then non_nan else reverse non_nan in
  indexer ← take_pos non_nan.*1 (argsort non_nan.*2);
  let indexer := if ascending then indexer else reverse indexer in
  Ok (indexer ++ nan_idx).

(** [d.sort_values(by, ascending=ascending)], default [kind='quicksort']. *)
Definition sort_values (argsort : list Q -> list nat) (d : DataFrame)
    (by_ : string) (ascending : bool) : result DataFrame :=
  k ← getitem d by_;
  items ← mapM (as_float TypeError) (svalues k);
  indexer ← nargsort argsort items ascending;
  take_rows d indexer.

(** ** The store *)

Abbreviation loc := nat (only parsing).
Abbreviation heap := (list DataFrame) (only parsing).

(** A computation on the store that may raise. *)
Definition M (A : Type) : Type := heap -> result (A * heap).

#[global] Instance M_ret : MRet M := fun A a h => Ok (a, h).
#[global] Instance M_bind : MBind M := fun A B f m h =>
  match m h with
  | Ok (a, h') => f a h'
  | Err e => Err e
  end.

Definition lift {A : Type} (r : result A) : M A := fun h =>
  match r with
  | Ok a => Ok (a, h)
  | Err e => Err e
  end.

(** A new object. *)
Definition new (d : DataFrame) : M loc := fun h => Ok (length h, h ++ [d]).

(** The object at [l], as it is now. *)
Definition get (l : loc) : M DataFrame := fun h =>
  match h !! l with
  | Some d => Ok (d, h)
  | None => Err NameError
  end.

Definition put (l : loc) (d : DataFrame) : M unit := fun h =>
  match h !! l with
  | Some _ => Ok (tt, <[l := d]> h)
  | None => Err NameError
  end.

(** [x[c]] and [x[c] = s] for a variable [x] bound to the object at [l]. *)
Definition col (l : loc) (c : string) : M Series :=
  d ← get l; lift (getitem d c).

Definition setcol (l : loc) (c : string) (s : Series) : M unit :=
  d ← get l; d' ← lift (setitem d c s); put l d'.

(** [d.copy()]: the same content; [new] makes it an object of its own. *)
Definition copy (d : DataFrame) : DataFrame := d.

(** ** The script *)

Definition RENEWABLE : string :=
  "Renewable energy share in the total final energy consumption (%)".
Definition GDP : string := "gdp_per_capita".
Definition CO2 : string := "Value_co2_emissions_kt_by_country".
Definition YEAR : string := "Year".
Definition ACCESS : string := "Access to electricity (% of population)".
Definition INTENSITY : string :=
  "Energy intensity level of primary energy (MJ/$2017 PPP GDP)".
Definition CAPACITY : string :=
  "Renewable-electricity-generating-capacity-per-capita".
Definition SUSTAINABILITY : string := "Sustainability Score".
Definition INVESTMENT : string := "Investment Score".

(** The file as [pd.read_csv] has parsed it: the number of data rows and the
    columns of the header, each with one cell per row. *)
Record csv_file : Type := mkCsv {
  nrows : nat;
  fields : list (string * list value)
}.

(** [pd.read_csv(...)]: the rows are labelled 0, 1, ... *)
Definition read_csv (file : csv_file) : DataFrame :=
  mkFrame (seq 0 (nrows file)) (fields file).

Definition numeric_cols : list string := [RENEWABLE; GDP; CO2].

Section Script.

(** The two library routines the script relies on without fixing them:
    the numeric-text recogniser of [pd.to_numeric] and numpy's argsort for
    the default [kind='quicksort']. *)
Variable parse : string -> option float.
Variable argsort : list Q -> list nat.

(** Lines 16-17: [for col in numeric_cols: df[col] = pd.to_numeric(df[col],
    errors='coerce')]. *)
Definition coerce_numeric_cols (df : loc) : M (list unit) :=
  mapM (fun c =>
          s ← col df c;
          s' ← lift (to_numeric parse Coerce s);
          setcol df c s') numeric_cols.

(** Lines 24-28: the expression assigned to ['Sustainability Score']. *)
Definition sustainability_score (latest_df : loc) : M Series :=
  r ← col latest_df RENEWABLE;
  a ← col latest_df ACCESS;
  ra ← lift (series_add (fillna 0 r) (fillna 0 a));
  e ← col latest_df INTENSITY;
  e10 ← lift (series_div (fillna 0 e) 10);
  t ← lift (series_rsub 100 e10);
  lift (series_add ra t).

(** Lines 10-30. *)
Definition load_data (file : csv_file) : M (loc * loc * float) :=
  df ← new (read_csv file);
  _ ← coerce_numeric_cols df;
  year ← col df YEAR;
  latest_year ← lift (series_max year);
  d ← get df;
  year' ← col df YEAR;
  sel ← lift (getitem_mask d (series_eq year' latest_year));
  latest_df ← new (copy sel);
  score ← sustainability_score latest_df;
  _ ← setcol latest_df SUSTAINABILITY score;
  mret (df, latest_df, latest_year).

(** Lines 53-58. *)
Definition investment_factors (latest_df : loc) : M DataFrame :=
  d ← get latest_df;
  sel ← lift (getitem_cols d [ACCESS; RENEWABLE; GDP; CAPACITY]);
  mret (frame_fillna 0 sel).

(** Lines 60-64. *)
Definition investment_factors_scaled (factors : DataFrame) : result DataFrame :=
  arr ← fit_transform factors;
  Ok (DataFrame_of_array arr (columns factors).*1 (index factors)).

(** Lines 66-71: the expression assigned to ['Investment Score']. *)
Definition weighted_sum (scaled : DataFrame) : result Series :=
  a ← getitem scaled ACCESS;
  a3 ← series_mul a 0.3;
  r ← getitem scaled RENEWABLE;
  r4 ← series_mul r 0.4;
  s1 ← series_add a3 r4;
  g ← getitem scaled GDP;
  g2 ← series_mul g 0.2;
  s2 ← series_add s1 g2;
  c ← getitem scaled CAPACITY;
  c1 ← series_mul c 0.1;
  series_add s2 c1.

(** Lines 52-71. *)
Definition investment_score (latest_df : loc) : M unit :=
  factors ← investment_factors latest_df;
  scaled ← lift (investment_factors_scaled factors);
  s ← lift (weighted_sum scaled);
  setcol latest_df INVESTMENT s.

(** Lines 154-156: the mask of the recommendation filter on the frame
    [latest_df] currently holds. *)
Definition promising_mask (d : DataFrame) : result BoolSeries :=
  inv ← getitem d INVESTMENT;
  m1 ← series_gt inv 0.7;
  gdp ← getitem d GDP;
  m2 ← series_gt gdp 3000;
  m12 ← bool_and m1 m2;
  ren ← getitem d RENEWABLE;
  m3 ← series_gt ren 20;
  bool_and m12 m3.

(** Lines 153-156: [latest_df[mask]], the surviving rows in snapshot
    order. *)
Definition survivors (d : DataFrame) : result DataFrame :=
  m ← promising_mask d;
  getitem_mask d m.

(** Lines 153-157.  The statement only reads [latest_df]. *)
Definition promising_countries (latest_df : loc) : M DataFrame :=
  d ← get latest_df;
  lift (sel ← survivors d; sort_values argsort sel INVESTMENT false).

(** The script from the load to the recommendation list (the charts left
    out): the locations of [df] and [latest_df], and [promising_countries]. *)
Definition main (file : csv_file) : M (loc * loc * DataFrame) :=
  r ← load_data file;
  _ ← investment_score r.1.2;
  p ← promising_countries r.1.2;
  mret (r.1.1, r.1.2, p).

End Script.

(** ** numpy's argsort for [kind='quicksort']

    The portable introsort of numpy ([npysort/quicksort.cpp], [aquicksort_]
    and [aheapsort_]) on an array of positions [tosort] into the keys [v]:
    median-of-three quicksort, insertion sort on ranges of at most 17
    entries, heapsort once the depth budget is spent.  Loops carry fuel, at
    least the length of the array. *)
Module Npy.

Definition key (v : list Q) (i : nat) : Q := nth i v 0.
Definition at_ (t : list nat) (p : nat) : nat := nth p t 0%nat.
Definition less (v : list Q) (a b : nat) : bool := Qltb (key v a) (key v b).

Definition swap (t : list nat) (p q : nat) : list nat :=
  <[q := at_ t p]> (<[p := at_ t q]> t).

Definition SMALL_QUICKSORT : nat := 16.

(** [npy_get_msb] *)
Fixpoint get_msb (fuel : nat) (n : nat) : nat :=
  match fuel with
  | O => O
  | S fuel' => if (n <=? 1)%nat then O else S (get_msb fuel' (Nat.div2 n))
  end.

(** [do { ++pi; } while (less(v[*pi], vp));] *)
Fixpoint scan_up (fuel : nat) (v : list Q) (t : list nat) (vp : Q) (pi : nat) : nat :=
  match fuel with
  | O => pi
  | S fuel' =>
      let pi := S pi in
      if Qltb (key v (at_ t pi)) vp then scan_up fuel' v t vp pi else pi
  end.

(** [do { --pj; } while (less(vp, v[*pj]));] *)
Fixpoint scan_down (fuel : nat) (v : list Q) (t : list nat) (vp : Q) (pj : nat) : nat :=
  match fuel with
  | O => pj
  | S fuel' =>
      let pj := Nat.pred pj in
      if Qltb vp (key v (at_ t pj)) then scan_down fuel' v t vp pj else pj
  end.

(** The [for (;;)] loop of the partition; returns the array and [pi]. *)
Fixpoint partition_loop (fuel : nat) (v : list Q) (t : list nat) (vp : Q)
    (pi pj : nat) : list nat * nat :=
  match fuel with
  | O => (t, pi)
  | S fuel' =>
      let pi := scan_up (length t) v t vp pi in
      let pj := scan_down (length t) v t vp pj in
      if (pj <=? pi)%nat then (t, pi)
      else partition_loop fuel' v (swap t pi pj) vp pi pj
  end.

(** One round of [while ((pr - pl) > SMALL_QUICKSORT)]: the array and the
    pivot position. *)
Definition partition (v : list Q) (t : list nat) (pl pr : nat) : list nat * nat :=
  let pm := (pl + Nat.div2 (pr - pl))%nat in
  let t := if less v (at_ t pm) (at_ t pl) then swap t pm pl else t in
  let t := if less v (at_ t pr) (at_ t pm) then swap t pr pm else t in
  let t := if less v (at_ t pm) (at_ t pl) then swap t pm pl else t in
  let vp := key v (at_ t pm) in
  let pj := (pr - 1)%nat in
  let t := swap t pm pj in
  let '(t, pi) := partition_loop (length t) v t vp pl pj in
  (swap t pi (pr - 1)%nat, pi).

(** A range waiting on the stack, with the depth budget saved for it. *)
Definition frame : Type := nat * nat * Z.

Fixpoint partition_while (fuel : nat) (v : list Q) (t : list nat) (pl pr : nat)
    (stack : list frame) (cdepth : Z)
  : list nat * nat * nat * list frame * Z :=
  match fuel with
  | O => (t, pl, pr, stack, cdepth)
  | S fuel' =>
      if (SMALL_QUICKSORT <? pr - pl)%nat then
        let '(t, pi) := partition v t pl pr in
        let cdepth := (cdepth - 1)%Z in
        if (pi - pl <? pr - pi)%nat
        then partition_while fuel' v t pl (pi - 1)%nat
               ((S pi, pr, cdepth) :: stack) cdepth
        else partition_while fuel' v t (S pi) pr
               ((pl, (pi - 1)%nat, cdepth) :: stack) cdepth
      else (t, pl, pr, stack, cdepth)
  end.

(** [while (pj > pl && less(vp, v[*pk])) { *pj-- = *pk--; }] *)
Fixpoint shift_right (fuel : nat) (v : list Q) (t : list nat) (pl : nat)
    (vp : Q) (pj : nat) : list nat * nat :=
  match fuel with
  | O => (t, pj)
  | S fuel' =>
      if (pl <? pj)%nat && Qltb vp (key v (at_ t (pj - 1)))
      then shift_right fuel' v (<[pj := at_ t (pj - 1)]> t) pl vp (pj - 1)%nat
      else (t, pj)
  end.

Definition insertion_sort (v : list Q) (t : list nat) (pl pr : nat) : list nat :=
  foldl (fun t pi =>
           let vi := at_ t pi in
           let '(t, pj) := shift_right (length t) v t pl (key v vi) pi in
           <[pj := vi]> t)
        t (seq (S pl) (pr - pl)).

(** The sift loop of the heapsort, on the one-based array [a = t + pl - 1]. *)
Fixpoint sift (fuel : nat) (v : list Q) (t : list nat) (off n tmp i j : nat)
  : list nat * nat :=
  match fuel with
  | O => (t, i)
  | S fuel' =>
      if (j <=? n)%nat then
        let j := if (j <? n)%nat && less v (at_ t (off + j - 1)) (at_ t (off + j))
                 then S j else j in
        if less v tmp (at_ t (off + j - 1))
        then sift fuel' v (<[(off + i - 1)%nat := at_ t (off + j - 1)]> t)
               off n tmp j (j + j)%nat
        else (t, i)
      else (t, i)
  end.

Definition aheapsort (v : list Q) (t : list nat) (off n : nat) : list nat :=
  let build := foldl (fun t l =>
                        let tmp := at_ t (off + l - 1) in
                        let '(t, i) := sift (length t) v t off n tmp l (l + l)%nat in
                        <[(off + i - 1)%nat := tmp]> t)
                     t (reverse (seq 1 (Nat.div2 n))) in
  foldl (fun t n =>
           let tmp := at_ t (off + n - 1) in
           let t := <[(off + n - 1)%nat := at_ t off]> t in
           let n := (n - 1)%nat in
           let '(t, i) := sift (length t) v t off n tmp 1%nat 2%nat in
           <[(off + i - 1)%nat := tmp]> t)
        build (reverse (seq 2 (n - 1))).

(** The outer [while (1)] of [aquicksort_]. *)
Fixpoint aquicksort_loop (fuel : nat) (v : list Q) (t : list nat) (pl pr : nat)
    (stack : list frame) (cdepth : Z) : list nat :=
  match fuel with
  | O => t
  | S fuel' =>
      let '(t, stack) :=
        if (cdepth <? 0)%Z then (aheapsort v t pl (pr - pl + 1)%nat, stack)
        else
          let '(t, pl, pr, stack, _) :=
            partition_while (length t) v t pl pr stack cdepth in
          (insertion_sort v t pl pr, stack) in
      match stack with
      | [] => t
      | (pl, pr, cdepth) :: stack => aquicksort_loop fuel' v t pl pr stack cdepth
      end
  end.

(** [v.argsort(kind='quicksort')] *)
Definition argsort (v : list Q) : list nat :=
  let num := length v in
  aquicksort_loop (S num) v (seq 0 num) 0%nat (num - 1)%nat []
    (2 * Z.of_nat (get_msb num num))%Z.

End Npy.

(** ** Vocabulary of the statements *)

(** Every column of a frame, and of a parsed file, has one cell per row. *)
Definition wf_frame (d : DataFrame) : Prop :=
  Forall (fun cv : string * list value => length cv.2 = length (index d)) (columns d).

Definition wf_file (file : csv_file) : bool :=
  forallb (fun cv : string * list value => Nat.eqb (length cv.2) (nrows file))
    (fields file).

(** The positions a mask keeps. *)
Definition mpos (m : list bool) : list nat := mfilter m (seq 0 (length m)).

(** What [errors='coerce'] makes of one cell. *)
Definition coerce_value (parse : string -> option float) (v : value) : value :=
  match v with
  | Flt x => Flt x
  | Str s =>
      match parse s with
      | Some x => Flt x
      | None => NaN
      end
  end.

(** A missing float read as [c] ([fillna(c)]). *)
Definition or_else (c : Q) (x : float) : Q := default c x.

(** Column [c] is there and numeric: no text cell. *)
Definition is_flt (v : value) : bool :=
  match v with
  | Flt _ => true
  | Str _ => false
  end.

Definition numeric_col (c : string) (cols : list (string * list value)) : bool :=
  match assoc c cols with
  | Some vs => forallb is_flt vs
  | None => false
  end.

Definition has_col (c : string) (cols : list (string * list value)) : bool :=
  bool_decide (is_Some (assoc c cols)).

(** A file the loader accepts: one cell per row in every column, the three
    coerced columns present, and Year, electricity access and energy
    intensity numeric. *)
Definition loadable (file : csv_file) : bool :=
  wf_file file
  && forallb (fun c => has_col c (fields file)) numeric_cols
  && forallb (fun c => numeric_col c (fields file)) [YEAR; ACCESS; INTENSITY].

(** The cells of a numeric column with the missing ones read as 0. *)
Definition filled_col (vs : list value) : list Q :=
  map (fun v => match v with
                | Flt x => or_else 0 x
                | Str _ => 0
                end) vs.

(** Min-max normalisation as the specification words it,
    [(x - min) / (max - min)], with the scaler's rule for a constant column:
    a range below [10 * eps] is replaced by 1. *)
Definition normalized (lo hi x : Q) : Q :=
  (x - lo) / (if Qltb (hi - lo) (10 * eps) then 1 else hi - lo).

(** [lo] and [hi] are the least and the greatest entry of [qs]. *)
Definition is_min (lo : Q) (qs : list Q) : Prop :=
  (exists q, q ∈ qs /\ q == lo) /\ forall q, q ∈ qs -> lo <= q.
Definition is_max (hi : Q) (qs : list Q) : Prop :=
  (exists q, q ∈ qs /\ q == hi) /\ forall q, q ∈ qs -> q <= hi.

(** The four columns of lines 53-58. *)
Definition scored_cols : list string := [ACCESS; RENEWABLE; GDP; CAPACITY].

(** A snapshot the scorer accepts: at least one row, one cell per row in
    every column, and the four scored columns numeric. *)
Definition scorable (d : DataFrame) : bool :=
  negb (Nat.eqb (length (index d)) 0)
  && forallb (fun cv : string * list value =>
                Nat.eqb (length cv.2) (length (index d))) (columns d)
  && forallb (fun c => numeric_col c (columns d)) scored_cols.

(** [zs] is the min-max normalisation of the column [vs], missing cells
    read as 0. *)
Definition scaled_col (vs : list value) (zs : list Q) : Prop :=
  exists lo hi,
    is_min lo (filled_col vs) /\ is_max hi (filled_col vs) /\
    Forall2 (fun q z => z == normalized lo hi q) (filled_col vs) zs.

(** The weighted sum of lines 66-71 on four lists of normalised values. *)
Definition weighted (za zr zg zc : list Q) : list Q :=
  zip_with Qplus
    (zip_with Qplus
       (zip_with Qplus (map (fun z => z * 0.3) za) (map (fun z => z * 0.4) zr))
       (map (fun z => z * 0.2) zg))
    (map (fun z => z * 0.1) zc).

(** Row [i] of [d] has the input [q] in column [c] (a missing cell read
    as 0); [lo] and [hi] are the least and the greatest input of column [c]. *)
Definition input_at (d : DataFrame) (c : string) (i : nat) (q : Q) : Prop :=
  exists vs, assoc c (columns d) = Some vs /\ filled_col vs !! i = Some q.
Definition col_min (d : DataFrame) (c : string) (lo : Q) : Prop :=
  exists vs, assoc c (columns d) = Some vs /\ is_min lo (filled_col vs).
Definition col_max (d : DataFrame) (c : string) (hi : Q) : Prop :=
  exists vs, assoc c (columns d) = Some vs /\ is_max hi (filled_col vs).

(** The recommendation predicate on row [j] of [d]: Investment Score > 0.7
    and gdp per capita > 3000 and renewable share > 20, on the cells as they
    are (a missing cell compares false). *)
Definition passes (d : DataFrame) (j : nat) : bool :=
  match cell d INVESTMENT j, cell d GDP j, cell d RENEWABLE j with
  | Some (Flt s), Some (Flt g), Some (Flt r) => fgt s 0.7 && fgt g 3000 && fgt r 20
  | _, _, _ => false
  end.

(** The mask of lines 154-156 from the floats of the three columns. *)
Definition promising_bits (xi xg xr : list float) : list bool :=
  zip_with andb
    (zip_with andb (map (fun x => fgt x 0.7) xi) (map (fun x => fgt x 3000) xg))
    (map (fun x => fgt x 20) xr).

(** The Investment Scores of the rows of a frame that hold a number. *)
Definition number_of (v : value) : option Q :=
  match v with
  | Num s => Some s
  | _ => None
  end.

Definition scores_of (d : DataFrame) : list Q :=
  match assoc INVESTMENT (columns d) with
  | Some vs => omap number_of vs
  | None => []
  end.

(** [perm] is an argsort of [keys]: every position once, the keys ascending
    along it.  This is what numpy promises of [argsort] for every [kind];
    where equal keys go is left to the sort. *)
Fixpoint ascending_along (keys : list Q) (perm : list nat) : bool :=
  match perm with
  | [] => true
  | a :: rest =>
      forallb (fun b => Qle_bool (nth a keys 0) (nth b keys 0)) rest
      && ascending_along keys rest
  end.

Definition sorts (keys : list Q) (perm : list nat) : bool :=
  Nat.eqb (length perm) (length keys)
  && forallb (fun i => existsb (Nat.eqb i) perm) (seq 0 (length keys))
  && ascending_along keys perm.

(** Stability of the selector's sort: two rows of the snapshot [d] with the
    same Investment Score come out in [p] in the order they have in [d]. *)
Definition ties_keep_order (d p : DataFrame) : Prop :=
  forall i j a b s s' i' j',
    (i < j)%nat ->
    index d !! i = Some a -> index d !! j = Some b ->
    cell d INVESTMENT i = Some (Num s) -> cell d INVESTMENT j = Some (Num s') ->
    s == s' ->
    index p !! i' = Some a -> index p !! j' = Some b ->
    (i' < j')%nat.

(** ** Inputs for running the script *)

(** A recogniser of plain decimal literals ([12], [-3.5]): enough of
    [pd.to_numeric]'s grammar to run the examples. *)
Definition digit_of (a : ascii) : option Z :=
  let n := Z.of_nat (nat_of_ascii a) in
  if ((48 <=? n) && (n <=? 57))%Z then Some (n - 48)%Z else None.

(** The digits of [s] up to its end or a dot: the number read so far, the
    count of digits, and what follows the dot. *)
Fixpoint digits (s : string) (acc : Z) (n : nat) : option (Z * nat * option string) :=
  match s with
  | EmptyString => Some (acc, n, None)
  | String a rest =>
      if Ascii.eqb a "."%char then Some (acc, n, Some rest)
      else match digit_of a with
           | Some k => digits rest (10 * acc + k)%Z (S n)
           | None => None
           end
  end.

Definition parse_unsigned (s : string) : option Q :=
  match digits s 0%Z 0%nat with
  | Some (ip, n, None) => if (0 <? n)%nat then Some (inject_Z ip) else None
  | Some (ip, n, Some frac) =>
      match digits frac 0%Z 0%nat with
      | Some (fp, k, None) =>
          if (0 <? n + k)%nat
          then Some (inject_Z ip + inject_Z fp / inject_Z (10 ^ Z.of_nat k))
          else None
      | _ => None
      end
  | None => None
  end.

Definition parse_decimal (s : string) : option float :=
  match s with
  | String "-"%char rest => (fun q => Some (- q)) <$> parse_unsigned rest
  | _ => Some <$> parse_unsigned s
  end.

(** A file of one row, with the given renewable share and energy
    intensity. *)
Definition one_row_file (share intensity : Q) : csv_file :=
  mkCsv 1 [ ("Entity", [Str "X"]); (YEAR, [Num 2020]);
            (ACCESS, [Num 0]); (RENEWABLE, [Num share]);
            (GDP, [Num 0]); (CO2, [Num 0]);
            (CAPACITY, [Num 0]); (INTENSITY, [Num intensity]) ].

(** A file of five rows over three years; the renewable-share column came
    out of the parser as text because of one cell that is no number. *)
Definition sample_file : csv_file :=
  mkCsv 5
    [ ("Entity", [Str "A"; Str "B"; Str "C"; Str "D"; Str "E"]);
      (YEAR, [Num 2019; Num 2020; Num 2020; Num 2018; Num 2020]);
      (ACCESS, [Num 100; NaN; Num 95; Num 50; Num 80]);
      (RENEWABLE, [Str "12.5"; Str "unknown"; Str "40"; Str "7"; NaN]);
      (GDP, [Num 9000; Num 4000; Num 12000; NaN; Num 2500]);
      (CO2, [Num 10; Num 20; Num 30; Num 40; Num 50]);
      (CAPACITY, [Num 1; Num 2; Num 3; Num 4; NaN]);
      (INTENSITY, [Num 5; NaN; Num 3; Num 4; Num 2500]) ].

(** The two-row snapshot of the specification's example. *)
Definition two_rows : DataFrame :=
  mkFrame [0%nat; 1%nat]
    [ ("Entity", [Str "A"; Str "B"]);
      (ACCESS, [Num 80; Num 20]);
      (RENEWABLE, [Num 50; Num 10]);
      (GDP, [Num 5000; Num 1000]);
      (CAPACITY, [Num 10; Num 1]) ].

(** A snapshot of one row: every input is the maximum (and the minimum) of
    its column. *)
Definition single_row : DataFrame :=
  mkFrame [0%nat]
    [ ("Entity", [Str "A"]);
      (ACCESS, [Num 80]);
      (RENEWABLE, [Num 50]);
      (GDP, [Num 5000]);
      (CAPACITY, [Num 10]) ].

(** Two rows whose electricity access and renewable share are 6 and 1. *)
Definition overshoot_rows : DataFrame :=
  mkFrame [0%nat; 1%nat]
    [ ("Entity", [Str "A"; Str "B"]);
      (ACCESS, [Num 6; Num 1]);
      (RENEWABLE, [Num 6; Num 1]);
      (GDP, [Num 5000; Num 1000]);
      (CAPACITY, [Num 10; Num 1]) ].

(** Eighteen rows with the same four inputs and a nineteenth below them
    all: the eighteen get the same Investment Score and all pass the filter. *)
Definition tied_rows : DataFrame :=
  mkFrame (seq 0 19)
    [ (ACCESS, replicate 18 (Num 80) ++ [Num 20]);
      (RENEWABLE, replicate 18 (Num 50) ++ [Num 10]);
      (GDP, replicate 18 (Num 5000) ++ [Num 1000]);
      (CAPACITY, replicate 18 (Num 10) ++ [Num 1]) ].

(** ** The scorer on binary64 numbers

    The scaler and the weighted sum once more, on IEEE 754 binary64 floats
    (Rocq's primitive floats) instead of exact rationals: what lines 52-71
    compute to the last bit.  The theorems on the exact model say what holds
    of the formulas; evaluating this one says where rounding departs from
    them. *)
Module Binary64.

#[local] Set Warnings "-inexact-float".

Definition float64 : Type := PrimFloat.float.

(** The binary64 number nearest to a rational with a small numerator and
    denominator: the cell as the CSV parser and [fillna(0)] hand it over. *)
Definition of_Z (z : Z) : float64 :=
  match z with
  | Z0 => 0%float
  | Zpos p => PrimFloat.of_uint63 (Uint63.of_pos p)
  | Zneg p => (- PrimFloat.of_uint63 (Uint63.of_pos p))%float
  end.

Definition of_Q (q : Q) : float64 := (of_Z (Qnum q) / of_Z (Zpos (Qden q)))%float.

Definition min64 (xs : list float64) : float64 :=
  foldr (fun x m => if PrimFloat.ltb x m then x else m) PrimFloat.infinity xs.
Definition max64 (xs : list float64) : float64 :=
  foldr (fun x m => if PrimFloat.ltb m x then x else m) PrimFloat.neg_infinity xs.

(** [np.finfo(np.float64).eps] *)
Definition eps64 : float64 := 0x1p-52%float.

Definition handle_zeros_in_scale64 (r : float64) : float64 :=
  if PrimFloat.ltb r (10 * eps64)%float then 1%float else r.

(** [X * scale_ + min_] *)
Definition fit_transform_column64 (xs : list float64) : list float64 :=
  let data_min := min64 xs in
  let data_max := max64 xs in
  let data_range := (data_max - data_min)%float in
  let scale_ := ((1 - 0) / handle_zeros_in_scale64 data_range)%float in
  let min_ := (0 - data_min * scale_)%float in
  map (fun x => (x * scale_ + min_)%float) xs.

(** Lines 66-71 on the four scaled columns. *)
Definition weighted_sum64 (a r g c : list float64) : list float64 :=
  zip_with (fun x y => (x + y)%float)
    (zip_with (fun x y => (x + y)%float)
       (zip_with (fun x y => (x + y)%float)
          (map (fun x => (x * 0.3)%float) a) (map (fun x => (x * 0.4)%float) r))
       (map (fun x => (x * 0.2)%float) g))
    (map (fun x => (x * 0.1)%float) c).

(** Lines 52-71 on the four columns (access, renewable share, gdp per
    capita, capacity). *)
Definition investment_score64 (access renewable gdp capacity : list float64)
  : list float64 :=
  weighted_sum64 (fit_transform_column64 access) (fit_transform_column64 renewable)
    (fit_transform_column64 gdp) (fit_transform_column64 capacity).

(** The same on the four scored columns of a frame, missing cells read
    as 0. *)
Definition column64 (d : DataFrame) (c : string) : list float64 :=
  match assoc c (columns d) with
  | Some vs => map of_Q (filled_col vs)
  | None => []
  end.

Definition investment_score_of (d : DataFrame) : list float64 :=
  investment_score64 (column64 d ACCESS) (column64 d RENEWABLE)
    (column64 d GDP) (column64 d CAPACITY).

End Binary64.

(** ** The rest of the page

    What the script computes for the key metrics (lines 39-43), the scatter
    plot (lines 91-92), the bar chart (line 111), the trend chart (lines
    133-137) and the recommendation cards (lines 159-174).  The figures and
    widgets are plotly's and Streamlit's; the model stops at the frames and
    values the script hands to them, and the text of an f-string is not
    built, only the value it formats. *)

Definition ENTITY : string := "Entity".

(** [pd.isna] on a cell: text is never missing. *)
Definition isna (v : value) : bool :=
  match v with
  | NaN => true
  | _ => false
  end.

(** Two cells are the same entry of the hash table behind [unique]: equal
    text, equal numbers, or NaN twice. *)
Definition same_value (a b : value) : bool :=
  match a, b with
  | Str s, Str t => bool_decide (s = t)
  | Num p, Num q => Qeq_bool p q
  | NaN, NaN => true
  | _, _ => false
  end.

(** [s.unique()]: the values in order of first appearance, NaN included. *)
Fixpoint unique_from (seen : list value) (vs : list value) : list value :=
  match vs with
  | [] => []
  | v :: rest =>
      if existsb (same_value v) seen then unique_from seen rest
      else v :: unique_from (v :: seen) rest
  end.

Definition series_unique (s : Series) : list value := unique_from [] (svalues s).

(** [s.nunique()]: the length of [unique()] once NaN is removed. *)
Definition series_nunique (s : Series) : nat :=
  length (List.filter (fun v => negb (isna v)) (series_unique s)).

(** [s.min()], as [s.max()] above. *)
Definition series_min (s : Series) : result float :=
  xs ← mapM (as_float TypeError) (svalues s);
  Ok (nanmin xs).

(** The entries that are not NaN. *)
Definition non_nan (xs : list float) : list Q := omap id xs.

Definition Qsum (qs : list Q) : Q := foldr Qplus 0 qs.

(** [nanops.nanmean]: the sum of the entries that are not NaN over their
    count; NaN when there is none. *)
Definition nanmean (xs : list float) : float :=
  match non_nan xs with
  | [] => None
  | q :: qs => Some (Qsum (q :: qs) / inject_Z (Z.of_nat (length (q :: qs))))
  end.

(** [s.mean()]; text in the column is a [TypeError]. *)
Definition series_mean (s : Series) : result float :=
  xs ← mapM (as_float TypeError) (svalues s);
  Ok (nanmean xs).

(** [s.isin(values)] for a list of texts. *)
Definition series_isin (s : Series) (values : list string) : BoolSeries :=
  mkBoolSeries (sindex s)
    (map (fun v => match v with
                   | Str e => bool_decide (e ∈ values)
                   | Flt _ => false
                   end) (svalues s)).

(** [d.dropna(subset=cs)]: the rows with no missing cell in the columns
    [cs]; a name that is no column is a [KeyError]. *)
Definition dropna (d : DataFrame) (subset : list string) : result DataFrame :=
  cols ← mapM (fun c => match assoc c (columns d) with
                        | Some vs => Ok vs
                        | None => Err KeyError
                        end) subset;
  let notna := map (map (fun v => negb (isna v))) cols in
  let mask := foldr (zip_with andb) (replicate (length (index d)) true) notna in
  getitem_mask d (mkBoolSeries (index d) mask).

(** A stable sort: among entries that [le] does not separate, the order of
    the input is kept.  This is what [kind='mergesort'] computes. *)
Fixpoint insert_sorted {A : Type} (le : A -> A -> bool) (x : A) (l : list A) : list A :=
  match l with
  | [] => [x]
  | y :: l' => if le x y then x :: y :: l' else y :: insert_sorted le x l'
  end.

Definition stable_sort {A : Type} (le : A -> A -> bool) (l : list A) : list A :=
  foldr (insert_sorted le) [] l.

(** [algos.kth_smallest(arr, k)] *)
Definition kth_smallest (arr : list Q) (k : nat) : Q :=
  nth k (stable_sort Qle_bool arr) 0.

(** [SelectNSeries.compute('nlargest')] with [keep='first'], as positions
    into [items].  With [n] at least the length, the Series is sorted
    descending by [sort_values] (default kind) and cut; otherwise the entries
    that are not NaN are negated, those up to the [n]-th smallest are sorted
    by a stable sort, the first [n] are kept, and NaN entries fill up what is
    missing. *)
Definition nlargest_indexer (argsort : list Q -> list nat) (n : nat)
    (items : list float) : result (list nat) :=
  if (n =? 0)%nat then Ok []
  else if (length items <=? n)%nat then
    indexer ← nargsort argsort items false;
    Ok (take n indexer)
  else
    let dropped := non_nans_from 0 items in
    let nan_index := nans_from 0 items in
    let arr := map (fun pv : nat * Q => (pv.1, - pv.2)) dropped in
    let n' := Nat.min n (length arr) in
    let inds :=
      match arr with
      | [] => []
      | _ :: _ =>
          let kth_val := kth_smallest arr.*2 (n' - 1) in
          let ns := List.filter (fun pv : nat * Q => Qle_bool pv.2 kth_val) arr in
          take n' (stable_sort (fun a b : nat * Q => Qle_bool a.2 b.2) ns)
      end in
    Ok (take n (inds.*1 ++ nan_index)).

(** [d.nlargest(n, c)]; a text column is a [TypeError]. *)
Definition nlargest (argsort : list Q -> list nat) (n : nat) (d : DataFrame)
    (c : string) : result DataFrame :=
  s ← getitem d c;
  items ← mapM (as_float TypeError) (svalues s);
  indexer ← nlargest_indexer argsort n items;
  take_rows d indexer.

(** [d.head(n)] and [d.empty]. *)
Definition df_head (n : nat) (d : DataFrame) : DataFrame :=
  mkFrame (take n (index d))
    (map (fun cv : string * list value => (cv.1, take n cv.2)) (columns d)).

Definition df_empty (d : DataFrame) : bool :=
  (length (index d) =? 0)%nat || (length (columns d) =? 0)%nat.

(** [d.iterrows()]: each row label with the row as a Series over the column
    names; [row[c]] is a [KeyError] for a name that is no column. *)
Definition row_of (d : DataFrame) (i : nat) : list (string * value) :=
  omap (fun cv : string * list value => (fun v => (cv.1, v)) <$> cv.2 !! i)
       (columns d).

Definition iterrows (d : DataFrame) : list (nat * list (string * value)) :=
  imap (fun i lbl => (lbl, row_of d i)) (index d).

Definition row_getitem (row : list (string * value)) (c : string) : result value :=
  match assoc c row with
  | Some v => Ok v
  | None => Err KeyError
  end.

(** [enumerate(xs)] *)
Definition enumerate {A : Type} (xs : list A) : list (nat * A) :=
  imap (fun i x => (i, x)) xs.

(** What the page shows below "Investment Recommendations": the success
    banner and the cards, each in one of the three columns, or the
    warning. *)
Inductive element : Type :=
  | success
  | warning
  | metric (column : nat) (label : value) (score share access gdp : float).

(** The value a [:.2f] (or [:.1f], [:,.0f]) field formats: a float, NaN
    included; the format code is refused for text ([ValueError]). *)
Definition format_f (v : value) : result float := as_float ValueError v.

(** Lines 162-172: one card. *)
Definition card (i : nat) (row : list (string * value)) : result element :=
  label ← row_getitem row ENTITY;
  score ← row_getitem row INVESTMENT ≫= format_f;
  share ← row_getitem row RENEWABLE ≫= format_f;
  access ← row_getitem row ACCESS ≫= format_f;
  gdp ← row_getitem row GDP ≫= format_f;
  Ok (metric (i mod 3) label score share access gdp).

(** Lines 159-174. *)
Definition recommendation_cards (promising : DataFrame) : result (list element) :=
  if negb (df_empty promising) then
    cards ← mapM (fun ir : nat * (nat * list (string * value)) => card ir.1 ir.2.2)
                 (enumerate (iterrows (df_head 6 promising)));
    Ok (success :: cards)
  else Ok [warning].

(** The values of the four key metrics. *)
Record key_values : Type := mkKeyValues {
  countries : nat;
  years_covered : float * float;
  avg_renewable_share : float;
  avg_electricity_access : float
}.

(** Lines 40-43. *)
Definition key_metrics (df : loc) : M key_values :=
  e ← col df ENTITY;
  y ← col df YEAR;
  lo ← lift (series_min y);
  y' ← col df YEAR;
  hi ← lift (series_max y');
  r ← col df RENEWABLE;
  mr ← lift (series_mean r);
  a ← col df ACCESS;
  ma ← lift (series_mean a);
  mret (mkKeyValues (series_nunique e) (lo, hi) mr ma).

(** Lines 91-92: the frame given to the scatter plot. *)
Definition scatter_data (latest_df : loc) : M DataFrame :=
  d ← get latest_df;
  lift (dropna d [GDP; RENEWABLE]).

(** Line 133: the options of the country selector. *)
Definition country_options (df : loc) : M (list value) :=
  e ← col df ENTITY;
  mret (series_unique e).

(** Line 137; [selected_countries] is what the selector returned. *)
Definition trend_df (df : loc) (selected_countries : list string) : M DataFrame :=
  d ← get df;
  e ← col df ENTITY;
  lift (getitem_mask d (series_isin e selected_countries)).

Section Page.

Variable parse : string -> option float.
Variable argsort : list Q -> list nat.

(** Line 111. *)
Definition top_countries (latest_df : loc) : M DataFrame :=
  d ← get latest_df;
  lift (nlargest argsort 10 d RENEWABLE).

(** Lines 153-174. *)
Definition recommendations (latest_df : loc) : M (list element) :=
  p ← promising_countries argsort latest_df;
  lift (recommendation_cards p).

(** The page from top to bottom: what each part computes, in the order of
    the script. *)
Record page_values : Type := mkPage {
  page_metrics : key_values;
  page_scatter : DataFrame;
  page_top : DataFrame;
  page_options : list value;
  page_trend : DataFrame;
  page_cards : list element
}.

Definition page (file : csv_file) (selected_countries : list string) : M page_values :=
  r ← load_data parse file;
  k ← key_metrics r.1.1;
  _ ← investment_score r.1.2;
  s ← scatter_data r.1.2;
  t ← top_countries r.1.2;
  o ← country_options r.1.1;
  tr ← trend_df r.1.1 selected_countries;
  c ← recommendations r.1.2;
  mret (mkPage k s t o tr c).

End Page.
(** ** Vocabulary of the statements on the rest of the page *)

(** [sel] holds the rows of [d] at the positions [js], in the order of
    [js]: the same row labels and, in every column, the same cells. *)
Definition rows_at (d sel : DataFrame) (js : list nat) : Prop :=
  length (index sel) = length js /\
  forall i j, js !! i = Some j ->
    (j < length (index d))%nat /\
    index sel !! i = index d !! j /\
    forall c, cell sel c i = cell d c j.

(** The positions [js] go down the frame: each one after the one before. *)
Definition in_order (js : list nat) : Prop :=
  forall i i' j j', (i < i')%nat -> js !! i = Some j -> js !! i' = Some j' -> (j < j')%nat.

(** [l] is sorted for [le]: each entry is below all the later ones. *)
Fixpoint sorted_by {A : Type} (le : A -> A -> bool) (l : list A) : Prop :=
  match l with
  | [] => True
  | a :: rest => Forall (fun b => le a b = true) rest /\ sorted_by le rest
  end.

(** Eight countries of one year; all but the last pass the three
    thresholds. *)
Definition eight_rows : DataFrame :=
  mkFrame (seq 0 8)
    [ (ENTITY, [Str "A"; Str "B"; Str "C"; Str "D"; Str "E"; Str "F"; Str "G"; Str "H"]);
      (ACCESS, [Num 86; Num 85; Num 84; NaN; Num 82; Num 81; Num 80; Num 20]);
      (RENEWABLE, [Num 50; Num 51; Num 52; Num 53; Num 54; Num 55; Num 56; Num 10]);
      (GDP, replicate 7 (Num 5000) ++ [Num 1000]);
      (CAPACITY, replicate 7 (Num 10) ++ [Num 1]) ].

(** [T] lists, largest first, the [n] largest numbers of [items] with their
    positions: all the numbers when there are fewer than [n]. *)
Definition largest_first (n : nat) (items : list float) (T : list (nat * Q)) : Prop :=
  NoDup T.*1 /\
  (forall pv, pv ∈ T -> pv ∈ non_nans_from 0 items) /\
  length T = Nat.min n (length (non_nans_from 0 items)) /\
  (forall i i' a b, (i < i')%nat -> T !! i = Some a -> T !! i' = Some b -> b.2 <= a.2) /\
  (forall a b, a ∈ T -> b ∈ non_nans_from 0 items -> b ∉ T -> b.2 <= a.2).



(** * Properties *)

(** ** Inversion of the two monads *)

Lemma bind_Ok {A B : Type} (m : result A) (f : A -> result B) (b : B) :
  m ≫= f = Ok b -> exists a, m = Ok a /\ f a = Ok b.
Proof. destruct m as [a|e]; simpl; [eauto | discriminate]. Qed.

Lemma M_bind_Ok {A B : Type} (m : M A) (f : A -> M B) (h h' : heap) (b : B) :
  (m ≫= f) h = Ok (b, h') ->
  exists a h1, m h = Ok (a, h1) /\ f a h1 = Ok (b, h').
Proof.
  unfold mbind, M_bind. destruct (m h) as [[a h1]|e]; [eauto | discriminate].
Qed.

Lemma M_ret_Ok {A : Type} (a b : A) (h h' : heap) :
  mret (M := M) a h = Ok (b, h') -> b = a /\ h' = h.
Proof. unfold mret, M_ret. intros [= -> ->]. auto. Qed.

Lemma lift_Ok {A : Type} (r : result A) (a : A) (h h' : heap) :
  lift r h = Ok (a, h') -> r = Ok a /\ h' = h.
Proof. unfold lift. destruct r; intros [= -> ->]; auto. Qed.

Lemma get_Ok (l : loc) (d : DataFrame) (h h' : heap) :
  get l h = Ok (d, h') -> h !! l = Some d /\ h' = h.
Proof. unfold get. destruct (h !! l); intros [= -> ->]; auto. Qed.

Lemma put_Ok (l : loc) (d : DataFrame) (u : unit) (h h' : heap) :
  put l d h = Ok (u, h') -> (l < length h)%nat /\ h' = <[l := d]> h.
Proof.
  unfold put. destruct (h !! l) eqn:E; intros [= <- <-].
  split; [by eapply lookup_lt_Some | done].
Qed.

Lemma new_Ok (d : DataFrame) (l : loc) (h h' : heap) :
  new d h = Ok (l, h') -> l = length h /\ h' = h ++ [d].
Proof. unfold new. intros [= <- <-]. auto. Qed.

Lemma col_Ok (l : loc) (c : string) (s : Series) (h h' : heap) :
  col l c h = Ok (s, h') ->
  exists d vs, h !! l = Some d /\ assoc c (columns d) = Some vs /\
               s = mkSeries (index d) vs /\ h' = h.
Proof.
  unfold col. intros (d & h1 & Hg & Hl)%M_bind_Ok.
  apply get_Ok in Hg as [Hd ->]. apply lift_Ok in Hl as [Hl ->].
  unfold getitem in Hl. destruct (assoc c (columns d)) as [vs|] eqn:E; [|discriminate].
  injection Hl as <-. eauto 10.
Qed.

Lemma setcol_Ok (l : loc) (c : string) (s : Series) (u : unit) (h h' : heap) :
  setcol l c s h = Ok (u, h') ->
  exists d, h !! l = Some d /\ sindex s = index d /\
            h' = <[l := mkFrame (index d) (assign c (svalues s) (columns d))]> h.
Proof.
  unfold setcol. intros (d & h1 & Hg & (d' & h2 & Hl & Hp)%M_bind_Ok)%M_bind_Ok.
  apply get_Ok in Hg as [Hd ->]. apply lift_Ok in Hl as [Hl ->].
  apply put_Ok in Hp as [_ ->]. unfold setitem in Hl.
  destruct (decide (sindex s = index d)); [|discriminate].
  injection Hl as <-. eauto.
Qed.

(** Peel one statement off a run that is known to succeed: [H1] is the run
    of the first statement, [H] stays the run of the rest. *)
Ltac step_as H H1 :=
  first
    [ apply M_bind_Ok in H as (? & ? & H1 & H)
    | apply bind_Ok in H as (? & H1 & H) ].

Tactic Notation "step" hyp(H) "as" ident(H1) := step_as H H1.

(** The same, naming the result (and the store) of the first statement. *)
Tactic Notation "stepM" hyp(H) "as" ident(a) ident(h) ident(H1) :=
  apply M_bind_Ok in H as (a & h & H1 & H).
Tactic Notation "stepR" hyp(H) "as" ident(a) ident(H1) :=
  apply bind_Ok in H as (a & H1 & H).

(** ** Lists *)

Lemma mapM_Ok_Forall2 {A B : Type} (f : A -> result B) (xs : list A) (ys : list B) :
  mapM f xs = Ok ys <-> Forall2 (fun x y => f x = Ok y) xs ys.
Proof.
  revert ys. induction xs as [|x xs IH]; intros ys; simpl.
  - split; [intros [= <-]; constructor | intros ->%Forall2_nil_inv_l; done].
  - split.
    + intros (y & Hy & (k & Hk & [= <-])%bind_Ok)%bind_Ok.
      constructor; [done | by apply IH].
    + intros (y & k & Hy & Hk & ->)%Forall2_cons_inv_l.
      apply IH in Hk. rewrite Hy. simpl.
      change (mapM f xs ≫= (fun k0 => mret (y :: k0)) = Ok (y :: k)).
      by rewrite Hk.
Qed.

Lemma mapM_Ok_length {A B : Type} (f : A -> result B) (xs : list A) (ys : list B) :
  mapM f xs = Ok ys -> length ys = length xs.
Proof. intros H%mapM_Ok_Forall2. symmetry. by eapply Forall2_length. Qed.

Lemma mapM_Ok_lookup {A B : Type} (f : A -> result B) (xs : list A) (ys : list B)
    (i : nat) (y : B) :
  mapM f xs = Ok ys -> ys !! i = Some y -> exists x, xs !! i = Some x /\ f x = Ok y.
Proof.
  intros H%mapM_Ok_Forall2 Hy.
  destruct (Forall2_lookup_r _ _ _ _ _ H Hy) as (x & ? & ?). eauto.
Qed.

Lemma zip_withM_Ok_length {A B C : Type} (f : A -> B -> result C)
    (xs : list A) (ys : list B) (zs : list C) :
  zip_withM f xs ys = Ok zs -> length zs = Nat.min (length xs) (length ys).
Proof.
  revert ys zs. induction xs as [|x xs IH]; intros [|y ys] zs; simpl;
    try (intros [= <-]; done).
  intros (z & Hz & (k & Hk & [= <-])%bind_Ok)%bind_Ok. simpl. f_equal. eauto.
Qed.

Lemma zip_withM_Ok_lookup {A B C : Type} (f : A -> B -> result C)
    (xs : list A) (ys : list B) (zs : list C) (i : nat) (z : C) :
  zip_withM f xs ys = Ok zs -> zs !! i = Some z ->
  exists x y, xs !! i = Some x /\ ys !! i = Some y /\ f x y = Ok z.
Proof.
  revert ys zs i. induction xs as [|x xs IH]; intros [|y ys] zs i; simpl;
    try (intros [= <-]; done).
  intros (z' & Hz & (k & Hk & [= <-])%bind_Ok)%bind_Ok.
  destruct i as [|i]; simpl.
  - intros [= <-]. eauto.
  - intros Hi. eauto.
Qed.

(** ** Columns *)

Ltac col_ne :=
  unfold RENEWABLE, GDP, CO2, YEAR, ACCESS, INTENSITY, CAPACITY,
    SUSTAINABILITY, INVESTMENT; discriminate.

Lemma assoc_assign_eq {A : Type} (c : string) (v : A) (cols : list (string * A)) :
  assoc c (assign c v cols) = Some v.
Proof.
  induction cols as [|[c' v'] cols IH]; simpl.
  - by rewrite decide_True.
  - destruct (decide (c' = c)) as [->|Hne]; simpl.
    + by rewrite decide_True.
    + by rewrite decide_False.
Qed.

Lemma assoc_assign_ne {A : Type} (c c' : string) (v : A) (cols : list (string * A)) :
  c <> c' -> assoc c' (assign c v cols) = assoc c' cols.
Proof.
  intros Hne. induction cols as [|[c0 v0] cols IH]; simpl.
  - by rewrite decide_False.
  - destruct (decide (c0 = c)) as [->|Hne0]; simpl.
    + by rewrite !decide_False.
    + destruct (decide (c0 = c')); [done | apply IH].
Qed.

Lemma assoc_map {A B : Type} (f : A -> B) (c : string) (cols : list (string * A)) :
  assoc c (map (fun cv => (cv.1, f cv.2)) cols) = f <$> assoc c cols.
Proof.
  induction cols as [|[c' v] cols IH]; simpl; [done|].
  destruct (decide (c' = c)); [done | apply IH].
Qed.

Lemma assoc_elem_of {A : Type} (c : string) (v : A) (cols : list (string * A)) :
  assoc c cols = Some v -> (c, v) ∈ cols.
Proof.
  induction cols as [|[c' v'] cols IH]; simpl; [discriminate|].
  destruct (decide (c' = c)) as [->|].
  - intros [= ->]. left.
  - intros H. right. auto.
Qed.

Lemma wf_read_csv (file : csv_file) : wf_file file = true -> wf_frame (read_csv file).
Proof.
  unfold wf_file, wf_frame, read_csv. simpl. rewrite length_seq.
  intros H. apply Forall_forall. intros cv Hcv.
  rewrite forallb_forall in H. apply Nat.eqb_eq, H. by apply list_elem_of_In.
Qed.

Lemma wf_frame_assoc (d : DataFrame) (c : string) (vs : list value) :
  wf_frame d -> assoc c (columns d) = Some vs -> length vs = length (index d).
Proof.
  intros Hwf H%assoc_elem_of. unfold wf_frame in Hwf.
  rewrite Forall_forall in Hwf. apply (Hwf _ H).
Qed.

Lemma wf_frame_assign (idx : list nat) (c : string) (vs : list value)
    (cols : list (string * list value)) :
  wf_frame (mkFrame idx cols) -> length vs = length idx ->
  wf_frame (mkFrame idx (assign c vs cols)).
Proof.
  unfold wf_frame. simpl. intros Hwf Hlen.
  induction cols as [|[c' v'] cols IH]; simpl.
  - by constructor.
  - apply Forall_cons in Hwf as [H1 H2].
    destruct (decide (c' = c)); constructor; auto.
Qed.

Lemma cell_assign_eq (idx : list nat) (c : string) (vs : list value)
    (cols : list (string * list value)) (i : nat) :
  cell (mkFrame idx (assign c vs cols)) c i = vs !! i.
Proof. unfold cell. simpl. by rewrite assoc_assign_eq. Qed.

Lemma cell_assign_ne (idx : list nat) (c c' : string) (vs : list value)
    (cols : list (string * list value)) (i : nat) :
  c <> c' -> cell (mkFrame idx (assign c vs cols)) c' i = cell (mkFrame idx cols) c' i.
Proof. intros Hne. unfold cell. simpl. by rewrite assoc_assign_ne. Qed.

(** ** The mask *)

Lemma length_mfilter {A B : Type} (m : list bool) (xs : list A) (ys : list B) :
  length xs = length ys -> length (mfilter m xs) = length (mfilter m ys).
Proof.
  revert xs ys. induction m as [|b m IH]; intros [|x xs] [|y ys]; simpl;
    try done.
  intros [= H]. destruct b; simpl; auto.
Qed.

Lemma mfilter_seq_shift (m : list bool) (k n : nat) :
  mfilter m (seq (S k) n) = map S (mfilter m (seq k n)).
Proof.
  revert k n. induction m as [|b m IH]; intros k [|n]; simpl; try done.
  destruct b; simpl; by rewrite IH.
Qed.

Lemma mfilter_lookup {A : Type} (m : list bool) (xs : list A) (i : nat) :
  length xs = length m ->
  mfilter m xs !! i = j ← mpos m !! i; xs !! j.
Proof.
  unfold mpos. revert xs i. induction m as [|b m IH]; intros [|x xs] i; simpl;
    try done.
  intros [= Hlen]. rewrite mfilter_seq_shift.
  destruct b; simpl.
  - destruct i as [|i]; simpl; [done|].
    rewrite (IH xs i Hlen), list_lookup_fmap.
    by destruct (mfilter m (seq 0 (length m)) !! i).
  - rewrite (IH xs i Hlen), list_lookup_fmap.
    by destruct (mfilter m (seq 0 (length m)) !! i).
Qed.

Lemma mpos_lookup (m : list bool) (i j : nat) :
  mpos m !! i = Some j -> m !! j = Some true.
Proof.
  unfold mpos. revert i j. induction m as [|b m IH]; intros i j; simpl; [done|].
  rewrite mfilter_seq_shift. destruct b; simpl.
  - destruct i as [|i]; simpl; [by intros [= <-]|].
    rewrite list_lookup_fmap.
    destruct (mfilter m (seq 0 (length m)) !! i) as [j'|] eqn:E; simpl; [|done].
    intros [= <-]. simpl. eauto.
  - rewrite list_lookup_fmap.
    destruct (mfilter m (seq 0 (length m)) !! i) as [j'|] eqn:E; simpl; [|done].
    intros [= <-]. simpl. eauto.
Qed.

Lemma mpos_complete (m : list bool) (j : nat) :
  m !! j = Some true -> exists i, mpos m !! i = Some j.
Proof.
  unfold mpos. revert j. induction m as [|b m IH]; intros j; simpl; [done|].
  rewrite mfilter_seq_shift. destruct j as [|j]; simpl.
  - intros [= ->]. by exists 0%nat.
  - intros (i & Hi)%IH. destruct b.
    + exists (S i). simpl. by rewrite list_lookup_fmap, Hi.
    + exists i. by rewrite list_lookup_fmap, Hi.
Qed.

Lemma wf_getitem_mask (d sel : DataFrame) (m : BoolSeries) :
  wf_frame d -> getitem_mask d m = Ok sel -> wf_frame sel.
Proof.
  unfold getitem_mask, wf_frame. intros Hwf.
  destruct (decide (bindex m = index d)); [|discriminate].
  intros [= <-]. simpl. apply Forall_fmap, (Forall_impl _ _ _ Hwf).
  intros [c vs] Hlen. simpl in *. by apply length_mfilter.
Qed.

(** ** The loader *)

Lemma to_numeric_coerce (parse : string -> option float) (s : Series) :
  to_numeric parse Coerce s
  = Ok (mkSeries (sindex s) (map (coerce_value parse) (svalues s))).
Proof.
  unfold to_numeric.
  assert (mapM (to_numeric_value parse Coerce) (svalues s)
          = Ok (map (coerce_value parse) (svalues s))) as ->; [|done].
  apply mapM_Ok_Forall2, Forall2_fmap_r, Forall_Forall2_diag, Forall_forall.
  intros [x|t] _; simpl; [done|]. by destruct (parse t).
Qed.

Lemma lookup_snoc (h : heap) (d : DataFrame) : (h ++ [d]) !! length h = Some d.
Proof. by rewrite lookup_app_r, Nat.sub_diag. Qed.

Lemma insert_snoc (h : heap) (d d' : DataFrame) :
  <[length h := d']> (h ++ [d]) = h ++ [d'].
Proof. by rewrite insert_app_r_alt, Nat.sub_diag. Qed.

Lemma coerce_stmt_Ok (parse : string -> option float) (df : loc) (c : string)
    (d : DataFrame) (u : unit) (h h' : heap) :
  h !! df = Some d ->
  (col df c ≫= fun s => lift (to_numeric parse Coerce s) ≫= fun s' => setcol df c s') h
  = Ok (u, h') ->
  exists o, assoc c (columns d) = Some o /\
    h' = <[df := mkFrame (index d) (assign c (map (coerce_value parse) o) (columns d))]> h.
Proof.
  intros Hd H. step H as H1. step H as H2.
  apply col_Ok in H1 as (d1 & o & Hd1 & Ho & -> & ->).
  rewrite to_numeric_coerce in H2. apply lift_Ok in H2 as [[= <-] ->].
  apply setcol_Ok in H as (d1' & Hd1' & _ & ->). simpl in *.
  assert (d1' = d) as -> by congruence. assert (d1 = d) as -> by congruence.
  eauto.
Qed.

(** The loop of lines 16-17 replaces the three columns by their coerced
    cells and touches nothing else. *)
Lemma coerce_numeric_cols_Ok (parse : string -> option float) (df : loc)
    (d : DataFrame) (us : list unit) (h h' : heap) :
  h !! df = Some d ->
  coerce_numeric_cols parse df h = Ok (us, h') ->
  exists o1 o2 o3,
    assoc RENEWABLE (columns d) = Some o1 /\
    assoc GDP (columns d) = Some o2 /\
    assoc CO2 (columns d) = Some o3 /\
    h' = <[df := mkFrame (index d)
                   (assign CO2 (map (coerce_value parse) o3)
                     (assign GDP (map (coerce_value parse) o2)
                       (assign RENEWABLE (map (coerce_value parse) o1)
                         (columns d))))]> h.
Proof.
  intros Hd H. unfold coerce_numeric_cols, numeric_cols in H. simpl in H.
  assert (df < length h)%nat as Hlt by (by eapply lookup_lt_Some).
  step H as H1. apply (coerce_stmt_Ok _ _ _ _ _ _ _ Hd) in H1 as (o1 & Ho1 & E1).
  subst. step H as H2. step H2 as H3.
  pose proof (list_lookup_insert_eq h df
    (mkFrame (index d) (assign RENEWABLE (map (coerce_value parse) o1) (columns d)))
    Hlt) as Hd2.
  apply (coerce_stmt_Ok _ _ _ _ _ _ _ Hd2) in H3 as (o2 & Ho2 & E2).
  subst. simpl in *. rewrite assoc_assign_ne in Ho2 by col_ne.
  rewrite list_insert_insert_eq in H2.
  step H2 as H4. step H4 as H5.
  match type of H5 with _ (<[df := ?d3]> h) = _ =>
    pose proof (list_lookup_insert_eq h df d3 Hlt) as Hd3 end.
  apply (coerce_stmt_Ok _ _ _ _ _ _ _ Hd3) in H5 as (o3 & Ho3 & E3).
  subst. simpl in *. rewrite !assoc_assign_ne in Ho3 by col_ne.
  rewrite list_insert_insert_eq in H4.
  step H4 as H6. apply M_ret_Ok in H6 as [_ ->]. apply M_ret_Ok in H4 as [_ ->].
  apply M_ret_Ok in H2 as [_ ->]. apply M_ret_Ok in H as [_ ->].
  exists o1, o2, o3. repeat split; done.
Qed.

(** Lines 24-28, cell by cell. *)
Lemma sustainability_score_Ok (l : loc) (d : DataFrame) (s : Series) (h h' : heap) :
  h !! l = Some d ->
  sustainability_score l h = Ok (s, h') ->
  h' = h /\ sindex s = index d /\
  exists vr va ve,
    assoc RENEWABLE (columns d) = Some vr /\
    assoc ACCESS (columns d) = Some va /\
    assoc INTENSITY (columns d) = Some ve /\
    length (svalues s) = Nat.min (Nat.min (length vr) (length va)) (length ve) /\
    forall i v, svalues s !! i = Some v ->
      exists xr xa xe,
        vr !! i = Some (Flt xr) /\ va !! i = Some (Flt xa) /\
        ve !! i = Some (Flt xe) /\
        v = Num (or_else 0 xr + or_else 0 xa + (100 - or_else 0 xe / 10)).
Proof.
  intros Hd H. unfold sustainability_score in H.
  step H as Hr. apply col_Ok in Hr as (d1 & vr & Hd1 & Hvr & -> & ->).
  step H as Ha. apply col_Ok in Ha as (d2 & va & Hd2 & Hva & -> & ->).
  assert (d1 = d) as -> by congruence. assert (d2 = d) as -> by congruence.
  step H as Hra. apply lift_Ok in Hra as [Hra ->].
  unfold series_add in Hra. simpl in Hra. rewrite decide_True in Hra by done.
  step Hra as Hra'. injection Hra as <-.
  step H as He. apply col_Ok in He as (d3 & ve & Hd3 & Hve & -> & ->).
  assert (d3 = d) as -> by congruence.
  step H as He10. apply lift_Ok in He10 as [He10 ->].
  unfold series_div in He10. simpl in He10. step He10 as He10'. injection He10 as <-.
  step H as Ht. apply lift_Ok in Ht as [Ht ->].
  unfold series_rsub in Ht. simpl in Ht. step Ht as Ht'. injection Ht as <-.
  apply lift_Ok in H as [H ->].
  unfold series_add in H. simpl in H. rewrite decide_True in H by done.
  step H as Hs. injection H as <-. simpl.
  do 2 (split; [done|]). exists vr, va, ve. do 3 (split; [done|]). split.
  - apply zip_withM_Ok_length in Hs, Hra'. apply mapM_Ok_length in Ht', He10'.
    rewrite !length_map in *. lia.
  - intros i v Hv.
    destruct (zip_withM_Ok_lookup _ _ _ _ _ _ Hs Hv) as (u & w & Hx & Hy & Hxy).
    destruct (zip_withM_Ok_lookup _ _ _ _ _ _ Hra' Hx) as (u1 & u2 & Hx1 & Hx2 & Hx12).
    destruct (mapM_Ok_lookup _ _ _ _ _ Ht' Hy) as (w1 & Hy1 & Hy1').
    destruct (mapM_Ok_lookup _ _ _ _ _ He10' Hy1) as (w2 & Hy2 & Hy2').
    rewrite list_lookup_fmap in Hx1, Hx2, Hy2.
    destruct (vr !! i) as [wr|]; [|done]. destruct (va !! i) as [wa|]; [|done].
    destruct (ve !! i) as [we|]; [|done]. simpl in *.
    injection Hx1 as <-. injection Hx2 as <-. injection Hy2 as <-.
    destruct wr as [[qr|]|sr], wa as [[qa|]|sa], we as [[qe|]|se]; simpl in *;
      repeat match goal with
             | H : Err _ = Ok _ |- _ => discriminate H
             | H : Ok _ = Ok _ |- _ => injection H as <-; simpl in *
             end; eauto 10.
Qed.

(** What a successful [load_data] has done: [df] is the parsed table with
    the three columns coerced, [latest_df] a second object made of the rows
    the year mask keeps, with the score column added. *)
Lemma load_data_Ok (parse : string -> option float) (file : csv_file)
    (df latest : loc) (y : float) (h h' : heap) :
  load_data parse file h = Ok ((df, latest, y), h') ->
  exists o1 o2 o3 yv full sel score,
    df = length h /\ latest = S (length h) /\
    assoc RENEWABLE (fields file) = Some o1 /\
    assoc GDP (fields file) = Some o2 /\
    assoc CO2 (fields file) = Some o3 /\
    full = mkFrame (seq 0 (nrows file))
             (assign CO2 (map (coerce_value parse) o3)
               (assign GDP (map (coerce_value parse) o2)
                 (assign RENEWABLE (map (coerce_value parse) o1) (fields file)))) /\
    assoc YEAR (columns full) = Some yv /\
    series_max (mkSeries (index full) yv) = Ok y /\
    getitem_mask full (series_eq (mkSeries (index full) yv) y) = Ok sel /\
    sustainability_score (S (length h)) (h ++ [full; sel]) = Ok (score, h ++ [full; sel]) /\
    h' = h ++ [full; mkFrame (index sel)
                       (assign SUSTAINABILITY (svalues score) (columns sel))].
Proof.
  intros H. unfold load_data in H.
  step H as Hn. apply new_Ok in Hn as [-> ->].
  step H as Hc.
  apply (coerce_numeric_cols_Ok _ _ _ _ _ _ (lookup_snoc h _)) in Hc
    as (o1 & o2 & o3 & Ho1 & Ho2 & Ho3 & ->).
  rewrite insert_snoc in H. simpl in *.
  set (full := mkFrame _ _) in H.
  step H as Hy. apply col_Ok in Hy as (d1 & yv & Hd1 & Hyv & -> & ->).
  rewrite lookup_snoc in Hd1. injection Hd1 as <-.
  step H as Hm. apply lift_Ok in Hm as [Hm ->].
  step H as Hg. apply get_Ok in Hg as [Hg ->].
  rewrite lookup_snoc in Hg. injection Hg as <-.
  step H as Hy'. apply col_Ok in Hy' as (d2 & yv' & Hd2 & Hyv' & -> & ->).
  rewrite lookup_snoc in Hd2. injection Hd2 as <-.
  assert (yv' = yv) as -> by congruence.
  stepM H as sel hs Hsel. apply lift_Ok in Hsel as [Hsel ->].
  step H as Hn. apply new_Ok in Hn as [-> ->]. unfold copy in *.
  rewrite length_app in *. simpl in *. rewrite Nat.add_1_r in *.
  rewrite <- app_assoc in *. simpl in *.
  stepM H as score hs Hs.
  assert ((h ++ [full; sel]) !! S (length h) = Some sel) as Hl.
  { rewrite lookup_app_r by lia. by replace (S (length h) - length h)%nat with 1%nat by lia. }
  destruct (sustainability_score_Ok _ _ _ _ _ Hl Hs) as (-> & Hidx & _).
  step H as Hset. apply setcol_Ok in Hset as (d3 & Hd3 & _ & ->).
  rewrite Hl in Hd3. injection Hd3 as <-.
  apply M_ret_Ok in H as [[= E1 E2 E3] ->]. subst df latest y.
  exists o1, o2, o3, yv, full, sel, score.
  repeat split; try done; try assumption.
  rewrite insert_app_r_alt by lia.
  by replace (S (length h) - length h)%nat with 1%nat by lia.
Qed.

Lemma wf_coerced (parse : string -> option float) (file : csv_file)
    (o1 o2 o3 : list value) :
  wf_file file = true ->
  assoc RENEWABLE (fields file) = Some o1 ->
  assoc GDP (fields file) = Some o2 ->
  assoc CO2 (fields file) = Some o3 ->
  wf_frame (mkFrame (seq 0 (nrows file))
             (assign CO2 (map (coerce_value parse) o3)
               (assign GDP (map (coerce_value parse) o2)
                 (assign RENEWABLE (map (coerce_value parse) o1) (fields file))))).
Proof.
  intros Hwf%wf_read_csv H1 H2 H3.
  pose proof (wf_frame_assoc _ _ _ Hwf H1) as L1.
  pose proof (wf_frame_assoc _ _ _ Hwf H2) as L2.
  pose proof (wf_frame_assoc _ _ _ Hwf H3) as L3.
  simpl in *.
  repeat apply wf_frame_assign; simpl; rewrite ?length_map; done.
Qed.

Lemma load_data_wf (parse : string -> option float) (file : csv_file)
    (df latest : loc) (y : float) (h h' : heap) :
  wf_file file = true ->
  load_data parse file h = Ok ((df, latest, y), h') ->
  exists full d, h' = h ++ [full; d] /\ df = length h /\ latest = S (length h) /\
                 wf_frame full /\ wf_frame d.
Proof.
  intros Hwf H.
  apply load_data_Ok in H
    as (o1 & o2 & o3 & yv & full & sel & score & -> & -> & Ho1 & Ho2 & Ho3 &
        Hfull & Hyv & Hmax & Hsel & Hs & ->).
  assert (wf_frame full) as Wfull by (subst full; by apply wf_coerced).
  assert (wf_frame sel) as Wsel by (by eapply wf_getitem_mask).
  do 2 eexists. do 4 (split; [done|]).
  assert ((h ++ [full; sel]) !! S (length h) = Some sel) as Hl.
  { rewrite lookup_app_r by lia. by replace (S (length h) - length h)%nat with 1%nat by lia. }
  destruct (sustainability_score_Ok _ _ _ _ _ Hl Hs)
    as (_ & Hidx & vr & va & ve & Hvr & Hva & Hve & Hlen & _).
  destruct sel as [idx cols]. apply wf_frame_assign; [done|]. simpl in *.
  rewrite Hlen, (wf_frame_assoc _ _ _ Wsel Hvr), (wf_frame_assoc _ _ _ Wsel Hva),
    (wf_frame_assoc _ _ _ Wsel Hve). simpl. lia.
Qed.

(** ** C7: the sustainability score *)

(** C7.  After [load_data], every row of the latest-year snapshot carries
    Sustainability Score = renewable share (0 if missing) + electricity
    access (0 if missing) + (100 - energy intensity (0 if missing) / 10).
    Nothing clamps it: for any bound there is a file whose score lies below
    the bound (a large energy intensity, so also below zero) and one whose
    score lies above it. *)
Theorem sustainability_score_unclamped :
  (forall (parse : string -> option float) (file : csv_file)
          (df latest : loc) (y : float) (h h' : heap),
      wf_file file = true ->
      load_data parse file h = Ok ((df, latest, y), h') ->
      exists d, h' !! latest = Some d /\
        forall i, (i < length (index d))%nat ->
          exists xr xa xe,
            cell d RENEWABLE i = Some (Flt xr) /\
            cell d ACCESS i = Some (Flt xa) /\
            cell d INTENSITY i = Some (Flt xe) /\
            cell d SUSTAINABILITY i
            = Some (Num (or_else 0 xr + or_else 0 xa + (100 - or_else 0 xe / 10)))) /\
  (forall (parse : string -> option float) (B : Q),
      exists intensity h' d s,
        load_data parse (one_row_file 0 intensity) [] = Ok ((0%nat, 1%nat, Some 2020), h') /\
        h' !! 1%nat = Some d /\
        cell d SUSTAINABILITY 0 = Some (Num s) /\ s < B) /\
  (forall (parse : string -> option float) (B : Q),
      exists share h' d s,
        load_data parse (one_row_file share 0) [] = Ok ((0%nat, 1%nat, Some 2020), h') /\
        h' !! 1%nat = Some d /\
        cell d SUSTAINABILITY 0 = Some (Num s) /\ B < s).
Proof.
  split; [|split].
  - intros parse file df latest y h h' Hwf H.
    destruct (load_data_wf _ _ _ _ _ _ _ Hwf H) as (full0 & d0 & Eh & _ & _ & _ & Wd).
    apply load_data_Ok in H
      as (o1 & o2 & o3 & yv & full & sel & score & -> & -> & Ho1 & Ho2 & Ho3 &
          Hfull & Hyv & Hmax & Hsel & Hs & ->).
    apply app_inv_head in Eh. injection Eh as <- <-.
    assert (wf_frame sel) as Wsel.
    { eapply wf_getitem_mask; [|done]. subst full. by apply wf_coerced. }
    assert ((h ++ [full; sel]) !! S (length h) = Some sel) as Hl.
    { rewrite lookup_app_r by lia.
      by replace (S (length h) - length h)%nat with 1%nat by lia. }
    destruct (sustainability_score_Ok _ _ _ _ _ Hl Hs)
      as (_ & Hidx & vr & va & ve & Hvr & Hva & Hve & Hlen & Hcells).
    eexists. split.
    { rewrite lookup_app_r by lia.
      by replace (S (length h) - length h)%nat with 1%nat by lia. }
    simpl. intros i Hi.
    rewrite (wf_frame_assoc _ _ _ Wsel Hvr), (wf_frame_assoc _ _ _ Wsel Hva),
      (wf_frame_assoc _ _ _ Wsel Hve), !Nat.min_id in Hlen.
    destruct (lookup_lt_is_Some_2 (svalues score) i) as [v Hv]; [lia|].
    destruct (Hcells i v Hv) as (xr & xa & xe & Hr & Ha & He & ->).
    exists xr, xa, xe. rewrite cell_assign_eq, !cell_assign_ne by col_ne.
    unfold cell. simpl. rewrite Hvr, Hva, Hve. simpl. auto.
  - intros parse B. exists (10 * (101 - B)). do 3 eexists. split; [reflexivity|].
    split; [reflexivity|]. split; [reflexivity|].
    unfold or_else; simpl. field_simplify. lra.
  - intros parse B. exists (B + 1). do 3 eexists. split; [reflexivity|].
    split; [reflexivity|]. split; [reflexivity|].
    unfold or_else; simpl.
    assert (0 / 10 == 0) as -> by reflexivity. lra.
Qed.

Lemma sustainability_score_unclamped_witness :
  exists d, [read_csv (one_row_file 30 50);
             mkFrame [0%nat]
               (fields (one_row_file 30 50)
                ++ [(SUSTAINABILITY, [Num (30 + 0 + (100 - 50 / 10))])])] !! 1%nat
            = Some d /\
    forall i, (i < length (index d))%nat ->
      exists xr xa xe,
        cell d RENEWABLE i = Some (Flt xr) /\
        cell d ACCESS i = Some (Flt xa) /\
        cell d INTENSITY i = Some (Flt xe) /\
        cell d SUSTAINABILITY i
        = Some (Num (or_else 0 xr + or_else 0 xa + (100 - or_else 0 xe / 10))).
Proof.
  apply (proj1 sustainability_score_unclamped parse_decimal (one_row_file 30 50)
           0%nat 1%nat (Some 2020) []); reflexivity.
Defined.

(** ** C4: the latest-year snapshot *)

Lemma nanmax_None (xs : list float) (q : Q) : nanmax xs = None -> Some q ∉ xs.
Proof.
  induction xs as [|x xs IH]; simpl.
  - intros _ H. by apply elem_of_nil in H.
  - destruct x as [x|]; simpl.
    + by destruct (nanmax xs).
    + intros H [E|Hin]%elem_of_cons; [discriminate | by apply IH].
Qed.

Lemma nanmax_upper (xs : list float) (m q : Q) :
  nanmax xs = Some m -> Some q ∈ xs -> q <= m.
Proof.
  revert m. induction xs as [|x xs IH]; intros m; simpl.
  - intros _ H. by apply elem_of_nil in H.
  - intros Hm [<-|Hin]%elem_of_cons.
    + destruct (nanmax xs) as [x'|]; simpl in Hm; injection Hm as <-.
      * apply Q.le_max_l.
      * apply Qle_refl.
    + destruct x as [x|]; simpl in Hm.
      * destruct (nanmax xs) as [x'|] eqn:E; simpl in Hm; injection Hm as <-.
        -- eapply Qle_trans; [by apply IH | apply Q.le_max_r].
        -- by apply (nanmax_None _ q) in E.
      * auto.
Qed.

Lemma nanmax_attained (xs : list float) (m : Q) :
  nanmax xs = Some m -> exists q, Some q ∈ xs /\ q == m.
Proof.
  revert m. induction xs as [|x xs IH]; intros m; simpl; [done|].
  destruct x as [x|]; simpl.
  - destruct (nanmax xs) as [x'|] eqn:E; simpl; intros [= <-].
    + destruct (Q.max_dec x x') as [Hx|Hx].
      * exists x. split; [left | by symmetry].
      * destruct (IH x' eq_refl) as (q & Hq & Hq').
        exists q. split; [by right | by rewrite Hx].
    + exists x. split; [left | reflexivity].
  - intros (q & Hq & Hq')%IH. exists q. split; [by right | done].
Qed.

Lemma mpos_increasing (m : list bool) (i i' j j' : nat) :
  (i < i')%nat -> mpos m !! i = Some j -> mpos m !! i' = Some j' -> (j < j')%nat.
Proof.
  unfold mpos. revert i i' j j'.
  induction m as [|b m IH]; intros i i' j j' Hlt; simpl; [done|].
  rewrite mfilter_seq_shift. destruct b; simpl.
  - destruct i' as [|i']; [lia|]. simpl. rewrite list_lookup_fmap.
    destruct (mfilter m (seq 0 (length m)) !! i') as [k'|] eqn:E'; [|done].
    simpl. destruct i as [|i]; simpl.
    + intros [= <-] [= <-]. lia.
    + rewrite list_lookup_fmap.
      destruct (mfilter m (seq 0 (length m)) !! i) as [k|] eqn:E; [|done].
      simpl. intros [= <-] [= <-].
      assert (k < k')%nat by (eapply (IH i i'); [lia|done..]). lia.
  - rewrite !list_lookup_fmap.
    destruct (mfilter m (seq 0 (length m)) !! i') as [k'|] eqn:E'; [|done].
    destruct (mfilter m (seq 0 (length m)) !! i) as [k|] eqn:E; [|done].
    simpl. intros [= <-] [= <-].
    assert (k < k')%nat by (eapply (IH i i'); [lia|done..]). lia.
Qed.

Lemma length_mfilter_mpos {A : Type} (m : list bool) (xs : list A) :
  length xs = length m -> length (mfilter m xs) = length (mpos m).
Proof. intros H. unfold mpos. apply length_mfilter. by rewrite length_seq. Qed.

(** C4.  The snapshot [latest_df] that [load_data] returns is made of exactly
    the rows of [df] whose Year equals the largest Year of the table: [y] is
    that maximum, the positions [js] are those of the rows with that year,
    in file order, and row [i] of the snapshot is row [js !! i] of [df] (the
    same label and the same cells). *)
Theorem latest_snapshot_rows (parse : string -> option float) (file : csv_file)
    (df latest : loc) (y : float) (h h' : heap) :
  wf_file file = true ->
  load_data parse file h = Ok ((df, latest, y), h') ->
  exists full snap js,
    h' !! df = Some full /\ h' !! latest = Some snap /\
    (forall j q, cell full YEAR j = Some (Num q) -> exists m, y = Some m /\ q <= m) /\
    (forall m, y = Some m -> exists j q, cell full YEAR j = Some (Num q) /\ q == m) /\
    (forall j, j ∈ js <->
       exists q m, cell full YEAR j = Some (Num q) /\ y = Some m /\ q == m) /\
    (forall i i' j j', (i < i')%nat -> js !! i = Some j -> js !! i' = Some j' ->
       (j < j')%nat) /\
    length (index snap) = length js /\
    (forall i j, js !! i = Some j ->
       index snap !! i = index full !! j /\
       forall c, c <> SUSTAINABILITY -> cell snap c i = cell full c j).
Proof.
  intros Hwf H.
  apply load_data_Ok in H
    as (o1 & o2 & o3 & yv & full & sel & score & -> & -> & Ho1 & Ho2 & Ho3 &
        Hfull & Hyv & Hmax & Hsel & Hs & ->).
  assert (wf_frame full) as Wfull by (subst full; by apply wf_coerced).
  pose proof (wf_frame_assoc _ _ _ Wfull Hyv) as Lyv.
  unfold series_max in Hmax. simpl in Hmax. stepR Hmax as ys Hys.
  injection Hmax as Hy.
  pose proof (mapM_Ok_length _ _ _ Hys) as Lys.
  unfold getitem_mask, series_eq in Hsel. simpl in Hsel.
  rewrite decide_True in Hsel by done. injection Hsel as <-.
  set (mask := map _ yv) in *.
  assert (length mask = length (index full)) as Lmask
    by (unfold mask; by rewrite length_map).
  assert (forall j, mask !! j = Some true <->
            exists q m, cell full YEAR j = Some (Num q) /\ y = Some m /\ q == m) as Hmask.
  { intros j. unfold mask, cell. rewrite list_lookup_fmap, Hyv. simpl.
    destruct (yv !! j) as [[[q|]|s]|]; simpl; try (split; [done | by intros (?&?&?&?)]).
    destruct y as [m|]; simpl.
    - split.
      + intros [= E]. exists q, m. by rewrite Qeq_bool_iff in E.
      + intros (q' & m' & [= <-] & [= <-] & E). f_equal. by apply Qeq_bool_iff.
    - split; [done | by intros (?&?&?&?&?)]. }
  exists full, (mkFrame (mfilter mask (index full))
                  (assign SUSTAINABILITY (svalues score)
                     (map (fun cv => (cv.1, mfilter mask cv.2)) (columns full)))),
    (mpos mask).
  split; [by rewrite lookup_app_r, Nat.sub_diag by lia|].
  split.
  { rewrite lookup_app_r by lia.
    by replace (S (length h) - length h)%nat with 1%nat by lia. }
  split.
  { intros j q Hc. unfold cell in Hc. rewrite Hyv in Hc. simpl in Hc.
    assert (Some q ∈ ys) as Hin.
    { apply mapM_Ok_Forall2 in Hys.
      destruct (Forall2_lookup_l _ _ _ _ _ Hys Hc) as (x & Hx & [= <-]).
      by eapply list_elem_of_lookup_2. }
    destruct (nanmax ys) as [m|] eqn:E.
    - subst y. exists m. split; [done|]. by eapply nanmax_upper.
    - by apply (nanmax_None _ q) in E. }
  split.
  { intros m ->. destruct (nanmax_attained _ _ Hy) as (q & Hq & Hqm).
    apply list_elem_of_lookup_1 in Hq as [j Hj].
    destruct (mapM_Ok_lookup _ _ _ _ _ Hys Hj) as (v & Hv & Hv').
    destruct v as [x|s]; simpl in Hv'; [|done]. injection Hv' as ->.
    exists j, q. unfold cell. rewrite Hyv. by simpl. }
  split.
  { intros j. rewrite <- Hmask. split.
    - intros [i Hi]%list_elem_of_lookup_1. by eapply mpos_lookup.
    - intros [i Hi]%mpos_complete. by eapply list_elem_of_lookup_2. }
  split; [apply mpos_increasing|].
  split; [simpl; by apply length_mfilter_mpos|].
  intros i j Hj. simpl. split.
  - rewrite mfilter_lookup by done. by rewrite Hj.
  - intros c Hc. rewrite cell_assign_ne by done. unfold cell. simpl.
    rewrite assoc_map. destruct (assoc c (columns full)) as [vs|] eqn:E; simpl; [|done].
    rewrite mfilter_lookup by (rewrite Lmask; by eapply wf_frame_assoc).
    by rewrite Hj.
Qed.

Lemma latest_snapshot_rows_witness :
  exists h',
    load_data parse_decimal sample_file [] = Ok ((0%nat, 1%nat, Some 2020), h') /\
    exists full snap js,
      h' !! 0%nat = Some full /\ h' !! 1%nat = Some snap /\
      (forall j q, cell full YEAR j = Some (Num q) ->
         exists m, Some 2020 = Some m /\ q <= m) /\
      (forall m, Some 2020 = Some m ->
         exists j q, cell full YEAR j = Some (Num q) /\ q == m) /\
      (forall j, j ∈ js <->
         exists q m, cell full YEAR j = Some (Num q) /\ Some 2020 = Some m /\ q == m) /\
      (forall i i' j j', (i < i')%nat -> js !! i = Some j -> js !! i' = Some j' ->
         (j < j')%nat) /\
      length (index snap) = length js /\
      (forall i j, js !! i = Some j ->
         index snap !! i = index full !! j /\
         forall c, c <> SUSTAINABILITY -> cell snap c i = cell full c j).
Proof.
  eexists. split; [vm_compute; reflexivity|].
  apply (latest_snapshot_rows parse_decimal sample_file 0%nat 1%nat (Some 2020) []);
    reflexivity.
Defined.

(** ** The loader returns *)

Lemma run_bind {A B : Type} (m : M A) (f : A -> M B) (h h1 : heap) (a : A) :
  m h = Ok (a, h1) -> (m ≫= f) h = f a h1.
Proof. intros H. unfold mbind, M_bind. by rewrite H. Qed.

Lemma col_run (l : loc) (c : string) (d : DataFrame) (vs : list value) (h : heap) :
  h !! l = Some d -> assoc c (columns d) = Some vs ->
  col l c h = Ok (mkSeries (index d) vs, h).
Proof.
  intros Hd Hc. unfold col, get, getitem, mbind, M_bind, lift. by rewrite Hd, Hc.
Qed.

Lemma setcol_run (l : loc) (c : string) (d : DataFrame) (s : Series) (h : heap) :
  h !! l = Some d -> sindex s = index d ->
  setcol l c s h
  = Ok (tt, <[l := mkFrame (index d) (assign c (svalues s) (columns d))]> h).
Proof.
  intros Hd Hs. unfold setcol, get, setitem, put, mbind, M_bind, lift.
  by rewrite Hd, decide_True, Hd.
Qed.

Lemma coerce_stmt_run (parse : string -> option float) (df : loc) (c : string)
    (d : DataFrame) (o : list value) (h : heap) :
  h !! df = Some d -> assoc c (columns d) = Some o ->
  (col df c ≫= fun s => lift (to_numeric parse Coerce s) ≫= fun s' => setcol df c s') h
  = Ok (tt, <[df := mkFrame (index d)
                      (assign c (map (coerce_value parse) o) (columns d))]> h).
Proof.
  intros Hd Ho. rewrite (run_bind _ _ _ _ _ (col_run _ _ _ _ _ Hd Ho)).
  rewrite to_numeric_coerce. simpl. unfold mbind, M_bind, lift.
  by rewrite (setcol_run _ _ d).
Qed.

Lemma coerce_numeric_cols_run (parse : string -> option float) (df : loc)
    (d : DataFrame) (o1 o2 o3 : list value) (h : heap) :
  h !! df = Some d ->
  assoc RENEWABLE (columns d) = Some o1 ->
  assoc GDP (columns d) = Some o2 ->
  assoc CO2 (columns d) = Some o3 ->
  coerce_numeric_cols parse df h
  = Ok ([tt; tt; tt],
        <[df := mkFrame (index d)
                  (assign CO2 (map (coerce_value parse) o3)
                    (assign GDP (map (coerce_value parse) o2)
                      (assign RENEWABLE (map (coerce_value parse) o1)
                        (columns d))))]> h).
Proof.
  intros Hd H1 H2 H3. unfold coerce_numeric_cols, numeric_cols. simpl.
  assert (df < length h)%nat as Hlt by (by eapply lookup_lt_Some).
  rewrite (run_bind _ _ _ _ _ (coerce_stmt_run parse _ _ _ _ _ Hd H1)).
  erewrite run_bind; cycle 1.
  { erewrite run_bind; cycle 1.
    { apply coerce_stmt_run; [by apply list_lookup_insert_eq|].
      simpl. by rewrite assoc_assign_ne by col_ne. }
    erewrite run_bind; cycle 1.
    { erewrite run_bind; cycle 1.
      { apply coerce_stmt_run;
          [apply list_lookup_insert_eq; by rewrite length_insert|].
        simpl. by rewrite !assoc_assign_ne by col_ne. }
      reflexivity. }
    reflexivity. }
  simpl. unfold mret, M_ret. by rewrite !list_insert_insert_eq.
Qed.

Lemma numeric_fillna (c : Q) (vs : list value) :
  forallb is_flt vs = true -> forallb is_flt (map (fillna_value c) vs) = true.
Proof.
  rewrite !forallb_forall. intros H v (w & <- & Hw)%in_map_iff.
  specialize (H w Hw). by destruct w as [[?|]|].
Qed.

Lemma numeric_coerce (parse : string -> option float) (vs : list value) :
  forallb is_flt (map (coerce_value parse) vs) = true.
Proof.
  rewrite forallb_forall. intros v (w & <- & Hw)%in_map_iff.
  destruct w as [?|s]; simpl; [done|]. by destruct (parse s).
Qed.

Lemma numeric_mfilter (m : list bool) (vs : list value) :
  forallb is_flt vs = true -> forallb is_flt (mfilter m vs) = true.
Proof.
  revert vs. induction m as [|b m IH]; intros [|v vs]; simpl; try done.
  intros [Hv Hvs]%andb_true_iff. destruct b; simpl; auto.
  by rewrite Hv, IH.
Qed.

Lemma mapM_vscalar_numeric (op : float -> float) (vs : list value) :
  forallb is_flt vs = true ->
  exists ws, mapM (vscalar op) vs = Ok ws /\ forallb is_flt ws = true /\
             length ws = length vs.
Proof.
  induction vs as [|v vs IH]; simpl.
  - by exists [].
  - intros [Hv (ws & Hws & Hnum & Hlen)%IH]%andb_true_iff.
    destruct v as [x|]; [|done]. exists (Flt (op x) :: ws). simpl.
    change (mapM (vscalar op) vs ≫= (fun k => mret (Flt (op x) :: k))
            = Ok (Flt (op x) :: ws) /\ forallb is_flt ws = true /\
              S (length ws) = S (length vs)).
    rewrite Hws. auto.
Qed.

Lemma zip_withM_vadd_numeric (xs ys : list value) :
  forallb is_flt xs = true -> forallb is_flt ys = true ->
  exists zs, zip_withM vadd xs ys = Ok zs /\ forallb is_flt zs = true.
Proof.
  revert ys. induction xs as [|x xs IH]; intros [|y ys]; simpl;
    try (by exists []).
  intros [Hx Hxs]%andb_true_iff [Hy Hys]%andb_true_iff.
  destruct (IH ys Hxs Hys) as (zs & Hzs & Hnum).
  destruct x as [x|]; [|done]. destruct y as [y|]; [|done].
  exists (Flt (fadd x y) :: zs). simpl. rewrite Hzs. auto.
Qed.

Lemma mapM_as_float_numeric (e : exn) (vs : list value) :
  forallb is_flt vs = true -> exists xs, mapM (as_float e) vs = Ok xs.
Proof.
  induction vs as [|v vs IH]; simpl.
  - by exists [].
  - intros [Hv (xs & Hxs)%IH]%andb_true_iff. destruct v as [x|]; [|done].
    exists (x :: xs). simpl.
    change (mapM (as_float e) vs ≫= (fun k => mret (x :: k)) = Ok (x :: xs)).
    by rewrite Hxs.
Qed.

Lemma lift_run {A : Type} (r : result A) (a : A) (h : heap) :
  r = Ok a -> lift r h = Ok (a, h).
Proof. by intros ->. Qed.

Lemma series_add_numeric (a b : Series) :
  sindex a = sindex b ->
  forallb is_flt (svalues a) = true -> forallb is_flt (svalues b) = true ->
  exists vs, series_add a b = Ok (mkSeries (sindex a) vs) /\ forallb is_flt vs = true.
Proof.
  intros Hi Na Nb. destruct (zip_withM_vadd_numeric _ _ Na Nb) as (vs & Hvs & Nvs).
  exists vs. unfold series_add. rewrite decide_True by done. by rewrite Hvs.
Qed.

Lemma series_div_numeric (s : Series) (c : Q) :
  forallb is_flt (svalues s) = true ->
  exists vs, series_div s c = Ok (mkSeries (sindex s) vs) /\ forallb is_flt vs = true.
Proof.
  intros (vs & Hvs & Nvs & _)%(mapM_vscalar_numeric (fun x => fdiv x (Some c))).
  exists vs. unfold series_div. by rewrite Hvs.
Qed.

Lemma series_rsub_numeric (c : Q) (s : Series) :
  forallb is_flt (svalues s) = true ->
  exists vs, series_rsub c s = Ok (mkSeries (sindex s) vs) /\ forallb is_flt vs = true.
Proof.
  intros (vs & Hvs & Nvs & _)%(mapM_vscalar_numeric (fun x => fsub (Some c) x)).
  exists vs. unfold series_rsub. by rewrite Hvs.
Qed.

Lemma sustainability_score_run (l : loc) (d : DataFrame) (vr va ve : list value)
    (h : heap) :
  h !! l = Some d ->
  assoc RENEWABLE (columns d) = Some vr ->
  assoc ACCESS (columns d) = Some va ->
  assoc INTENSITY (columns d) = Some ve ->
  forallb is_flt vr = true -> forallb is_flt va = true -> forallb is_flt ve = true ->
  exists s, sustainability_score l h = Ok (s, h).
Proof.
  intros Hd Hr Ha He Nr Na Ne. unfold sustainability_score.
  rewrite (run_bind _ _ _ _ _ (col_run _ _ _ _ _ Hd Hr)).
  rewrite (run_bind _ _ _ _ _ (col_run _ _ _ _ _ Hd Ha)).
  destruct (series_add_numeric (fillna 0 (mkSeries (index d) vr))
              (fillna 0 (mkSeries (index d) va)) eq_refl
              (numeric_fillna 0 _ Nr) (numeric_fillna 0 _ Na)) as (ra & Hra & Nra).
  rewrite (run_bind _ _ _ _ _ (lift_run _ _ _ Hra)).
  rewrite (run_bind _ _ _ _ _ (col_run _ _ _ _ _ Hd He)).
  destruct (series_div_numeric (fillna 0 (mkSeries (index d) ve)) 10
              (numeric_fillna 0 _ Ne)) as (e10 & He10 & Ne10).
  rewrite (run_bind _ _ _ _ _ (lift_run _ _ _ He10)).
  destruct (series_rsub_numeric 100 (mkSeries (index d) e10) Ne10) as (t & Ht & Nt).
  simpl in Ht. rewrite (run_bind _ _ _ _ _ (lift_run _ _ _ Ht)).
  destruct (series_add_numeric (mkSeries (index d) ra) (mkSeries (index d) t)
              eq_refl Nra Nt) as (s & Hs & _).
  simpl in Hs. exists (mkSeries (index d) s). by apply lift_run.
Qed.

Lemma numeric_col_Some (c : string) (cols : list (string * list value)) :
  numeric_col c cols = true ->
  exists vs, assoc c cols = Some vs /\ forallb is_flt vs = true.
Proof. unfold numeric_col. destruct (assoc c cols); [eauto | done]. Qed.

Lemma has_col_Some (c : string) (cols : list (string * list value)) :
  has_col c cols = true -> exists vs, assoc c cols = Some vs.
Proof. unfold has_col. intros [vs H]%bool_decide_eq_true. eauto. Qed.

(** On a loadable file [load_data] raises nothing. *)
Lemma load_data_total (parse : string -> option float) (file : csv_file) (h : heap) :
  loadable file = true ->
  exists y h', load_data parse file h = Ok ((length h, S (length h), y), h').
Proof.
  unfold loadable. simpl.
  intros [[Hwf Hcols]%andb_true_iff Hnum]%andb_true_iff.
  rewrite !andb_true_iff in Hcols, Hnum.
  destruct Hcols as ((o1 & Ho1)%has_col_Some & (o2 & Ho2)%has_col_Some &
                     (o3 & Ho3)%has_col_Some & _).
  destruct Hnum as ((yv & Hyv & Nyv)%numeric_col_Some &
                    (va & Hva & Nva)%numeric_col_Some &
                    (ve & Hve & Nve)%numeric_col_Some & _).
  unfold load_data.
  rewrite (run_bind (new (read_csv file)) _ h (h ++ [read_csv file]) (length h) eq_refl).
  rewrite (run_bind _ _ _ _ _
             (coerce_numeric_cols_run parse _ (read_csv file) _ _ _ _
                (lookup_snoc h _) Ho1 Ho2 Ho3)).
  rewrite insert_snoc. simpl index. simpl columns.
  set (full := mkFrame _ _).
  assert (assoc YEAR (columns full) = Some yv) as Hyv'
    by (simpl; by rewrite !assoc_assign_ne by col_ne).
  rewrite (run_bind _ _ _ _ _ (col_run _ _ _ _ _ (lookup_snoc h _) Hyv')).
  destruct (mapM_as_float_numeric TypeError _ Nyv) as (ys & Hys).
  assert (series_max (mkSeries (index full) yv) = Ok (nanmax ys)) as Hmax
    by (unfold series_max; simpl; by rewrite Hys).
  rewrite (run_bind _ _ _ _ _ (lift_run _ _ _ Hmax)).
  assert (get (length h) (h ++ [full]) = Ok (full, h ++ [full])) as Hget
    by (unfold get; by rewrite lookup_snoc).
  rewrite (run_bind _ _ _ _ _ Hget).
  rewrite (run_bind _ _ _ _ _ (col_run _ _ _ _ _ (lookup_snoc h _) Hyv')).
  unfold getitem_mask. simpl bindex. rewrite decide_True by done.
  rewrite (run_bind _ _ _ _ _ (lift_run _ _ _ eq_refl)).
  set (sel := mkFrame _ _).
  rewrite (run_bind (new (copy sel)) _ (h ++ [full]) ((h ++ [full]) ++ [copy sel])
             (length (h ++ [full])) eq_refl).
  rewrite length_app, Nat.add_1_r, <- app_assoc. simpl app. unfold copy.
  assert ((h ++ [full; sel]) !! S (length h) = Some sel) as Hl.
  { rewrite lookup_app_r by lia.
    by replace (S (length h) - length h)%nat with 1%nat by lia. }
  destruct (sustainability_score_run (S (length h)) sel
              (mfilter (bvalues (series_eq (mkSeries (index full) yv) (nanmax ys)))
                 (map (coerce_value parse) o1))
              (mfilter (bvalues (series_eq (mkSeries (index full) yv) (nanmax ys))) va)
              (mfilter (bvalues (series_eq (mkSeries (index full) yv) (nanmax ys))) ve)
              _ Hl) as (s & Hs).
  { simpl. rewrite assoc_map. simpl.
    by rewrite !assoc_assign_ne, assoc_assign_eq by col_ne. }
  { simpl. rewrite assoc_map. simpl.
    by rewrite !assoc_assign_ne, Hva by col_ne. }
  { simpl. rewrite assoc_map. simpl.
    by rewrite !assoc_assign_ne, Hve by col_ne. }
  { apply numeric_mfilter, numeric_coerce. }
  { by apply numeric_mfilter. }
  { by apply numeric_mfilter. }
  rewrite (run_bind _ _ _ _ _ Hs).
  destruct (sustainability_score_Ok _ _ _ _ _ Hl Hs) as (_ & Hidx & _).
  rewrite (run_bind _ _ _ _ _ (setcol_run _ _ _ _ _ Hl Hidx)).
  eauto.
Qed.

(** ** C6: text that is no number *)

(** C6.  On a loadable file [load_data] returns (it raises nothing), and
    wherever one of the three coerced columns (renewable share, gdp per
    capita, CO2 emissions) holds a text that [pd.to_numeric] does not
    recognise as a number, the loaded table [df] holds a missing value. *)
Theorem unparsable_text_becomes_missing (parse : string -> option float)
    (file : csv_file) (h : heap) :
  loadable file = true ->
  exists y h' full,
    load_data parse file h = Ok ((length h, S (length h), y), h') /\
    h' !! length h = Some full /\
    forall c i s,
      c ∈ numeric_cols ->
      cell (read_csv file) c i = Some (Str s) ->
      parse s = None ->
      cell full c i = Some NaN.
Proof.
  intros Hload. destruct (load_data_total parse file h Hload) as (y & h' & H).
  exists y, h'. pose proof H as H'.
  apply load_data_Ok in H'
    as (o1 & o2 & o3 & yv & full & sel & score & _ & _ & Ho1 & Ho2 & Ho3 &
        Hfull & Hyv & Hmax & Hsel & Hs & ->).
  exists full. split; [done|]. split; [by rewrite lookup_app_r, Nat.sub_diag by lia|].
  intros c i s Hc Hcell Hparse. unfold cell in *. simpl in Hcell. subst full. simpl.
  unfold numeric_cols in Hc.
  assert (forall o, o !! i = Some (Str s) ->
                    map (coerce_value parse) o !! i = Some NaN) as Hco.
  { intros o Ho. rewrite list_lookup_fmap, Ho. simpl. by rewrite Hparse. }
  apply elem_of_cons in Hc as [->|Hc]; [|apply elem_of_cons in Hc as [->|Hc];
    [|apply elem_of_cons in Hc as [->|Hc]; [|by apply elem_of_nil in Hc]]].
  - rewrite Ho1 in Hcell. rewrite !assoc_assign_ne, assoc_assign_eq by col_ne.
    simpl in *. auto.
  - rewrite Ho2 in Hcell. rewrite !assoc_assign_ne, assoc_assign_eq by col_ne.
    simpl in *. auto.
  - rewrite Ho3 in Hcell. rewrite assoc_assign_eq. simpl in *. auto.
Qed.

(** With [errors='raise'] the same cell makes [pd.to_numeric] raise. *)
Example to_numeric_raise :
  to_numeric parse_decimal Raise (mkSeries [0%nat; 1%nat] [Str "12.5"; Str "unknown"])
  = Err ValueError /\
  to_numeric parse_decimal Coerce (mkSeries [0%nat; 1%nat] [Str "12.5"; Str "unknown"])
  = Ok (mkSeries [0%nat; 1%nat] [Num 12.5; NaN]).
Proof. split; reflexivity. Qed.

Lemma unparsable_text_becomes_missing_witness :
  cell (read_csv sample_file) RENEWABLE 1 = Some (Str "unknown") /\
  parse_decimal "unknown" = None /\
  exists y h' full,
    load_data parse_decimal sample_file [] = Ok ((0%nat, 1%nat, y), h') /\
    h' !! 0%nat = Some full /\
    forall c i s,
      c ∈ numeric_cols ->
      cell (read_csv sample_file) c i = Some (Str s) ->
      parse_decimal s = None ->
      cell full c i = Some NaN.
Proof.
  split; [reflexivity|]. split; [reflexivity|].
  apply (unparsable_text_becomes_missing parse_decimal sample_file []).
  reflexivity.
Defined.

(** ** The scaler *)

Lemma Qltb_lt (x y : Q) : Qltb x y = true <-> x < y.
Proof.
  unfold Qltb. rewrite negb_true_iff. split.
  - intros H. apply Qnot_le_lt. intros Hle%Qle_bool_iff. congruence.
  - intros H. destruct (Qle_bool y x) eqn:E; [|done].
    apply Qle_bool_iff in E. exfalso. by apply (Qlt_not_le _ _ H).
Qed.

Lemma Qltb_ge (x y : Q) : Qltb x y = false <-> y <= x.
Proof.
  unfold Qltb. rewrite negb_false_iff. apply Qle_bool_iff.
Qed.

Lemma nanmin_Some (q : Q) (qs : list Q) :
  exists lo, nanmin (map Some (q :: qs)) = Some lo /\ is_min lo (q :: qs).
Proof.
  revert q. induction qs as [|q' qs IH]; intros q.
  - exists q. split; [done|]. split.
    + exists q. split; [left | reflexivity].
    + intros x ->%list_elem_of_singleton. apply Qle_refl.
  - destruct (IH q') as (lo & Hlo & (w & Hw & Hwlo) & Hle).
    exists (Qmin q lo). split.
    { change (fmin2 (Some q) (nanmin (map Some (q' :: qs))) = Some (Qmin q lo)).
      by rewrite Hlo. }
    split.
    + destruct (Q.min_dec q lo) as [E|E].
      * exists q. split; [left | by symmetry].
      * exists w. split; [by right | by rewrite E].
    + intros x [->|Hx]%elem_of_cons.
      * apply Q.le_min_l.
      * eapply Qle_trans; [apply Q.le_min_r | by apply Hle].
Qed.

Lemma nanmax_Some (q : Q) (qs : list Q) :
  exists hi, nanmax (map Some (q :: qs)) = Some hi /\ is_max hi (q :: qs).
Proof.
  revert q. induction qs as [|q' qs IH]; intros q.
  - exists q. split; [done|]. split.
    + exists q. split; [left | reflexivity].
    + intros x ->%list_elem_of_singleton. apply Qle_refl.
  - destruct (IH q') as (hi & Hhi & (w & Hw & Hwhi) & Hle).
    exists (Qmax q hi). split.
    { change (fmax2 (Some q) (nanmax (map Some (q' :: qs))) = Some (Qmax q hi)).
      by rewrite Hhi. }
    split.
    + destruct (Q.max_dec q hi) as [E|E].
      * exists q. split; [left | by symmetry].
      * exists w. split; [by right | by rewrite E].
    + intros x [->|Hx]%elem_of_cons.
      * apply Q.le_max_l.
      * eapply Qle_trans; [by apply Hle | apply Q.le_max_r].
Qed.

Lemma eps_pos : 0 < 10 * eps.
Proof. reflexivity. Qed.

Lemma eps_small : 10 * eps < 1.
Proof. reflexivity. Qed.

(** The scaler's [X * scale_ + min_] is the normalisation of the
    specification, entry by entry. *)
Lemma fit_transform_column_spec (qs : list Q) (lo hi : Q) :
  nanmin (map Some qs) = Some lo ->
  nanmax (map Some qs) = Some hi ->
  lo <= hi ->
  exists zs, fit_transform_column (map Some qs) = map Some zs /\
             Forall2 (fun q z => z == normalized lo hi q) qs zs.
Proof.
  intros Hlo Hhi Hle. unfold fit_transform_column. rewrite Hlo, Hhi. simpl.
  unfold normalized.
  destruct (Qltb (hi - lo) (10 * eps)) eqn:E; simpl.
  - eexists (map (fun q => q * ((1 - 0) / 1) + (0 - lo * ((1 - 0) / 1))) qs).
    split.
    + rewrite <- !list_fmap_compose. by apply list_fmap_ext.
    + apply Forall2_fmap_r, Forall_Forall2_diag, Forall_forall. intros q _.
      simpl. field.
  - apply Qltb_ge in E.
    assert (~ hi - lo == 0) as Hnz by (pose proof eps_pos; lra).
    destruct (Qeq_bool (hi - lo) 0) eqn:E0; [by apply Qeq_bool_iff in E0|].
    eexists (map (fun q => q * ((1 - 0) / (hi - lo))
                           + (0 - lo * ((1 - 0) / (hi - lo)))) qs).
    split.
    + rewrite <- !list_fmap_compose. by apply list_fmap_ext.
    + apply Forall2_fmap_r, Forall_Forall2_diag, Forall_forall. intros q _.
      simpl. field. done.
Qed.

Lemma normalized_bounds (lo hi q : Q) : lo <= q -> q <= hi ->
  0 <= normalized lo hi q /\ normalized lo hi q <= 1.
Proof.
  intros H1 H2. unfold normalized.
  destruct (Qltb (hi - lo) (10 * eps)) eqn:E.
  - apply Qltb_lt in E. pose proof eps_small.
    assert ((q - lo) / 1 == q - lo) as -> by field. split; lra.
  - apply Qltb_ge in E. pose proof eps_pos as Hp.
    assert (0 < hi - lo) as Hr by lra. split.
    + apply Qle_shift_div_l; [done | lra].
    + apply Qle_shift_div_r; [done | lra].
Qed.

Lemma normalized_constant (lo hi q : Q) : lo <= q -> q <= hi -> lo == hi ->
  normalized lo hi q == 0.
Proof.
  intros H1 H2 E. unfold normalized.
  destruct (Qltb (hi - lo) (10 * eps)) eqn:El.
  - assert ((q - lo) / 1 == q - lo) as -> by field. lra.
  - apply Qltb_ge in El. pose proof eps_pos. lra.
Qed.

Lemma normalized_min (lo hi : Q) : normalized lo hi lo == 0.
Proof.
  unfold normalized. destruct (Qltb (hi - lo) (10 * eps)) eqn:E.
  - field.
  - apply Qltb_ge in E. pose proof eps_pos. field. lra.
Qed.

Lemma normalized_max (lo hi : Q) : 10 * eps <= hi - lo -> normalized lo hi hi == 1.
Proof.
  intros H. unfold normalized. pose proof eps_pos.
  destruct (Qltb (hi - lo) (10 * eps)) eqn:E.
  - apply Qltb_lt in E. lra.
  - field. lra.
Qed.

Add Parametric Morphism : normalized
  with signature Qeq ==> Qeq ==> Qeq ==> Qeq as normalized_mor.
Proof.
  intros lo lo' El hi hi' Eh q q' Eq. unfold normalized.
  destruct (Qltb (hi - lo) (10 * eps)) eqn:E1, (Qltb (hi' - lo') (10 * eps)) eqn:E2.
  - by rewrite Eq, El.
  - apply Qltb_lt in E1. apply Qltb_ge in E2. lra.
  - apply Qltb_lt in E2. apply Qltb_ge in E1. lra.
  - by rewrite Eq, El, Eh.
Qed.

(** ** The scorer *)

Lemma wf_frame_scorable (d : DataFrame) : scorable d = true -> wf_frame d.
Proof.
  unfold scorable, wf_frame. intros [[_ H]%andb_true_iff _]%andb_true_iff.
  apply Forall_forall. intros cv Hcv. rewrite forallb_forall in H.
  apply Nat.eqb_eq, H. by apply list_elem_of_In.
Qed.

Lemma mapM_as_float_filled (e : exn) (vs : list value) :
  forallb is_flt vs = true ->
  mapM (as_float e) (map (fillna_value 0) vs) = Ok (map Some (filled_col vs)).
Proof.
  intros H. apply mapM_Ok_Forall2. unfold filled_col.
  apply Forall2_fmap_l, Forall2_fmap_r, Forall2_fmap_r, Forall_Forall2_diag.
  apply Forall_forall. intros v Hv%list_elem_of_In.
  rewrite forallb_forall in H. specialize (H v Hv). by destruct v as [[?|]|].
Qed.

Lemma length_filled_col (vs : list value) : length (filled_col vs) = length vs.
Proof. unfold filled_col. by rewrite length_map. Qed.

(** One column through the scaler. *)
Lemma fit_transform_column_filled (vs : list value) :
  (0 < length vs)%nat ->
  exists zs, fit_transform_column (map Some (filled_col vs)) = map Some zs /\
             scaled_col vs zs.
Proof.
  intros Hlen. destruct (filled_col vs) as [|q qs] eqn:E.
  { apply (f_equal length) in E. rewrite length_filled_col in E. simpl in E. lia. }
  destruct (nanmin_Some q qs) as (lo & Hlo & Hmin).
  destruct (nanmax_Some q qs) as (hi & Hhi & Hmax).
  assert (lo <= hi) as Hle.
  { eapply Qle_trans; [apply Hmin | apply Hmax]; left. }
  destruct (fit_transform_column_spec _ _ _ Hlo Hhi Hle) as (zs & Hzs & Hall).
  exists zs. split; [done|]. exists lo, hi. rewrite E. auto.
Qed.

Lemma mapM_vscalar_Num (op : Q -> Q) (fop : float -> float) (zs : list Q) :
  (forall z, fop (Some z) = Some (op z)) ->
  mapM (vscalar fop) (map (fun z => Num z) zs) = Ok (map (fun z => Num (op z)) zs).
Proof.
  intros Hop. apply mapM_Ok_Forall2, Forall2_fmap_l, Forall2_fmap_r.
  apply Forall_Forall2_diag, Forall_forall. intros z _. simpl. by rewrite Hop.
Qed.

Lemma zip_withM_vadd_Num (xs ys : list Q) :
  zip_withM vadd (map (fun z => Num z) xs) (map (fun z => Num z) ys)
  = Ok (map (fun z => Num z) (zip_with Qplus xs ys)).
Proof.
  revert ys. induction xs as [|x xs IH]; intros [|y ys]; simpl; try done.
  by rewrite IH.
Qed.

Lemma series_mul_Num (idx : list nat) (zs : list Q) (c : Q) :
  series_mul (mkSeries idx (map (fun z => Num z) zs)) c
  = Ok (mkSeries idx (map (fun z => Num z) (map (fun z => z * c) zs))).
Proof.
  unfold series_mul. simpl.
  rewrite (mapM_vscalar_Num (fun z => z * c)) by done.
  simpl. by rewrite <- list_fmap_compose.
Qed.

Lemma series_add_Num (idx : list nat) (xs ys : list Q) :
  series_add (mkSeries idx (map (fun z => Num z) xs))
             (mkSeries idx (map (fun z => Num z) ys))
  = Ok (mkSeries idx (map (fun z => Num z) (zip_with Qplus xs ys))).
Proof.
  unfold series_add. simpl. rewrite decide_True by done.
  by rewrite zip_withM_vadd_Num.
Qed.

Lemma weighted_sum_Num (idx : list nat) (za zr zg zc : list Q) :
  weighted_sum
    (mkFrame idx
       [(ACCESS, map (fun z => Num z) za); (RENEWABLE, map (fun z => Num z) zr);
        (GDP, map (fun z => Num z) zg); (CAPACITY, map (fun z => Num z) zc)])
  = Ok (mkSeries idx (map (fun z => Num z) (weighted za zr zg zc))).
Proof.
  unfold weighted_sum, getitem. simpl.
  rewrite !series_mul_Num. simpl.
  rewrite series_add_Num. simpl. rewrite series_add_Num. simpl.
  by rewrite series_add_Num.
Qed.

(** The scorer on a scorable snapshot, statement by statement: the four
    columns are scaled one by one and [latest_df] gets the weighted sum as
    its Investment Score; nothing is raised. *)
Lemma scorer_run (l : loc) (d : DataFrame) (h : heap) :
  h !! l = Some d -> scorable d = true ->
  exists va vr vg vc za zr zg zc,
    assoc ACCESS (columns d) = Some va /\
    assoc RENEWABLE (columns d) = Some vr /\
    assoc GDP (columns d) = Some vg /\
    assoc CAPACITY (columns d) = Some vc /\
    scaled_col va za /\ scaled_col vr zr /\ scaled_col vg zg /\ scaled_col vc zc /\
    investment_factors l h
    = Ok (mkFrame (index d)
            [(ACCESS, map (fillna_value 0) va); (RENEWABLE, map (fillna_value 0) vr);
             (GDP, map (fillna_value 0) vg); (CAPACITY, map (fillna_value 0) vc)], h) /\
    investment_factors_scaled
      (mkFrame (index d)
         [(ACCESS, map (fillna_value 0) va); (RENEWABLE, map (fillna_value 0) vr);
          (GDP, map (fillna_value 0) vg); (CAPACITY, map (fillna_value 0) vc)])
    = Ok (mkFrame (index d)
            [(ACCESS, map (fun z => Num z) za); (RENEWABLE, map (fun z => Num z) zr);
             (GDP, map (fun z => Num z) zg); (CAPACITY, map (fun z => Num z) zc)]) /\
    investment_score l h
    = Ok (tt, <[l := mkFrame (index d)
                       (assign INVESTMENT
                          (map (fun z => Num z) (weighted za zr zg zc))
                          (columns d))]> h).
Proof.
  intros Hd Hsc. pose proof (wf_frame_scorable _ Hsc) as Hwf.
  unfold scorable, scored_cols in Hsc. simpl in Hsc.
  rewrite !andb_true_iff in Hsc.
  destruct Hsc as [[Hne%negb_true_iff%Nat.eqb_neq _]
                   ((va & Hva & Na)%numeric_col_Some &
                    (vr & Hvr & Nr)%numeric_col_Some &
                    (vg & Hvg & Ng)%numeric_col_Some &
                    (vc & Hvc & Nc)%numeric_col_Some & _)].
  assert (forall c vs, assoc c (columns d) = Some vs -> (0 < length vs)%nat) as Hpos.
  { intros c vs H. rewrite (wf_frame_assoc _ _ _ Hwf H). lia. }
  destruct (fit_transform_column_filled va (Hpos _ _ Hva)) as (za & Hza & Sa).
  destruct (fit_transform_column_filled vr (Hpos _ _ Hvr)) as (zr & Hzr & Sr).
  destruct (fit_transform_column_filled vg (Hpos _ _ Hvg)) as (zg & Hzg & Sg).
  destruct (fit_transform_column_filled vc (Hpos _ _ Hvc)) as (zc & Hzc & Sc).
  exists va, vr, vg, vc, za, zr, zg, zc. do 8 (split; [done|]).
  assert (investment_factors l h
    = Ok (mkFrame (index d)
            [(ACCESS, map (fillna_value 0) va); (RENEWABLE, map (fillna_value 0) vr);
             (GDP, map (fillna_value 0) vg); (CAPACITY, map (fillna_value 0) vc)], h))
    as Hfac.
  { unfold investment_factors, get, mbind at 1, M_bind at 1. rewrite Hd.
    unfold getitem_cols. simpl. by rewrite Hva, Hvr, Hvg, Hvc. }
  assert (investment_factors_scaled
      (mkFrame (index d)
         [(ACCESS, map (fillna_value 0) va); (RENEWABLE, map (fillna_value 0) vr);
          (GDP, map (fillna_value 0) vg); (CAPACITY, map (fillna_value 0) vc)])
    = Ok (mkFrame (index d)
            [(ACCESS, map (fun z => Num z) za); (RENEWABLE, map (fun z => Num z) zr);
             (GDP, map (fun z => Num z) zg); (CAPACITY, map (fun z => Num z) zc)]))
    as Hscaled.
  { unfold investment_factors_scaled, fit_transform. simpl.
    destruct (index d) as [|l0 idx] eqn:Ei; [done|].
    rewrite !mapM_as_float_filled by done. simpl.
    rewrite Hza, Hzr, Hzg, Hzc. unfold DataFrame_of_array. simpl.
    by rewrite <- !list_fmap_compose. }
  do 2 (split; [done|]).
  unfold investment_score. rewrite (run_bind _ _ _ _ _ Hfac).
  rewrite (run_bind _ _ _ _ _ (lift_run _ _ _ Hscaled)).
  rewrite (run_bind _ _ _ _ _ (lift_run _ _ _ (weighted_sum_Num _ _ _ _ _))).
  by rewrite (setcol_run _ _ d).
Qed.

Lemma scaled_col_length (vs : list value) (zs : list Q) :
  scaled_col vs zs -> length zs = length vs.
Proof.
  intros (lo & hi & _ & _ & H). apply Forall2_length in H.
  by rewrite length_filled_col in H.
Qed.

Lemma scaled_col_lookup (vs : list value) (zs : list Q) (i : nat) (z : Q) :
  scaled_col vs zs -> zs !! i = Some z ->
  exists lo hi q,
    is_min lo (filled_col vs) /\ is_max hi (filled_col vs) /\
    filled_col vs !! i = Some q /\ z == normalized lo hi q.
Proof.
  intros (lo & hi & Hmin & Hmax & H) Hz.
  destruct (Forall2_lookup_r _ _ _ _ _ H Hz) as (q & Hq & Hzq).
  exists lo, hi, q. auto.
Qed.

Lemma scaled_col_bounds (vs : list value) (zs : list Q) (i : nat) (z : Q) :
  scaled_col vs zs -> zs !! i = Some z -> 0 <= z /\ z <= 1.
Proof.
  intros Hs Hz.
  destruct (scaled_col_lookup _ _ _ _ Hs Hz) as (lo & hi & q & Hmin & Hmax & Hq & ->).
  apply list_elem_of_lookup_2 in Hq.
  apply normalized_bounds; [by apply Hmin | by apply Hmax].
Qed.

Lemma weighted_lookup (za zr zg zc : list Q) (i : nat) (a r g c : Q) :
  za !! i = Some a -> zr !! i = Some r -> zg !! i = Some g -> zc !! i = Some c ->
  weighted za zr zg zc !! i = Some (a * 0.3 + r * 0.4 + g * 0.2 + c * 0.1).
Proof.
  intros Ha Hr Hg Hc. unfold weighted.
  rewrite !lookup_zip_with, !list_lookup_fmap, Ha, Hr, Hg, Hc. done.
Qed.

(** Every row of a scorable snapshot has its four normalised values. *)
Lemma scaled_rows (d : DataFrame) (va vr vg vc : list value) (za zr zg zc : list Q)
    (i : nat) :
  wf_frame d ->
  assoc ACCESS (columns d) = Some va -> assoc RENEWABLE (columns d) = Some vr ->
  assoc GDP (columns d) = Some vg -> assoc CAPACITY (columns d) = Some vc ->
  scaled_col va za -> scaled_col vr zr -> scaled_col vg zg -> scaled_col vc zc ->
  (i < length (index d))%nat ->
  exists a r g c, za !! i = Some a /\ zr !! i = Some r /\ zg !! i = Some g /\
                  zc !! i = Some c.
Proof.
  intros Hwf Ha Hr Hg Hc Sa Sr Sg Sc Hi.
  apply scaled_col_length in Sa, Sr, Sg, Sc.
  rewrite (wf_frame_assoc _ _ _ Hwf Ha) in Sa.
  rewrite (wf_frame_assoc _ _ _ Hwf Hr) in Sr.
  rewrite (wf_frame_assoc _ _ _ Hwf Hg) in Sg.
  rewrite (wf_frame_assoc _ _ _ Hwf Hc) in Sc.
  destruct (lookup_lt_is_Some_2 za i) as [a Ea]; [lia|].
  destruct (lookup_lt_is_Some_2 zr i) as [r Er]; [lia|].
  destruct (lookup_lt_is_Some_2 zg i) as [g Eg]; [lia|].
  destruct (lookup_lt_is_Some_2 zc i) as [c Ec]; [lia|].
  eauto 10.
Qed.

(** ** C10: the range of the investment score *)

(** The script computes on binary64 numbers and clips nothing: with
    electricity access 6 and 1, [6 * (1 / 5) + (0 - 1 * (1 / 5))] rounds to
    1.0000000000000002, and so does the Investment Score of the row. *)
Lemma binary64_score_exceeds_one :
  scorable overshoot_rows = true /\
  exists z s,
    Binary64.fit_transform_column64 (Binary64.column64 overshoot_rows ACCESS) !! 0%nat
    = Some z /\ PrimFloat.ltb 1 z = true /\
    Binary64.investment_score_of overshoot_rows !! 0%nat = Some s /\
    PrimFloat.ltb 1 s = true.
Proof.
  split; [reflexivity|]. do 2 eexists.
  split; [vm_compute; reflexivity|]. split; [reflexivity|].
  split; [vm_compute; reflexivity|]. reflexivity.
Qed.

(** C10, amended.  On every scorable snapshot the scorer returns, and every
    row gets an Investment Score that is a number (never missing); in exact
    arithmetic that number lies in the closed interval [0, 1], as does each
    of the four normalised inputs.  (The binary64 value the script computes
    can leave the interval by a rounding error, see above.) *)
Theorem investment_score_range (l : loc) (d : DataFrame) (h : heap) :
  h !! l = Some d -> scorable d = true ->
  exists factors scaled d',
    investment_factors l h = Ok (factors, h) /\
    investment_factors_scaled factors = Ok scaled /\
    investment_score l h = Ok (tt, <[l := d']> h) /\
    index d' = index d /\
    forall i, (i < length (index d))%nat ->
      (forall c, c ∈ scored_cols ->
         exists z, cell scaled c i = Some (Num z) /\ 0 <= z /\ z <= 1) /\
      exists s, cell d' INVESTMENT i = Some (Num s) /\ 0 <= s /\ s <= 1.
Proof.
  intros Hd Hsc. pose proof (wf_frame_scorable _ Hsc) as Hwf.
  destruct (scorer_run l d h Hd Hsc)
    as (va & vr & vg & vc & za & zr & zg & zc & Ha & Hr & Hg & Hc &
        Sa & Sr & Sg & Sc & Hfac & Hscaled & Hrun).
  do 3 eexists. do 3 (split; [done|]). split; [done|].
  intros i Hi.
  destruct (scaled_rows _ _ _ _ _ _ _ _ _ i Hwf Ha Hr Hg Hc Sa Sr Sg Sc Hi)
    as (a & r & g & c & Ea & Er & Eg & Ec).
  pose proof (scaled_col_bounds _ _ _ _ Sa Ea) as [].
  pose proof (scaled_col_bounds _ _ _ _ Sr Er) as [].
  pose proof (scaled_col_bounds _ _ _ _ Sg Eg) as [].
  pose proof (scaled_col_bounds _ _ _ _ Sc Ec) as [].
  split.
  - intros c0 Hc0. unfold scored_cols in Hc0. unfold cell. simpl.
    repeat (apply elem_of_cons in Hc0 as [->|Hc0]);
      [..|by apply elem_of_nil in Hc0].
    + rewrite decide_True by done. simpl. rewrite list_lookup_fmap, Ea. eauto.
    + rewrite decide_False, decide_True by (done || col_ne). simpl.
      rewrite list_lookup_fmap, Er. eauto.
    + rewrite !decide_False, decide_True by (done || col_ne). simpl.
      rewrite list_lookup_fmap, Eg. eauto.
    + rewrite !decide_False, decide_True by (done || col_ne). simpl.
      rewrite list_lookup_fmap, Ec. eauto.
  - rewrite cell_assign_eq, list_lookup_fmap.
    rewrite (weighted_lookup _ _ _ _ _ _ _ _ _ Ea Er Eg Ec). simpl.
    eexists. split; [done|]. split; lra.
Qed.

Lemma investment_score_range_witness :
  exists factors scaled d',
    investment_factors 0 [two_rows] = Ok (factors, [two_rows]) /\
    investment_factors_scaled factors = Ok scaled /\
    investment_score 0 [two_rows] = Ok (tt, <[0%nat := d']> [two_rows]) /\
    index d' = index two_rows /\
    forall i, (i < length (index two_rows))%nat ->
      (forall c, c ∈ scored_cols ->
         exists z, cell scaled c i = Some (Num z) /\ 0 <= z /\ z <= 1) /\
      exists s, cell d' INVESTMENT i = Some (Num s) /\ 0 <= s /\ s <= 1.
Proof.
  apply (investment_score_range 0%nat two_rows [two_rows]); reflexivity.
Defined.

Lemma is_min_unique (lo lo' : Q) (qs : list Q) :
  is_min lo qs -> is_min lo' qs -> lo == lo'.
Proof.
  intros [(q & Hq & Eq) Hle] [(q' & Hq' & Eq') Hle'].
  apply Qle_antisym.
  - rewrite <- Eq'. by apply Hle.
  - rewrite <- Eq. by apply Hle'.
Qed.

Lemma is_max_unique (hi hi' : Q) (qs : list Q) :
  is_max hi qs -> is_max hi' qs -> hi == hi'.
Proof.
  intros [(q & Hq & Eq) Hle] [(q' & Hq' & Eq') Hle'].
  apply Qle_antisym.
  - rewrite <- Eq. by apply Hle'.
  - rewrite <- Eq'. by apply Hle.
Qed.

(** The cell of a scored column in the frame of normalised values. *)
Lemma scaled_cell (idx : list nat) (za zr zg zc : list Q) (c : string) (i : nat) :
  c ∈ scored_cols ->
  cell (mkFrame idx
          [(ACCESS, map (fun z => Num z) za); (RENEWABLE, map (fun z => Num z) zr);
           (GDP, map (fun z => Num z) zg); (CAPACITY, map (fun z => Num z) zc)]) c i
  = (fun z => Num z) <$>
      (if decide (c = ACCESS) then za
       else if decide (c = RENEWABLE) then zr
       else if decide (c = GDP) then zg else zc) !! i.
Proof.
  intros Hc. unfold scored_cols in Hc. unfold cell. simpl.
  repeat (apply elem_of_cons in Hc as [->|Hc]); [..|by apply elem_of_nil in Hc].
  - rewrite !decide_True by done. simpl. by rewrite list_lookup_fmap.
  - rewrite decide_False, decide_True, decide_False, decide_True
      by (done || col_ne). simpl. by rewrite list_lookup_fmap.
  - rewrite !decide_False, decide_True, !decide_False, decide_True
      by (done || col_ne). simpl. by rewrite list_lookup_fmap.
  - rewrite !decide_False, decide_True, !decide_False
      by (done || col_ne). simpl. by rewrite list_lookup_fmap.
Qed.

(** The scaled values of the column [c] of a scorable snapshot. *)
Lemma scaled_col_of (d : DataFrame) (va vr vg vc : list value) (za zr zg zc : list Q)
    (c : string) (vs : list value) :
  assoc ACCESS (columns d) = Some va -> assoc RENEWABLE (columns d) = Some vr ->
  assoc GDP (columns d) = Some vg -> assoc CAPACITY (columns d) = Some vc ->
  scaled_col va za -> scaled_col vr zr -> scaled_col vg zg -> scaled_col vc zc ->
  c ∈ scored_cols -> assoc c (columns d) = Some vs ->
  scaled_col vs (if decide (c = ACCESS) then za
                 else if decide (c = RENEWABLE) then zr
                 else if decide (c = GDP) then zg else zc).
Proof.
  intros Ha Hr Hg Hc Sa Sr Sg Sc Hin Hvs. unfold scored_cols in Hin.
  repeat (apply elem_of_cons in Hin as [->|Hin]); [..|by apply elem_of_nil in Hin].
  - rewrite decide_True by done. congruence.
  - rewrite decide_False, decide_True by (done || col_ne). congruence.
  - rewrite !decide_False, decide_True by (done || col_ne). congruence.
  - rewrite !decide_False by col_ne. congruence.
Qed.

(** ** C3: a constant column *)

(** C3.  On every scorable snapshot the scaler returns, and for each of the
    four scored fields: if all rows hold the same value in that field
    (missing read as 0), the normalised value of every row in that field is
    the number 0. *)
Theorem constant_column_scales_to_zero (l : loc) (d : DataFrame) (h : heap) :
  h !! l = Some d -> scorable d = true ->
  exists factors scaled,
    investment_factors l h = Ok (factors, h) /\
    investment_factors_scaled factors = Ok scaled /\
    forall c vs,
      c ∈ scored_cols -> assoc c (columns d) = Some vs ->
      (forall q q', q ∈ filled_col vs -> q' ∈ filled_col vs -> q == q') ->
      forall i, (i < length (index d))%nat ->
        exists z, cell scaled c i = Some (Num z) /\ z == 0.
Proof.
  intros Hd Hsc. pose proof (wf_frame_scorable _ Hsc) as Hwf.
  destruct (scorer_run l d h Hd Hsc)
    as (va & vr & vg & vc & za & zr & zg & zc & Ha & Hr & Hg & Hc &
        Sa & Sr & Sg & Sc & Hfac & Hscaled & Hrun).
  do 2 eexists. do 2 (split; [done|]).
  intros c vs Hin Hvs Hconst i Hi.
  pose proof (scaled_col_of _ _ _ _ _ _ _ _ _ _ _ Ha Hr Hg Hc Sa Sr Sg Sc Hin Hvs) as S.
  rewrite scaled_cell by done.
  set (zs := if decide (c = ACCESS) then za else _) in *.
  destruct (lookup_lt_is_Some_2 zs i) as [z Hz].
  { rewrite (scaled_col_length _ _ S), (wf_frame_assoc _ _ _ Hwf Hvs). lia. }
  rewrite Hz. simpl. exists z. split; [done|].
  destruct (scaled_col_lookup _ _ _ _ S Hz) as (lo & hi & q & Hmin & Hmax & Hq & ->).
  apply list_elem_of_lookup_2 in Hq.
  apply normalized_constant; [by apply Hmin | by apply Hmax |].
  destruct Hmin as [(q1 & Hq1 & <-) _]. destruct Hmax as [(q2 & Hq2 & <-) _].
  by apply Hconst.
Qed.

Lemma constant_column_scales_to_zero_witness :
  exists factors scaled,
    investment_factors 0 [single_row] = Ok (factors, [single_row]) /\
    investment_factors_scaled factors = Ok scaled /\
    forall c vs,
      c ∈ scored_cols -> assoc c (columns single_row) = Some vs ->
      (forall q q', q ∈ filled_col vs -> q' ∈ filled_col vs -> q == q') ->
      forall i, (i < length (index single_row))%nat ->
        exists z, cell scaled c i = Some (Num z) /\ z == 0.
Proof.
  apply (constant_column_scales_to_zero 0%nat single_row [single_row]); reflexivity.
Defined.

(** ** C2: the weights and the extreme rows *)

(** The claim as worded fails on a snapshot of one row: each of its inputs
    is the maximum of its column, the column is constant, the scaler maps it
    to 0, and the score is 0, not 1 (on binary64 numbers as well). *)
Lemma all_max_row_scores_zero :
  (forall c, c ∈ scored_cols ->
     exists q, input_at single_row c 0 q /\ col_max single_row c q) /\
  (exists d' s,
     investment_score 0 [single_row] = Ok (tt, [d']) /\
     cell d' INVESTMENT 0 = Some (Num s) /\ s == 0 /\ ~ s == 1) /\
  Binary64.investment_score_of single_row = [0%float].
Proof.
  split; [|split; [|vm_compute; reflexivity]].
  - intros c Hc. unfold scored_cols in Hc.
    repeat (apply elem_of_cons in Hc as [->|Hc]); [..|by apply elem_of_nil in Hc];
      eexists; (split; [eexists; split; reflexivity|]);
      (eexists; split; [reflexivity|]); simpl;
      (split; [eexists; split; [left | reflexivity]
              | intros q ->%list_elem_of_singleton; apply Qle_refl]).
  - do 2 eexists. split; [vm_compute; reflexivity|].
    split; [reflexivity|]. split; [reflexivity | discriminate].
Qed.

(** C2, amended.  The weights sum to 1: the weighted sum of four equal
    normalised values [z] is [z].  On a scorable snapshot, in exact
    arithmetic, a row whose four inputs are all the minimum of their column
    scores 0, and a row whose four inputs are all the maximum of their column
    scores 1 provided each of the four columns varies: its range, max - min,
    is at least [10 * eps], the threshold under which the scaler takes the
    column for constant. *)
Theorem extreme_rows_score (l : loc) (d : DataFrame) (h : heap) :
  h !! l = Some d -> scorable d = true ->
  (forall z k, exists s,
      weighted_sum (mkFrame [k] [(ACCESS, [Num z]); (RENEWABLE, [Num z]);
                                 (GDP, [Num z]); (CAPACITY, [Num z])])
      = Ok (mkSeries [k] [Num s]) /\ s == z) /\
  exists d',
    investment_score l h = Ok (tt, <[l := d']> h) /\
    forall i, (i < length (index d))%nat ->
      ((forall c, c ∈ scored_cols ->
          exists q, input_at d c i q /\ col_min d c q) ->
       exists s, cell d' INVESTMENT i = Some (Num s) /\ s == 0) /\
      ((forall c, c ∈ scored_cols ->
          exists q lo, input_at d c i q /\ col_max d c q /\ col_min d c lo /\
                       10 * eps <= q - lo) ->
       exists s, cell d' INVESTMENT i = Some (Num s) /\ s == 1).
Proof.
  intros Hd Hsc. split.
  { intros z k. eexists. split; [apply (weighted_sum_Num [k] [z] [z] [z] [z])|].
    simpl. ring. }
  pose proof (wf_frame_scorable _ Hsc) as Hwf.
  destruct (scorer_run l d h Hd Hsc)
    as (va & vr & vg & vc & za & zr & zg & zc & Ha & Hr & Hg & Hc &
        Sa & Sr & Sg & Sc & Hfac & Hscaled & Hrun).
  eexists. split; [done|]. intros i Hi.
  destruct (scaled_rows _ _ _ _ _ _ _ _ _ i Hwf Ha Hr Hg Hc Sa Sr Sg Sc Hi)
    as (a & r & g & c & Ea & Er & Eg & Ec).
  rewrite cell_assign_eq, list_lookup_fmap.
  rewrite (weighted_lookup _ _ _ _ _ _ _ _ _ Ea Er Eg Ec). simpl.
  assert (forall c0 vs zs z, assoc c0 (columns d) = Some vs -> scaled_col vs zs ->
            zs !! i = Some z ->
            ((exists q, input_at d c0 i q /\ col_min d c0 q) -> z == 0) /\
            ((exists q lo, input_at d c0 i q /\ col_max d c0 q /\ col_min d c0 lo /\
                           10 * eps <= q - lo) -> z == 1)) as Hcol.
  { intros c0 vs zs z Hvs S Hz.
    destruct (scaled_col_lookup _ _ _ _ S Hz) as (lo & hi & q & Hmin & Hmax & Hq & ->).
    split.
    - intros (q' & (vs1 & Hvs1 & Hq1) & (vs2 & Hvs2 & Hmin')).
      assert (vs1 = vs) as -> by congruence. assert (vs2 = vs) as -> by congruence.
      assert (q' = q) as -> by congruence.
      rewrite (is_min_unique _ _ _ Hmin' Hmin). apply normalized_min.
    - intros (q' & lo' & (vs1 & Hvs1 & Hq1) & (vs2 & Hvs2 & Hmax') &
              (vs3 & Hvs3 & Hmin') & Hrange).
      assert (vs1 = vs) as -> by congruence. assert (vs2 = vs) as -> by congruence.
      assert (vs3 = vs) as -> by congruence. assert (q' = q) as -> by congruence.
      pose proof (is_max_unique _ _ _ Hmax' Hmax) as E1.
      pose proof (is_min_unique _ _ _ Hmin' Hmin) as E2.
      rewrite E1. apply normalized_max. lra. }
  destruct (Hcol _ _ _ _ Ha Sa Ea) as [Ha0 Ha1].
  destruct (Hcol _ _ _ _ Hr Sr Er) as [Hr0 Hr1].
  destruct (Hcol _ _ _ _ Hg Sg Eg) as [Hg0 Hg1].
  destruct (Hcol _ _ _ _ Hc Sc Ec) as [Hc0 Hc1].
  assert (ACCESS ∈ scored_cols) as Ia by (unfold scored_cols; repeat constructor).
  assert (RENEWABLE ∈ scored_cols) as Ir by (unfold scored_cols; repeat constructor).
  assert (GDP ∈ scored_cols) as Ig by (unfold scored_cols; repeat constructor).
  assert (CAPACITY ∈ scored_cols) as Ic by (unfold scored_cols; repeat constructor).
  split; intros Hall; (eexists; split; [done|]).
  - rewrite (Ha0 (Hall _ Ia)), (Hr0 (Hall _ Ir)), (Hg0 (Hall _ Ig)), (Hc0 (Hall _ Ic)).
    ring.
  - rewrite (Ha1 (Hall _ Ia)), (Hr1 (Hall _ Ir)), (Hg1 (Hall _ Ig)), (Hc1 (Hall _ Ic)).
    ring.
Qed.

Lemma extreme_rows_score_witness :
  (forall z k, exists s,
      weighted_sum (mkFrame [k] [(ACCESS, [Num z]); (RENEWABLE, [Num z]);
                                 (GDP, [Num z]); (CAPACITY, [Num z])])
      = Ok (mkSeries [k] [Num s]) /\ s == z) /\
  exists d',
    investment_score 0 [two_rows] = Ok (tt, <[0%nat := d']> [two_rows]) /\
    forall i, (i < length (index two_rows))%nat ->
      ((forall c, c ∈ scored_cols ->
          exists q, input_at two_rows c i q /\ col_min two_rows c q) ->
       exists s, cell d' INVESTMENT i = Some (Num s) /\ s == 0) /\
      ((forall c, c ∈ scored_cols ->
          exists q lo, input_at two_rows c i q /\ col_max two_rows c q /\
                       col_min two_rows c lo /\ 10 * eps <= q - lo) ->
       exists s, cell d' INVESTMENT i = Some (Num s) /\ s == 1).
Proof.
  apply (extreme_rows_score 0%nat two_rows [two_rows]); reflexivity.
Defined.

(** ** The selector *)

Lemma take_pos_Ok {A : Type} (xs : list A) (js : list nat) (ys : list A) :
  take_pos xs js = Ok ys <-> Forall2 (fun j y => xs !! j = Some y) js ys.
Proof.
  unfold take_pos. rewrite mapM_Ok_Forall2.
  split; intros H; (eapply Forall2_impl; [exact H|]); intros j y; simpl;
    destruct (xs !! j); (done || congruence).
Qed.

Lemma take_rows_assoc (d : DataFrame) (js : list nat)
    (cols : list (string * list value)) (c : string) :
  mapM (fun cv : string * list value => vs ← take_pos cv.2 js; Ok (cv.1, vs))
       (columns d) = Ok cols ->
  match assoc c (columns d) with
  | Some vs => exists vs', assoc c cols = Some vs' /\ take_pos vs js = Ok vs'
  | None => assoc c cols = None
  end.
Proof.
  generalize (columns d). intros l. revert cols.
  induction l as [|[c' vs] l IH]; intros cols H; simpl in *.
  - by injection H as <-.
  - stepR H as cv Hcv. stepR H as cols' Hcols. injection H as <-.
    stepR Hcv as vs' Hvs'. injection Hcv as <-. simpl in *.
    specialize (IH _ Hcols).
    destruct (decide (c' = c)); [eauto | done].
Qed.

(** Row [i] of [d.take(js)] is row [js !! i] of [d]. *)
Lemma take_rows_Ok (d p : DataFrame) (js : list nat) :
  take_rows d js = Ok p ->
  length (index p) = length js /\
  forall i j, js !! i = Some j ->
    (j < length (index d))%nat /\
    index p !! i = index d !! j /\
    forall c, match assoc c (columns d) with
              | Some vs => (j < length vs)%nat /\ cell p c i = cell d c j
              | None => cell p c i = None
              end.
Proof.
  unfold take_rows. intros H. stepR H as idx Hidx. stepR H as cols Hcols.
  injection H as <-. simpl. apply take_pos_Ok in Hidx.
  split; [symmetry; by eapply Forall2_length|].
  intros i j Hj.
  destruct (Forall2_lookup_l _ _ _ _ _ Hidx Hj) as (l & Hl & Hl').
  split; [by eapply lookup_lt_Some|]. split; [congruence|].
  intros c. pose proof (take_rows_assoc d js cols c Hcols) as Hc.
  unfold cell. simpl. destruct (assoc c (columns d)) as [vs|].
  - destruct Hc as (vs' & -> & Hvs'%take_pos_Ok). simpl.
    destruct (Forall2_lookup_l _ _ _ _ _ Hvs' Hj) as (v & Hv & Hv').
    split; [by eapply lookup_lt_Some | congruence].
  - by rewrite Hc.
Qed.

Lemma series_gt_Ok (s : Series) (c : Q) (m : BoolSeries) :
  series_gt s c = Ok m ->
  exists xs, mapM (as_float TypeError) (svalues s) = Ok xs /\
             m = mkBoolSeries (sindex s) (map (fun x => fgt x c) xs).
Proof.
  unfold series_gt. intros H. stepR H as xs Hxs. injection H as <-. eauto.
Qed.

(** The surviving rows are those the three comparisons keep. *)
Lemma survivors_Ok (d sel : DataFrame) :
  survivors d = Ok sel ->
  exists vi vg vr xi xg xr,
    assoc INVESTMENT (columns d) = Some vi /\
    assoc GDP (columns d) = Some vg /\
    assoc RENEWABLE (columns d) = Some vr /\
    mapM (as_float TypeError) vi = Ok xi /\
    mapM (as_float TypeError) vg = Ok xg /\
    mapM (as_float TypeError) vr = Ok xr /\
    sel = mkFrame (mfilter (promising_bits xi xg xr) (index d))
            (map (fun cv => (cv.1, mfilter (promising_bits xi xg xr) cv.2))
                 (columns d)).
Proof.
  unfold survivors, promising_mask, getitem. intros H. stepR H as m Hm.
  stepR Hm as inv Hi. destruct (assoc INVESTMENT (columns d)) as [vi|]; [|done].
  injection Hi as <-.
  stepR Hm as m1 Hm1. apply series_gt_Ok in Hm1 as (xi & Hxi & ->).
  stepR Hm as gdp Hg. destruct (assoc GDP (columns d)) as [vg|]; [|done].
  injection Hg as <-.
  stepR Hm as m2 Hm2. apply series_gt_Ok in Hm2 as (xg & Hxg & ->).
  stepR Hm as m12 Hm12.
  stepR Hm as ren Hr. destruct (assoc RENEWABLE (columns d)) as [vr|]; [|done].
  injection Hr as <-.
  stepR Hm as m3 Hm3. apply series_gt_Ok in Hm3 as (xr & Hxr & ->).
  simpl in *.
  unfold bool_and in Hm12. simpl in Hm12. rewrite decide_True in Hm12 by done.
  injection Hm12 as <-.
  unfold bool_and in Hm. simpl in Hm. rewrite decide_True in Hm by done.
  injection Hm as <-.
  unfold getitem_mask in H. simpl in H. rewrite decide_True in H by done.
  injection H as <-.
  exists vi, vg, vr, xi, xg, xr. by repeat split.
Qed.

(** What a successful run of lines 153-157 has done. *)
Lemma promising_countries_Ok (argsort : list Q -> list nat) (l : loc)
    (d p : DataFrame) (h h' : heap) :
  h !! l = Some d ->
  promising_countries argsort l h = Ok (p, h') ->
  exists sel,
    survivors d = Ok sel /\
    sort_values argsort sel INVESTMENT false = Ok p /\
    h' = h.
Proof.
  intros Hd H. unfold promising_countries in H.
  stepM H as d0 h0 Hg. apply get_Ok in Hg as [Hd0 ->].
  assert (d0 = d) as -> by congruence.
  apply lift_Ok in H as [H ->]. stepR H as sel Hsel. eauto.
Qed.

Lemma sort_values_Ok (argsort : list Q -> list nat) (d p : DataFrame)
    (by_ : string) (ascending : bool) :
  sort_values argsort d by_ ascending = Ok p ->
  exists vs items js,
    assoc by_ (columns d) = Some vs /\
    mapM (as_float TypeError) vs = Ok items /\
    nargsort argsort items ascending = Ok js /\
    take_rows d js = Ok p.
Proof.
  unfold sort_values. intros H. stepR H as k Hk. stepR H as items Hitems.
  stepR H as js Hjs. unfold getitem in Hk.
  destruct (assoc by_ (columns d)) as [vs|] eqn:E; [|done].
  injection Hk as <-. simpl in *. eauto 10.
Qed.

Lemma length_promising_bits (xi xg xr : list float) (n : nat) :
  length xi = n -> length xg = n -> length xr = n ->
  length (promising_bits xi xg xr) = n.
Proof.
  intros H1 H2 H3. unfold promising_bits.
  rewrite !length_zip_with, !length_map. lia.
Qed.

Lemma promising_bits_lookup (xi xg xr : list float) (j : nat) :
  promising_bits xi xg xr !! j = Some true ->
  exists s g r, xi !! j = Some s /\ xg !! j = Some g /\ xr !! j = Some r /\
                fgt s 0.7 && fgt g 3000 && fgt r 20 = true.
Proof.
  unfold promising_bits. rewrite !lookup_zip_with, !list_lookup_fmap.
  destruct (xi !! j) as [s|]; [|done]. destruct (xg !! j) as [g|]; [|done].
  destruct (xr !! j) as [r|]; [|done]. simpl. intros [= H]. eauto 10.
Qed.

Lemma as_float_lookup (e : exn) (vs : list value) (xs : list float) (j : nat) (x : float) :
  mapM (as_float e) vs = Ok xs -> xs !! j = Some x -> vs !! j = Some (Flt x).
Proof.
  intros H Hx. destruct (mapM_Ok_lookup _ _ _ _ _ H Hx) as (v & Hv & Hv').
  destruct v; simpl in Hv'; congruence.
Qed.

Lemma passes_spec (d : DataFrame) (j : nat) :
  passes d j = true <->
  exists s g r,
    cell d INVESTMENT j = Some (Num s) /\ 0.7 < s /\
    cell d GDP j = Some (Num g) /\ 3000 < g /\
    cell d RENEWABLE j = Some (Num r) /\ 20 < r.
Proof.
  unfold passes. split.
  - destruct (cell d INVESTMENT j) as [[[s|]|]|]; try done;
      destruct (cell d GDP j) as [[[g|]|]|]; try done;
      destruct (cell d RENEWABLE j) as [[[r|]|]|]; simpl; try done;
      rewrite ?andb_false_r; try done.
    rewrite !andb_true_iff, !Qltb_lt. intros [[? ?] ?]. eauto 10.
  - intros (s & g & r & -> & Hs & -> & Hg & -> & Hr). simpl.
    rewrite !andb_true_iff, !Qltb_lt. auto.
Qed.

(** Row [i] of the filtered and sorted frame is a row of the snapshot that
    passes the filter. *)
Lemma promising_row (argsort : list Q -> list nat) (l : loc)
    (d p : DataFrame) (h h' : heap) (i : nat) :
  h !! l = Some d -> wf_frame d ->
  promising_countries argsort l h = Ok (p, h') ->
  (i < length (index p))%nat ->
  exists j, (j < length (index d))%nat /\ index p !! i = index d !! j /\
            (forall c, cell p c i = cell d c j) /\ passes d j = true.
Proof.
  intros Hd Hwf H Hi.
  destruct (promising_countries_Ok _ _ _ _ _ _ Hd H) as (sel & Hsel & Hsort & _).
  apply survivors_Ok in Hsel
    as (vi & vg & vr & xi & xg & xr & Hvi & Hvg & Hvr & Hxi & Hxg & Hxr & ->).
  set (mask := promising_bits xi xg xr) in *.
  assert (length mask = length (index d)) as Lmask.
  { apply length_promising_bits.
    - by rewrite (mapM_Ok_length _ _ _ Hxi), (wf_frame_assoc _ _ _ Hwf Hvi).
    - by rewrite (mapM_Ok_length _ _ _ Hxg), (wf_frame_assoc _ _ _ Hwf Hvg).
    - by rewrite (mapM_Ok_length _ _ _ Hxr), (wf_frame_assoc _ _ _ Hwf Hvr). }
  apply sort_values_Ok in Hsort as (vs & items & js & _ & _ & _ & Htake).
  apply take_rows_Ok in Htake as [Hlen Hrows].
  destruct (lookup_lt_is_Some_2 js i) as [j' Hj']; [lia|].
  destruct (Hrows i j' Hj') as (Hlt & Hidx & Hcells). simpl in *.
  rewrite mfilter_lookup in Hidx by done.
  destruct (mpos mask !! j') as [j|] eqn:Hj.
  2:{ apply lookup_lt_is_Some_2 in Hlt as [x Hx].
      rewrite mfilter_lookup in Hx by done. by rewrite Hj in Hx. }
  simpl in Hidx. pose proof (mpos_lookup _ _ _ Hj) as Hbit.
  exists j. split.
  { rewrite <- Lmask. by eapply lookup_lt_Some. }
  split; [done|].
  assert (forall c, cell p c i = cell d c j) as Hsame.
  { intros c. specialize (Hcells c). rewrite assoc_map in Hcells.
    unfold cell at 2. destruct (assoc c (columns d)) as [ws|] eqn:E; simpl in *.
    - destruct Hcells as [_ ->]. unfold cell. simpl. rewrite assoc_map, E. simpl.
      rewrite mfilter_lookup by (by rewrite Lmask, (wf_frame_assoc _ _ _ Hwf E)).
      by rewrite Hj.
    - done. }
  split; [done|].
  destruct (promising_bits_lookup _ _ _ _ Hbit) as (s & g & r & Hs & Hg & Hr & Hp).
  unfold passes, cell. rewrite Hvi, Hvg, Hvr. simpl.
  by rewrite (as_float_lookup _ _ _ _ _ Hxi Hs), (as_float_lookup _ _ _ _ _ Hxg Hg),
    (as_float_lookup _ _ _ _ _ Hxr Hr).
Qed.

(** ** C1: the rows the selector returns *)

(** C1.  Every row of the recommendation list is a row of the scored
    snapshot (same label, same cells) that passes all three thresholds:
    Investment Score > 0.7, gdp per capita > 3000 and renewable share > 20,
    each a number.  A row whose gdp per capita or renewable share is missing
    does not pass, and no row that fails a threshold is in the list. *)
Theorem recommended_rows_pass (argsort : list Q -> list nat) (l : loc)
    (d p : DataFrame) (h h' : heap) :
  h !! l = Some d -> wf_frame d ->
  promising_countries argsort l h = Ok (p, h') ->
  (forall i, (i < length (index p))%nat ->
     exists j s g r,
       index p !! i = index d !! j /\ (forall c, cell p c i = cell d c j) /\
       cell p INVESTMENT i = Some (Num s) /\ 0.7 < s /\
       cell p GDP i = Some (Num g) /\ 3000 < g /\
       cell p RENEWABLE i = Some (Num r) /\ 20 < r) /\
  (forall j, cell d GDP j = Some NaN \/ cell d RENEWABLE j = Some NaN ->
     passes d j = false) /\
  (forall i j, (i < length (index p))%nat -> passes d j = false ->
     ~ (forall c, cell p c i = cell d c j)).
Proof.
  intros Hd Hwf H. split; [|split].
  - intros i Hi.
    destruct (promising_row _ _ _ _ _ _ i Hd Hwf H Hi) as (j & _ & Hidx & Hsame & Hp).
    apply passes_spec in Hp as (s & g & r & Hs & ? & Hg & ? & Hr & ?).
    exists j, s, g, r. rewrite !Hsame. auto 10.
  - intros j [E|E]; unfold passes; rewrite E;
      destruct (cell d INVESTMENT j) as [[?|?]|]; try done;
      destruct (cell d GDP j) as [[?|?]|]; try done;
      simpl; rewrite ?andb_false_r; try done.
    all: destruct (cell d RENEWABLE j) as [[[?|]|?]|]; simpl;
      rewrite ?andb_false_r; done.
  - intros i j Hi Hfail Hsame.
    destruct (promising_row _ _ _ _ _ _ i Hd Hwf H Hi) as (j0 & _ & _ & Hsame0 & Hp).
    unfold passes in Hfail, Hp.
    rewrite <- !Hsame in Hfail. rewrite <- !Hsame0 in Hp. congruence.
Qed.

Lemma recommended_rows_pass_witness :
  exists d p,
    investment_score 0 [two_rows] = Ok (tt, [d]) /\
    promising_countries Npy.argsort 0 [d] = Ok (p, [d]) /\
    index p = [0%nat] /\
    (forall i, (i < length (index p))%nat ->
       exists j s g r,
         index p !! i = index d !! j /\ (forall c, cell p c i = cell d c j) /\
         cell p INVESTMENT i = Some (Num s) /\ 0.7 < s /\
         cell p GDP i = Some (Num g) /\ 3000 < g /\
         cell p RENEWABLE i = Some (Num r) /\ 20 < r) /\
    (forall j, cell d GDP j = Some NaN \/ cell d RENEWABLE j = Some NaN ->
       passes d j = false) /\
    (forall i j, (i < length (index p))%nat -> passes d j = false ->
       ~ (forall c, cell p c i = cell d c j)).
Proof.
  do 2 eexists. split; [vm_compute; reflexivity|].
  split; [vm_compute; reflexivity|]. split; [reflexivity|].
  eapply (recommended_rows_pass Npy.argsort 0%nat _ _ [_] [_]).
  - reflexivity.
  - repeat constructor.
  - vm_compute; reflexivity.
Defined.

(** ** C9: the example of the specification *)

#[local] Set Warnings "-inexact-float".

(** On binary64 numbers the weighted sum of A is not 1.0: its four
    normalised values are exactly 1.0, and 0.3 + 0.4 + 0.2 + 0.1 summed from
    the left rounds to the float just below 1. *)
Lemma score_of_A_is_below_one :
  exists s,
    Binary64.investment_score_of two_rows !! 0%nat = Some s /\
    PrimFloat.eqb s 1 = false /\ PrimFloat.ltb s 1 = true.
Proof. eexists. split; [vm_compute; reflexivity|]. split; reflexivity. Qed.

(** C9, amended.  On the two-row snapshot A = (access 80, renewable 50, gdp
    5000, capacity 10), B = (20, 10, 1000, 1): every field of A is normalised
    to 1 and every field of B to 0, in exact arithmetic and on binary64
    numbers alike; the Investment Score of B is 0; the Investment Score of A
    is 1 in exact arithmetic and 0.9999999999999999, the float just below 1,
    as the script computes it; either way the score threshold keeps A only,
    so whatever the sort does no row but A is recommended, and with numpy's
    argsort the list is exactly A. *)
Theorem example_two_rows :
  exists factors scaled d,
    investment_factors 0 [two_rows] = Ok (factors, [two_rows]) /\
    investment_factors_scaled factors = Ok scaled /\
    (forall c, c ∈ scored_cols ->
       exists a b, cell scaled c 0 = Some (Num a) /\ a == 1 /\
                   cell scaled c 1 = Some (Num b) /\ b == 0) /\
    investment_score 0 [two_rows] = Ok (tt, [d]) /\
    (exists sA sB, cell d INVESTMENT 0 = Some (Num sA) /\ sA == 1 /\
                   cell d INVESTMENT 1 = Some (Num sB) /\ sB == 0) /\
    (exists inv m, getitem d INVESTMENT = Ok inv /\ series_gt inv 0.7 = Ok m /\
                   bvalues m = [true; false]) /\
    (forall argsort p h',
       promising_countries argsort 0 [d] = Ok (p, h') ->
       forall i, (i < length (index p))%nat ->
         index p !! i = Some 0%nat /\ cell p "Entity" i = Some (Str "A")) /\
    (exists p, promising_countries Npy.argsort 0 [d] = Ok (p, [d]) /\
               index p = [0%nat] /\ cell p "Entity" 0 = Some (Str "A")) /\
    (forall c, c ∈ scored_cols ->
       Binary64.fit_transform_column64 (Binary64.column64 two_rows c) = [1; 0]%float) /\
    Binary64.investment_score_of two_rows = [0x1.fffffffffffffp-1; 0]%float /\
    PrimFloat.ltb 0.7 0x1.fffffffffffffp-1 = true /\
    PrimFloat.ltb 0.7 0 = false.
Proof.
  do 3 eexists. split; [vm_compute; reflexivity|].
  split; [vm_compute; reflexivity|]. split.
  { intros c Hc. unfold scored_cols in Hc.
    repeat (apply elem_of_cons in Hc as [->|Hc]); [..|by apply elem_of_nil in Hc];
      do 2 eexists; repeat split; reflexivity. }
  split; [vm_compute; reflexivity|]. split.
  { do 2 eexists. repeat split; reflexivity. }
  split.
  { do 2 eexists. split; [reflexivity|]. split; reflexivity. }
  split.
  - intros argsort p h' H i Hi.
    match type of H with promising_countries _ _ [?d0] = _ =>
      assert (wf_frame d0) as Hwf by (repeat constructor);
      destruct (promising_row argsort 0%nat d0 p [d0] h' i eq_refl Hwf H Hi)
        as (j & Hj & Hidx & Hsame & Hp)
    end.
    simpl in Hj. destruct j as [|[|j]]; [| |lia].
    + rewrite Hidx, Hsame. split; reflexivity.
    + vm_compute in Hp. discriminate.
  - split; [eexists; split; [vm_compute; reflexivity|]; split; reflexivity|].
    split.
    { intros c Hc. unfold scored_cols in Hc.
      repeat (apply elem_of_cons in Hc as [->|Hc]); [..|by apply elem_of_nil in Hc];
        vm_compute; reflexivity. }
    split; [vm_compute; reflexivity|]. split; reflexivity.
Qed.

(** ** C8: the full dataset is left alone *)

(** The scorer writes to [latest_df] and to nothing else. *)
Lemma investment_score_writes (l : loc) (u : unit) (h h' : heap) :
  investment_score l h = Ok (u, h') ->
  exists d d', h !! l = Some d /\ h' = <[l := d']> h.
Proof.
  unfold investment_score. intros H.
  stepM H as factors h1 Hf. unfold investment_factors in Hf.
  stepM Hf as d h2 Hg. apply get_Ok in Hg as [Hd ->].
  stepM Hf as sel h3 Hsel. apply lift_Ok in Hsel as [_ ->].
  apply M_ret_Ok in Hf as [_ ->].
  stepM H as scaled h4 Hs. apply lift_Ok in Hs as [_ ->].
  stepM H as s h5 Hw. apply lift_Ok in Hw as [_ ->].
  apply setcol_Ok in H as (d0 & Hd0 & _ & ->). eauto.
Qed.

(** C8.  Through the whole script the object [df] keeps the content the
    loader parsed: what [read_csv] and the numeric coercion of lines 11-17
    produced is what [df] holds when [load_data] returns (the snapshot taken
    and the Sustainability Score added) and still when the script ends (the
    Investment Score added and the recommendation list built).  The snapshot
    is a different object, and no object that existed before is changed. *)
Theorem full_dataset_untouched (parse : string -> option float)
    (argsort : list Q -> list nat) (file : csv_file)
    (df latest : loc) (p : DataFrame) (h h_end : heap) :
  main parse argsort file h = Ok ((df, latest, p), h_end) ->
  exists full y h_load,
    (df0 ← new (read_csv file); _ ← coerce_numeric_cols parse df0; mret df0) h
    = Ok (df, h ++ [full]) /\
    load_data parse file h = Ok ((df, latest, y), h_load) /\
    h_load !! df = Some full /\
    h_end !! df = Some full /\
    df <> latest /\
    (forall l, (l < length h)%nat -> h_end !! l = h !! l).
Proof.
  intros H. unfold main in H.
  stepM H as r h1 Hload. destruct r as [[df0 latest0] y].
  stepM H as u h2 Hscore. stepM H as p0 h3 Hsel.
  apply M_ret_Ok in H as [[= E1 E2 E3] E4]. simpl in *. subst df0 latest0 p0 h_end.
  pose proof Hload as Hload'.
  apply load_data_Ok in Hload'
    as (o1 & o2 & o3 & yv & full & sel & score & -> & -> & Ho1 & Ho2 & Ho3 &
        Hfull & Hyv & Hmax & Hsel' & Hs & ->).
  apply investment_score_writes in Hscore as (d & d' & Hd & ->).
  assert ((S (length h) < length (h ++ [full; mkFrame (index sel)
             (assign SUSTAINABILITY (svalues score) (columns sel))]))%nat) as Hlt
    by (rewrite length_app; simpl; lia).
  destruct (promising_countries_Ok _ _ _ _ _ _ (list_lookup_insert_eq _ _ d' Hlt) Hsel)
    as (_ & _ & _ & ->).
  exists full, y. eexists. split.
  { rewrite (run_bind (new (read_csv file)) _ h (h ++ [read_csv file]) (length h) eq_refl).
    rewrite (run_bind _ _ _ _ _
               (coerce_numeric_cols_run parse _ (read_csv file) _ _ _ _
                  (lookup_snoc h _) Ho1 Ho2 Ho3)).
    rewrite insert_snoc. simpl. by rewrite Hfull. }
  split; [done|].
  split; [by rewrite lookup_app_r, Nat.sub_diag by lia|].
  split.
  { rewrite list_lookup_insert_ne by lia.
    by rewrite lookup_app_r, Nat.sub_diag by lia. }
  split; [lia|].
  intros l Hl. rewrite list_lookup_insert_ne by lia. by rewrite lookup_app_l.
Qed.

Lemma full_dataset_untouched_witness :
  exists p h_end,
    main parse_decimal Npy.argsort sample_file [] = Ok ((0%nat, 1%nat, p), h_end) /\
    exists full y h_load,
      (df0 ← new (read_csv sample_file);
       _ ← coerce_numeric_cols parse_decimal df0; mret df0) []
      = Ok (0%nat, [] ++ [full]) /\
      load_data parse_decimal sample_file [] = Ok ((0%nat, 1%nat, y), h_load) /\
      h_load !! 0%nat = Some full /\
      h_end !! 0%nat = Some full /\
      0%nat <> 1%nat /\
      (forall l, (l < length (@nil DataFrame))%nat -> h_end !! l = @nil DataFrame !! l).
Proof.
  do 2 eexists. split; [vm_compute; reflexivity|].
  eapply (full_dataset_untouched parse_decimal Npy.argsort sample_file 0%nat 1%nat _ []).
  vm_compute; reflexivity.
Defined.

(** ** C5: the order of the recommendation list *)

Lemma non_nans_from_Some (k : nat) (ss : list Q) :
  non_nans_from k (map Some ss) = zip (seq k (length ss)) ss.
Proof.
  revert k. induction ss as [|s ss IH]; intros k; simpl; [done|]. by rewrite IH.
Qed.

Lemma nans_from_Some (k : nat) (ss : list Q) : nans_from k (map Some ss) = [].
Proof. revert k. induction ss as [|s ss IH]; intros k; simpl; [done|]. apply IH. Qed.

Lemma ascending_along_lookup (keys : list Q) (perm : list nat) (k k' a a' : nat) :
  ascending_along keys perm = true ->
  (k < k')%nat -> perm !! k = Some a -> perm !! k' = Some a' ->
  nth a keys 0 <= nth a' keys 0.
Proof.
  revert k k'. induction perm as [|b perm IH]; intros k k'; simpl; [done|].
  intros [Hb Hrest]%andb_true_iff Hlt Hk Hk'.
  destruct k' as [|k']; [lia|]. simpl in Hk'.
  destruct k as [|k]; simpl in Hk.
  - injection Hk as ->. rewrite forallb_forall in Hb.
    apply Qle_bool_iff, Hb, list_elem_of_In. by eapply list_elem_of_lookup_2.
  - eapply (IH k k' Hrest); [lia|done..].
Qed.

Lemma sorts_Permutation (keys : list Q) (perm : list nat) :
  sorts keys perm = true -> perm ≡ₚ seq 0 (length keys).
Proof.
  unfold sorts. intros [[Hlen%Nat.eqb_eq Hall]%andb_true_iff _]%andb_true_iff.
  symmetry. apply NoDup_Permutation_bis.
  - apply NoDup_ListNoDup, NoDup_seq.
  - rewrite length_seq. lia.
  - intros i Hi. rewrite forallb_forall in Hall. specialize (Hall i Hi).
    apply existsb_exists in Hall as (j & Hj & ->%Nat.eqb_eq). done.
Qed.

Lemma reverse_seq_lookup (n a : nat) :
  (a < n)%nat -> reverse (seq 0 n) !! a = Some (n - 1 - a)%nat.
Proof.
  intros Ha. rewrite reverse_lookup by (rewrite length_seq; lia).
  rewrite length_seq, lookup_seq. split_and?; [f_equal|]; lia.
Qed.

(** The descending [nargsort] of an array without NaN: position [i] of the
    result is the position [n - 1 - a] of the array, where [a] is what
    [argsort] puts at position [n - 1 - i] for the reversed array. *)
Lemma nargsort_descending (argsort : list Q -> list nat) (ss : list Q) (js : list nat) :
  sorts (reverse ss) (argsort (reverse ss)) = true ->
  nargsort argsort (map Some ss) false = Ok js ->
  js = reverse (map (fun a => (length ss - 1 - a)%nat) (argsort (reverse ss))).
Proof.
  intros Hsorts H. unfold nargsort in H.
  rewrite non_nans_from_Some, nans_from_Some in H.
  rewrite !fmap_reverse, fst_zip, snd_zip in H by (rewrite length_seq; lia).
  stepR H as js0 Hjs0. injection H as <-. rewrite app_nil_r. f_equal.
  apply take_pos_Ok in Hjs0.
  pose proof (sorts_Permutation _ _ Hsorts) as Hperm.
  rewrite length_reverse in Hperm.
  apply list_eq. intros k. rewrite list_lookup_fmap.
  destruct (argsort (reverse ss) !! k) as [a|] eqn:Ea; simpl.
  - destruct (Forall2_lookup_l _ _ _ _ _ Hjs0 Ea) as (j & Hj & Hj').
    assert (a < length ss)%nat as Ha.
    { apply list_elem_of_lookup_2 in Ea. rewrite Hperm in Ea.
      apply elem_of_seq in Ea. lia. }
    rewrite reverse_seq_lookup in Hj' by done. congruence.
  - apply lookup_ge_None. apply lookup_ge_None in Ea.
    by rewrite <- (Forall2_length _ _ _ Hjs0).
Qed.

Lemma flip_Permutation (n : nat) (perm : list nat) :
  perm ≡ₚ seq 0 n ->
  reverse (map (fun a => (n - 1 - a)%nat) perm) ≡ₚ seq 0 n.
Proof.
  intros Hperm. rewrite reverse_Permutation, Hperm.
  apply NoDup_Permutation.
  - apply NoDup_fmap_2_strong; [|apply NoDup_seq].
    intros x y Hx%elem_of_seq Hy%elem_of_seq. lia.
  - apply NoDup_seq.
  - intros x. rewrite list_elem_of_fmap, elem_of_seq. split.
    + intros (a & -> & Ha%elem_of_seq). lia.
    + intros Hx. exists (n - 1 - x)%nat. rewrite elem_of_seq. lia.
Qed.

Lemma all_numbers (vs : list value) :
  Forall (fun v => exists s, v = Num s) vs ->
  vs = map (fun s => Num s) (omap number_of vs).
Proof.
  induction 1 as [|v vs (s & ->) _ IH]; simpl; [done|]. by f_equal.
Qed.

(** The surviving rows all hold a number as Investment Score. *)
Lemma survivors_scores (d sel : DataFrame) :
  wf_frame d -> survivors d = Ok sel ->
  assoc INVESTMENT (columns sel) = Some (map (fun s => Num s) (scores_of sel)) /\
  length (scores_of sel) = length (index sel) /\
  wf_frame sel.
Proof.
  intros Hwf H. pose proof H as H'.
  apply survivors_Ok in H
    as (vi & vg & vr & xi & xg & xr & Hvi & Hvg & Hvr & Hxi & Hxg & Hxr & ->).
  set (mask := promising_bits xi xg xr) in *.
  assert (length mask = length (index d)) as Lmask.
  { apply length_promising_bits.
    - by rewrite (mapM_Ok_length _ _ _ Hxi), (wf_frame_assoc _ _ _ Hwf Hvi).
    - by rewrite (mapM_Ok_length _ _ _ Hxg), (wf_frame_assoc _ _ _ Hwf Hvg).
    - by rewrite (mapM_Ok_length _ _ _ Hxr), (wf_frame_assoc _ _ _ Hwf Hvr). }
  pose proof (wf_frame_assoc _ _ _ Hwf Hvi) as Lvi.
  assert (Forall (fun v => exists s, v = Num s) (mfilter mask vi)) as Hnum.
  { apply Forall_lookup. intros i v Hv.
    rewrite mfilter_lookup in Hv by lia.
    destruct (mpos mask !! i) as [j|] eqn:Hj; [|done]. simpl in Hv.
    apply mpos_lookup in Hj.
    destruct (promising_bits_lookup _ _ _ _ Hj) as (s & g & r & Hs & _ & _ & Hp).
    rewrite (as_float_lookup _ _ _ _ _ Hxi Hs) in Hv. injection Hv as <-.
    destruct s as [s|]; [eauto | done]. }
  assert (wf_frame (mkFrame (mfilter mask (index d))
            (map (fun cv => (cv.1, mfilter mask cv.2)) (columns d)))) as Wsel.
  { unfold wf_frame in *. simpl. apply Forall_fmap, (Forall_impl _ _ _ Hwf).
    intros [c vs] Hlen. simpl in *. by apply length_mfilter. }
  unfold scores_of. simpl. rewrite assoc_map, Hvi. simpl.
  split; [by rewrite <- all_numbers|]. split; [|done].
  pose proof (f_equal length (all_numbers _ Hnum)) as Hlen.
  rewrite length_map in Hlen. rewrite <- Hlen. by apply length_mfilter.
Qed.

Lemma take_rows_cell (d p : DataFrame) (js : list nat) (c : string) (i : nat) (v : value) :
  take_rows d js = Ok p -> cell p c i = Some v ->
  exists j, js !! i = Some j /\ cell d c j = Some v.
Proof.
  unfold take_rows. intros H Hv. stepR H as idx Hidx. stepR H as cols Hcols.
  injection H as <-. pose proof (take_rows_assoc d js cols c Hcols) as Hc.
  unfold cell in *. simpl in Hv.
  destruct (assoc c (columns d)) as [vs|].
  - destruct Hc as (vs' & E & Hvs'%take_pos_Ok). rewrite E in Hv. simpl in *.
    destruct (Forall2_lookup_r _ _ _ _ _ Hvs' Hv) as (j & Hj & Hj'). eauto.
  - by rewrite Hc in Hv.
Qed.

Lemma mapM_as_float_Num (e : exn) (ss : list Q) :
  mapM (as_float e) (map (fun s => Num s) ss) = Ok (map Some ss).
Proof.
  apply mapM_Ok_Forall2, Forall2_fmap_l, Forall2_fmap_r, Forall_Forall2_diag.
  by apply Forall_forall.
Qed.

Lemma nth_reverse_flip (ss : list Q) (a : nat) (s : Q) :
  (a < length ss)%nat -> ss !! (length ss - 1 - a)%nat = Some s ->
  nth a (reverse ss) 0 = s.
Proof.
  intros Ha Hs. apply nth_lookup_Some with (d := 0).
  rewrite reverse_lookup by done. rewrite <- Hs. f_equal. lia.
Qed.

(** C5, amended.  Given that numpy's argsort returns an argsort of the keys
    it is handed (every position once, keys ascending), the recommendation
    list is the surviving rows, each exactly once, in order of descending
    Investment Score.  Where rows of equal score go is decided by the sort
    kind and is not fixed by the script. *)
Theorem recommendations_sorted_descending (argsort : list Q -> list nat) (l : loc)
    (d sel p : DataFrame) (h h' : heap) :
  h !! l = Some d -> wf_frame d ->
  survivors d = Ok sel ->
  promising_countries argsort l h = Ok (p, h') ->
  sorts (reverse (scores_of sel)) (argsort (reverse (scores_of sel))) = true ->
  exists js,
    js ≡ₚ seq 0 (length (index sel)) /\
    length (index p) = length js /\
    (forall i j, js !! i = Some j ->
       index p !! i = index sel !! j /\ forall c, cell p c i = cell sel c j) /\
    (forall i i' s s', (i < i')%nat ->
       cell p INVESTMENT i = Some (Num s) -> cell p INVESTMENT i' = Some (Num s') ->
       s' <= s).
Proof.
  intros Hd Hwf Hsel H Hsorts.
  destruct (promising_countries_Ok _ _ _ _ _ _ Hd H) as (sel' & Hsel' & Hsort & _).
  assert (sel' = sel) as -> by congruence.
  destruct (survivors_scores _ _ Hwf Hsel) as (Hinv & Hlen & Wsel).
  set (ss := scores_of sel) in *.
  apply sort_values_Ok in Hsort as (vs & items & js & Hvs & Hitems & Hjs & Htake).
  assert (vs = map (fun s => Num s) ss) as -> by congruence.
  rewrite mapM_as_float_Num in Hitems. injection Hitems as <-.
  pose proof (nargsort_descending _ _ _ Hsorts Hjs) as Ejs.
  pose proof (sorts_Permutation _ _ Hsorts) as Hperm. rewrite length_reverse in Hperm.
  set (perm := argsort (reverse ss)) in *.
  exists js. split.
  { rewrite Ejs, <- Hlen. by apply flip_Permutation. }
  pose proof (take_rows_Ok _ _ _ Htake) as [Hlenp Hrows].
  split; [done|]. split.
  { intros i j Hj. destruct (Hrows i j Hj) as (Hlt & Hidx & Hcells).
    split; [done|]. intros c. specialize (Hcells c). unfold cell at 2.
    destruct (assoc c (columns sel)) eqn:E; [|done].
    destruct Hcells as [_ ->]. unfold cell. by rewrite E. }
  intros i i' s s' Hlt Hs Hs'.
  destruct (take_rows_cell _ _ _ _ _ _ Htake Hs) as (j & Hj & Hcj).
  destruct (take_rows_cell _ _ _ _ _ _ Htake Hs') as (j' & Hj' & Hcj').
  unfold cell in Hcj, Hcj'. rewrite Hinv in Hcj, Hcj'. simpl in Hcj, Hcj'.
  rewrite list_lookup_fmap in Hcj, Hcj'.
  destruct (ss !! j) as [t|] eqn:Et; [|done]. injection Hcj as ->.
  destruct (ss !! j') as [t'|] eqn:Et'; [|done]. injection Hcj' as ->.
  assert (length js = length perm) as Ljs
    by (by rewrite Ejs, length_reverse, length_map).
  assert (i' < length js)%nat as Hi' by (by eapply lookup_lt_Some).
  rewrite Ejs in Hj, Hj'.
  rewrite reverse_lookup, length_map, list_lookup_fmap in Hj, Hj'
    by (rewrite length_map; lia).
  destruct (perm !! (length perm - S i)%nat) as [a|] eqn:Ea; [|done].
  destruct (perm !! (length perm - S i')%nat) as [a'|] eqn:Ea'; [|done].
  injection Hj as <-. injection Hj' as <-.
  assert (a < length ss)%nat as Ha.
  { apply list_elem_of_lookup_2 in Ea. rewrite Hperm in Ea.
    apply elem_of_seq in Ea. lia. }
  assert (a' < length ss)%nat as Ha'.
  { apply list_elem_of_lookup_2 in Ea'. rewrite Hperm in Ea'.
    apply elem_of_seq in Ea'. lia. }
  unfold sorts in Hsorts. apply andb_true_iff in Hsorts as [_ Hasc].
  pose proof (ascending_along_lookup _ _ (length perm - S i') (length perm - S i)
                a' a Hasc) as Hle.
  rewrite (nth_reverse_flip ss a' s' Ha' Et'), (nth_reverse_flip ss a s Ha Et) in Hle.
  apply Hle; [lia | done | done].
Qed.

Lemma recommendations_sorted_descending_witness :
  exists d sel p,
    investment_score 0 [tied_rows] = Ok (tt, [d]) /\
    survivors d = Ok sel /\
    promising_countries Npy.argsort 0 [d] = Ok (p, [d]) /\
    exists js,
      js ≡ₚ seq 0 (length (index sel)) /\
      length (index p) = length js /\
      (forall i j, js !! i = Some j ->
         index p !! i = index sel !! j /\ forall c, cell p c i = cell sel c j) /\
      (forall i i' s s', (i < i')%nat ->
         cell p INVESTMENT i = Some (Num s) -> cell p INVESTMENT i' = Some (Num s') ->
         s' <= s).
Proof.
  do 3 eexists. split; [vm_compute; reflexivity|].
  match goal with
  | |- survivors ?d0 = _ /\ _ =>
      split; [vm_compute; reflexivity|]; split; [vm_compute; reflexivity|];
      eapply (recommendations_sorted_descending Npy.argsort 0%nat d0 _ _ [d0] [d0])
  end.
  - reflexivity.
  - repeat constructor.
  - vm_compute; reflexivity.
  - vm_compute; reflexivity.
  - vm_compute; reflexivity.
Defined.

(** The claim as worded fails with numpy's quicksort on [tied_rows]: rows 2
    and 16 have the same Investment Score and row 2 comes first in the
    snapshot, yet the recommendation list has row 16 before row 2. *)
Lemma quicksort_reorders_ties :
  exists d p,
    investment_score 0 [tied_rows] = Ok (tt, [d]) /\
    promising_countries Npy.argsort 0 [d] = Ok (p, [d]) /\
    index p = [0; 1; 16; 15; 14; 13; 12; 11; 10; 9; 8; 7; 6; 5; 4; 3; 2; 17]%nat /\
    cell d INVESTMENT 2 = cell d INVESTMENT 16 /\
    ~ ties_keep_order d p.
Proof.
  do 2 eexists. split; [vm_compute; reflexivity|].
  split; [vm_compute; reflexivity|]. split; [reflexivity|]. split; [reflexivity|].
  intros Hstable.
  assert (16 < 2)%nat; [|lia].
  eapply (Hstable 2%nat 16%nat 2%nat 16%nat _ _ 16%nat 2%nat);
    [lia | reflexivity..].
Qed.
(** * The rest of the script *)

(** ** The loader: what it needs and what it leaves alone *)

Lemma run_bind_Err {A B : Type} (m : M A) (f : A -> M B) (h : heap) (e : exn) :
  m h = Err e -> (m ≫= f) h = Err e.
Proof. intros H. unfold mbind, M_bind. by rewrite H. Qed.

Lemma col_KeyError (l : loc) (c : string) (d : DataFrame) (h : heap) :
  h !! l = Some d -> assoc c (columns d) = None -> col l c h = Err KeyError.
Proof.
  intros Hd Hc. unfold col, mbind, M_bind, get, lift, getitem. by rewrite Hd, Hc.
Qed.

Lemma coerce_stmt_KeyError (parse : string -> option float) (df : loc) (c : string)
    (d : DataFrame) (h : heap) :
  h !! df = Some d -> assoc c (columns d) = None ->
  (col df c ≫= fun s => lift (to_numeric parse Coerce s) ≫= fun s' => setcol df c s') h
  = Err KeyError.
Proof. intros Hd Hc. apply run_bind_Err. by eapply col_KeyError. Qed.

(** The loop of lines 16-17 stops with a [KeyError] at the first of the
    three columns that the file does not have. *)
Lemma coerce_numeric_cols_KeyError (parse : string -> option float) (df : loc)
    (d : DataFrame) (h : heap) (c : string) :
  h !! df = Some d -> c ∈ numeric_cols -> assoc c (columns d) = None ->
  coerce_numeric_cols parse df h = Err KeyError.
Proof.
  intros Hd Hc Hnone.
  assert (df < length h)%nat as Hlt by (by eapply lookup_lt_Some).
  unfold coerce_numeric_cols, numeric_cols. simpl.
  destruct (assoc RENEWABLE (columns d)) as [o1|] eqn:E1; cycle 1.
  { apply run_bind_Err. by eapply coerce_stmt_KeyError. }
  rewrite (run_bind _ _ _ _ _ (coerce_stmt_run parse _ _ _ _ _ Hd E1)).
  apply run_bind_Err.
  destruct (assoc GDP (columns d)) as [o2|] eqn:E2; cycle 1.
  { apply run_bind_Err. eapply coerce_stmt_KeyError;
      [by apply list_lookup_insert_eq|]. simpl. by rewrite assoc_assign_ne by col_ne. }
  erewrite run_bind; cycle 1.
  { apply coerce_stmt_run; [by apply list_lookup_insert_eq|].
    simpl. by rewrite assoc_assign_ne by col_ne. }
  apply run_bind_Err.
  destruct (assoc CO2 (columns d)) as [o3|] eqn:E3; cycle 1.
  { apply run_bind_Err. eapply coerce_stmt_KeyError;
      [apply list_lookup_insert_eq; by rewrite length_insert|].
    simpl. by rewrite !assoc_assign_ne by col_ne. }
  unfold numeric_cols in Hc.
  repeat (apply elem_of_cons in Hc as [->|Hc]); [congruence..|].
  by apply elem_of_nil in Hc.
Qed.

(** A column the loader does not write is in [df] as it is in the file. *)
Lemma assoc_coerced (parse : string -> option float) (cols : list (string * list value))
    (o1 o2 o3 : list value) (c : string) :
  c ∉ numeric_cols ->
  assoc c (assign CO2 (map (coerce_value parse) o3)
             (assign GDP (map (coerce_value parse) o2)
                (assign RENEWABLE (map (coerce_value parse) o1) cols)))
  = assoc c cols.
Proof.
  intros Hc. unfold numeric_cols in Hc.
  rewrite !assoc_assign_ne; [done|..]; intros <-; apply Hc; repeat constructor.
Qed.

Lemma load_data_KeyError (parse : string -> option float) (file : csv_file)
    (h : heap) (c : string) :
  c ∈ [RENEWABLE; GDP; CO2; YEAR] -> assoc c (fields file) = None ->
  load_data parse file h = Err KeyError.
Proof.
  intros Hc Hnone. unfold load_data.
  rewrite (run_bind (new (read_csv file)) _ h (h ++ [read_csv file]) (length h) eq_refl).
  destruct (decide (c ∈ numeric_cols)) as [Hn|Hn].
  { apply run_bind_Err.
    by eapply coerce_numeric_cols_KeyError; [apply lookup_snoc|done|]. }
  assert (c = YEAR) as ->.
  { unfold numeric_cols in Hn.
    repeat (apply elem_of_cons in Hc as [->|Hc]);
      [exfalso; apply Hn; repeat constructor..|done|by apply elem_of_nil in Hc]. }
  destruct (assoc RENEWABLE (fields file)) as [o1|] eqn:E1; cycle 1.
  { apply run_bind_Err.
    eapply (coerce_numeric_cols_KeyError _ _ _ _ RENEWABLE);
      [apply lookup_snoc|repeat constructor|done]. }
  destruct (assoc GDP (fields file)) as [o2|] eqn:E2; cycle 1.
  { apply run_bind_Err.
    eapply (coerce_numeric_cols_KeyError _ _ _ _ GDP);
      [apply lookup_snoc|repeat constructor|done]. }
  destruct (assoc CO2 (fields file)) as [o3|] eqn:E3; cycle 1.
  { apply run_bind_Err.
    eapply (coerce_numeric_cols_KeyError _ _ _ _ CO2);
      [apply lookup_snoc|repeat constructor|done]. }
  erewrite run_bind; cycle 1.
  { by apply (coerce_numeric_cols_run parse _ (read_csv file) o1 o2 o3);
      [apply lookup_snoc|..]. }
  rewrite insert_snoc. apply run_bind_Err.
  eapply col_KeyError; [apply lookup_snoc|]. simpl.
  by rewrite assoc_coerced.
Qed.

(** The loader returns only on a file that has the six columns it reads. *)
Lemma load_data_columns (parse : string -> option float) (file : csv_file)
    (r : loc * loc * float) (h h' : heap) (c : string) :
  load_data parse file h = Ok (r, h') ->
  c ∈ [RENEWABLE; GDP; CO2; YEAR; ACCESS; INTENSITY] ->
  is_Some (assoc c (fields file)).
Proof.
  destruct r as [[df latest] y]. intros H Hc.
  destruct (load_data_Ok _ _ _ _ _ _ _ H)
    as (o1 & o2 & o3 & yv & full & sel & score & -> & -> & Ho1 & Ho2 & Ho3 &
        Hfull & Hyv & Hmax & Hsel & Hscore & ->).
  assert ((h ++ [full; sel]) !! S (length h) = Some sel) as Hl.
  { rewrite lookup_app_r by lia.
    by replace (S (length h) - length h)%nat with 1%nat by lia. }
  destruct (sustainability_score_Ok _ _ _ _ _ Hl Hscore)
    as (_ & _ & vr & va & ve & _ & Hva & Hve & _).
  unfold getitem_mask in Hsel. destruct (decide _) in Hsel; [|done].
  injection Hsel as <-. simpl in Hva, Hve. rewrite assoc_map in Hva, Hve.
  subst full. simpl in *.
  rewrite assoc_coerced in Hyv, Hva, Hve
    by (unfold numeric_cols; intros Hin;
        repeat (apply elem_of_cons in Hin as [Hin|Hin]; [revert Hin; col_ne|]);
        by apply elem_of_nil in Hin).
  repeat (apply elem_of_cons in Hc as [->|Hc]); [..|by apply elem_of_nil in Hc];
    try (by eexists).
  - destruct (assoc ACCESS (fields file)); [by eexists|done].
  - destruct (assoc INTENSITY (fields file)); [by eexists|done].
Qed.

(** ** X1: a file without one of the columns the loader reads *)

(** X1.  If the file lacks one of the six columns the loader reads (the
    three coerced ones, Year, electricity access, energy intensity), the
    loader raises; for the three coerced columns and Year the exception is a
    [KeyError]. *)
Theorem loader_rejects_missing_column (parse : string -> option float)
    (file : csv_file) (h : heap) (c : string) :
  c ∈ [RENEWABLE; GDP; CO2; YEAR; ACCESS; INTENSITY] ->
  assoc c (fields file) = None ->
  exists e, load_data parse file h = Err e /\
            (c ∈ [RENEWABLE; GDP; CO2; YEAR] -> e = KeyError).
Proof.
  intros Hc Hnone.
  destruct (decide (c ∈ [RENEWABLE; GDP; CO2; YEAR])) as [Hk|Hk].
  { exists KeyError. split; [by eapply load_data_KeyError|done]. }
  destruct (load_data parse file h) as [[r h']|e] eqn:E.
  - destruct (load_data_columns _ _ _ _ _ _ E Hc) as [vs Hvs]. congruence.
  - exists e. split; [done|]. intros Hin. by destruct Hk.
Qed.

Lemma loader_rejects_missing_column_witness :
  exists e, load_data parse_decimal
              (mkCsv 1 [(YEAR, [Num 2020]); (RENEWABLE, [Num 1]); (CO2, [Num 1])]) []
            = Err e /\
            (GDP ∈ [RENEWABLE; GDP; CO2; YEAR] -> e = KeyError).
Proof.
  apply loader_rejects_missing_column; [repeat constructor | reflexivity].
Defined.
Lemma assign_names {A : Type} (c : string) (v o : A) (cols : list (string * A)) :
  assoc c cols = Some o -> (assign c v cols).*1 = cols.*1.
Proof.
  induction cols as [|[c' v'] cols IH]; simpl; [done|].
  destruct (decide (c' = c)) as [->|Hne]; simpl; [done|].
  intros H. f_equal. by apply IH.
Qed.

(** A cell of [df] after lines 16-17, from the cell of the file. *)
Lemma cell_coerced (parse : string -> option float) (idx : list nat)
    (cols : list (string * list value)) (o1 o2 o3 : list value) (c : string) (i : nat) :
  assoc RENEWABLE cols = Some o1 -> assoc GDP cols = Some o2 ->
  assoc CO2 cols = Some o3 ->
  cell (mkFrame idx
          (assign CO2 (map (coerce_value parse) o3)
             (assign GDP (map (coerce_value parse) o2)
                (assign RENEWABLE (map (coerce_value parse) o1) cols)))) c i
  = if decide (c ∈ numeric_cols)
    then coerce_value parse <$> cell (mkFrame idx cols) c i
    else cell (mkFrame idx cols) c i.
Proof.
  intros H1 H2 H3. destruct (decide (c ∈ numeric_cols)) as [Hc|Hc].
  - unfold cell. simpl. unfold numeric_cols in Hc.
    repeat (apply elem_of_cons in Hc as [->|Hc]); [..|by apply elem_of_nil in Hc].
    + rewrite !assoc_assign_ne, assoc_assign_eq, H1 by col_ne. simpl.
      by rewrite list_lookup_fmap.
    + rewrite !assoc_assign_ne, assoc_assign_eq, H2 by col_ne. simpl.
      by rewrite list_lookup_fmap.
    + rewrite assoc_assign_eq, H3. simpl. by rewrite list_lookup_fmap.
  - unfold cell. simpl. by rewrite assoc_coerced.
Qed.

(** ** X2: the cells the loader rewrites *)

(** X2.  In the table [df] that the loader returns, the rows are numbered
    0, 1, ... and the columns are those of the file, in the file's order; a
    column outside the three coerced ones is as parsed; a cell that already
    holds a number or a missing value is never altered; and a text cell of a
    coerced column that [pd.to_numeric] reads as a number holds that
    number. *)
Theorem loader_rewrites_only_text (parse : string -> option float) (file : csv_file)
    (df latest : loc) (y : float) (h h' : heap) :
  load_data parse file h = Ok ((df, latest, y), h') ->
  exists full,
    h' !! df = Some full /\
    index full = seq 0 (nrows file) /\
    (columns full).*1 = (fields file).*1 /\
    (forall c i, c ∉ numeric_cols -> cell full c i = cell (read_csv file) c i) /\
    (forall c i x, cell (read_csv file) c i = Some (Flt x) ->
                   cell full c i = Some (Flt x)) /\
    (forall c i s x, c ∈ numeric_cols ->
                     cell (read_csv file) c i = Some (Str s) -> parse s = Some x ->
                     cell full c i = Some (Flt x)).
Proof.
  intros H.
  apply load_data_Ok in H
    as (o1 & o2 & o3 & yv & full & sel & score & -> & -> & Ho1 & Ho2 & Ho3 &
        Hfull & _ & _ & _ & _ & ->).
  exists full. split; [by rewrite lookup_app_r, Nat.sub_diag by lia|].
  subst full. split; [done|]. split.
  { simpl. rewrite (assign_names _ _ o3), (assign_names _ _ o2), (assign_names _ _ o1);
      [done|done|..]; by rewrite ?assoc_assign_ne by col_ne. }
  unfold read_csv.
  split; [|split].
  - intros c i Hc. rewrite (cell_coerced _ _ _ o1 o2 o3) by done.
    by rewrite decide_False.
  - intros c i x Hx. rewrite (cell_coerced _ _ _ o1 o2 o3) by done.
    destruct (decide _); [|done]. by rewrite Hx.
  - intros c i s x Hc Hs Hp. rewrite (cell_coerced _ _ _ o1 o2 o3) by done.
    rewrite decide_True, Hs by done. simpl. by rewrite Hp.
Qed.

Lemma loader_rewrites_only_text_witness :
  exists h',
    load_data parse_decimal sample_file [] = Ok ((0%nat, 1%nat, Some 2020), h') /\
    exists full,
      h' !! 0%nat = Some full /\
      index full = seq 0 (nrows sample_file) /\
      (columns full).*1 = (fields sample_file).*1 /\
      (forall c i, c ∉ numeric_cols ->
                   cell full c i = cell (read_csv sample_file) c i) /\
      (forall c i x, cell (read_csv sample_file) c i = Some (Flt x) ->
                     cell full c i = Some (Flt x)) /\
      (forall c i s x, c ∈ numeric_cols ->
                       cell (read_csv sample_file) c i = Some (Str s) ->
                       parse_decimal s = Some x ->
                       cell full c i = Some (Flt x)).
Proof.
  eexists. split; [vm_compute; reflexivity|].
  apply (loader_rewrites_only_text parse_decimal sample_file 0%nat 1%nat (Some 2020) []).
  vm_compute. reflexivity.
Defined.

(** ** X3: a file in which no row has a year *)






(** ** The scorer: what it needs, what it writes, and its order *)

Lemma investment_score_Ok (l : loc) (u : unit) (h h' : heap) :
  investment_score l h = Ok (u, h') ->
  exists d s,
    h !! l = Some d /\ index d <> [] /\
    (forall c, c ∈ scored_cols -> is_Some (assoc c (columns d))) /\
    sindex s = index d /\
    h' = <[l := mkFrame (index d) (assign INVESTMENT (svalues s) (columns d))]> h.
Proof.
  intros H. unfold investment_score in H.
  stepM H as factors h1 Hf. unfold investment_factors in Hf.
  stepM Hf as d h0 Hg. apply get_Ok in Hg as [Hd ->].
  stepM Hf as sel h2 Hsel. apply lift_Ok in Hsel as [Hsel ->].
  apply M_ret_Ok in Hf as [-> ->].
  stepM H as scaled h3 Hsc. apply lift_Ok in Hsc as [Hsc ->].
  stepM H as s h4 Hw. apply lift_Ok in Hw as [Hw ->].
  apply setcol_Ok in H as (d' & Hd' & Hidx & ->).
  assert (d' = d) as -> by congruence.
  exists d, s. split; [done|].
  unfold getitem_cols in Hsel. stepR Hsel as cols Hcols. injection Hsel as <-.
  split.
  { unfold investment_factors_scaled, fit_transform in Hsc. simpl in Hsc.
    by destruct (index d). }
  split; [|done].
  simpl in Hcols.
  destruct (assoc ACCESS (columns d)) as [va|] eqn:Ea; [|done].
  destruct (assoc RENEWABLE (columns d)) as [vr|] eqn:Er; [|done].
  destruct (assoc GDP (columns d)) as [vg|] eqn:Eg; [|done].
  destruct (assoc CAPACITY (columns d)) as [vc|] eqn:Ec; [|done].
  intros c Hc. unfold scored_cols in Hc.
  repeat (apply elem_of_cons in Hc as [->|Hc]); [..|by apply elem_of_nil in Hc];
    by eexists.
Qed.

(** X4.  When the scorer returns, the snapshot had at least one row and the
    four scored columns; afterwards it has the same row labels, every cell
    outside the Investment Score column is as before, and no other object
    of the store has changed. *)
Theorem scorer_writes_only_the_score (l : loc) (u : unit) (h h' : heap) :
  investment_score l h = Ok (u, h') ->
  exists d d',
    h !! l = Some d /\ h' !! l = Some d' /\
    index d <> [] /\
    (forall c, c ∈ scored_cols -> is_Some (assoc c (columns d))) /\
    index d' = index d /\
    is_Some (assoc INVESTMENT (columns d')) /\
    (forall c i, c <> INVESTMENT -> cell d' c i = cell d c i) /\
    (forall l', l' <> l -> h' !! l' = h !! l').
Proof.
  intros H. apply investment_score_Ok in H as (d & s & Hd & Hne & Hcols & Hidx & ->).
  assert (l < length h)%nat as Hlt by (by eapply lookup_lt_Some).
  exists d. eexists. split; [done|]. split; [by apply list_lookup_insert_eq|].
  do 2 (split; [done|]). split; [done|]. split; [simpl; by rewrite assoc_assign_eq|]. split.
  - intros c i Hc. rewrite cell_assign_ne by done. by destruct d.
  - intros l' Hl'. by rewrite list_lookup_insert_ne.
Qed.

Lemma scorer_writes_only_the_score_witness :
  exists h',
    investment_score 0 [two_rows] = Ok (tt, h') /\
    exists d d',
      [two_rows] !! 0%nat = Some d /\ h' !! 0%nat = Some d' /\
      index d <> [] /\
      (forall c, c ∈ scored_cols -> is_Some (assoc c (columns d))) /\
      index d' = index d /\
      is_Some (assoc INVESTMENT (columns d')) /\
      (forall c i, c <> INVESTMENT -> cell d' c i = cell d c i) /\
      (forall l', l' <> 0%nat -> h' !! l' = [two_rows] !! l').
Proof.
  eexists. split; [vm_compute; reflexivity|].
  apply (scorer_writes_only_the_score 0%nat tt [two_rows]).
  vm_compute. reflexivity.
Defined.

Lemma normalized_denominator (lo hi : Q) :
  0 < (if Qltb (hi - lo) (10 * eps) then 1 else hi - lo).
Proof.
  destruct (Qltb (hi - lo) (10 * eps)) eqn:E; [reflexivity|].
  apply Qltb_ge in E. pose proof eps_pos. lra.
Qed.

Lemma normalized_le (lo hi q q' : Q) :
  q <= q' -> normalized lo hi q <= normalized lo hi q'.
Proof.
  intros Hq. unfold normalized, Qdiv.
  apply Qmult_le_compat_r; [lra|].
  apply Qlt_le_weak, Qinv_lt_0_compat, normalized_denominator.
Qed.

Lemma normalized_lt (lo hi q q' : Q) :
  q < q' -> normalized lo hi q < normalized lo hi q'.
Proof.
  intros Hq. unfold normalized, Qdiv.
  apply Qmult_lt_compat_r; [|lra].
  apply Qinv_lt_0_compat, normalized_denominator.
Qed.

(** The normalised values of two rows of one column stand in the order of
    their inputs. *)
Lemma scaled_col_order (d : DataFrame) (c : string) (vs : list value) (zs : list Q)
    (i j : nat) (zi zj : Q) :
  assoc c (columns d) = Some vs -> scaled_col vs zs ->
  zs !! i = Some zi -> zs !! j = Some zj ->
  (forall qi qj, input_at d c i qi -> input_at d c j qj -> qi <= qj -> zi <= zj) /\
  (forall qi qj, input_at d c i qi -> input_at d c j qj -> qi < qj -> zi < zj).
Proof.
  intros Hvs (lo & hi & Hmin & Hmax & Hall) Hi Hj.
  destruct (Forall2_lookup_r _ _ _ _ _ Hall Hi) as (qi' & Hqi & Ei).
  destruct (Forall2_lookup_r _ _ _ _ _ Hall Hj) as (qj' & Hqj & Ej).
  split; intros qi qj (vs1 & Hvs1 & Hqi1) (vs2 & Hvs2 & Hqj2) Hle;
    assert (vs1 = vs) as -> by congruence; assert (vs2 = vs) as -> by congruence;
    assert (qi' = qi) as -> by congruence; assert (qj' = qj) as -> by congruence;
    rewrite Ei, Ej.
  - by apply normalized_le.
  - by apply normalized_lt.
Qed.

(** ** X5: the score respects dominance *)

(** X5.  In exact arithmetic, on a scorable snapshot: if row [j] is at least
    as good as row [i] in each of the four inputs (a missing input read as
    0), its Investment Score is at least that of row [i]; if it is moreover
    strictly better in one of them, its score is strictly higher. *)
Theorem investment_score_monotone (l : loc) (d : DataFrame) (h : heap) (i j : nat) :
  h !! l = Some d -> scorable d = true ->
  (forall c, c ∈ scored_cols ->
     exists qi qj, input_at d c i qi /\ input_at d c j qj /\ qi <= qj) ->
  exists d' si sj,
    investment_score l h = Ok (tt, <[l := d']> h) /\
    cell d' INVESTMENT i = Some (Num si) /\
    cell d' INVESTMENT j = Some (Num sj) /\
    si <= sj /\
    ((exists c qi qj, c ∈ scored_cols /\ input_at d c i qi /\ input_at d c j qj /\
                      qi < qj) -> si < sj).
Proof.
  intros Hd Hsc Hdom. pose proof (wf_frame_scorable _ Hsc) as Hwf.
  destruct (scorer_run l d h Hd Hsc)
    as (va & vr & vg & vc & za & zr & zg & zc & Ha & Hr & Hg & Hc &
        Sa & Sr & Sg & Sc & Hfac & Hscaled & Hrun).
  assert (forall k q c, input_at d c k q -> (k < length (index d))%nat) as Hrow.
  { intros k q c (vs & Hvs & Hq). apply lookup_lt_Some in Hq.
    rewrite length_filled_col, (wf_frame_assoc _ _ _ Hwf Hvs) in Hq. done. }
  assert (ACCESS ∈ scored_cols) as Ia by (unfold scored_cols; repeat constructor).
  assert (RENEWABLE ∈ scored_cols) as Ir by (unfold scored_cols; repeat constructor).
  assert (GDP ∈ scored_cols) as Ig by (unfold scored_cols; repeat constructor).
  assert (CAPACITY ∈ scored_cols) as Ic by (unfold scored_cols; repeat constructor).
  destruct (Hdom _ Ia) as (ai & aj & Hai & Haj & Hale).
  destruct (Hdom _ Ir) as (ri & rj & Hri & Hrj & Hrle).
  destruct (Hdom _ Ig) as (gi & gj & Hgi & Hgj & Hgle).
  destruct (Hdom _ Ic) as (ci & cj & Hci & Hcj & Hcle).
  pose proof (Hrow _ _ _ Hai) as Hi. pose proof (Hrow _ _ _ Haj) as Hj.
  destruct (scaled_rows _ _ _ _ _ _ _ _ _ i Hwf Ha Hr Hg Hc Sa Sr Sg Sc Hi)
    as (a & r & g & c & Ea & Er & Eg & Ec).
  destruct (scaled_rows _ _ _ _ _ _ _ _ _ j Hwf Ha Hr Hg Hc Sa Sr Sg Sc Hj)
    as (a' & r' & g' & c' & Ea' & Er' & Eg' & Ec').
  destruct (scaled_col_order d _ _ _ i j _ _ Ha Sa Ea Ea') as [La Ta].
  destruct (scaled_col_order d _ _ _ i j _ _ Hr Sr Er Er') as [Lr Tr].
  destruct (scaled_col_order d _ _ _ i j _ _ Hg Sg Eg Eg') as [Lg Tg].
  destruct (scaled_col_order d _ _ _ i j _ _ Hc Sc Ec Ec') as [Lc Tc].
  pose proof (La _ _ Hai Haj Hale). pose proof (Lr _ _ Hri Hrj Hrle).
  pose proof (Lg _ _ Hgi Hgj Hgle). pose proof (Lc _ _ Hci Hcj Hcle).
  do 3 eexists. split; [done|].
  rewrite !cell_assign_eq, !list_lookup_fmap.
  rewrite (weighted_lookup _ _ _ _ _ _ _ _ _ Ea Er Eg Ec).
  rewrite (weighted_lookup _ _ _ _ _ _ _ _ _ Ea' Er' Eg' Ec'). simpl.
  do 2 (split; [done|]). split; [lra|].
  intros (c0 & qi & qj & Hc0 & Hqi & Hqj & Hlt). unfold scored_cols in Hc0.
  repeat (apply elem_of_cons in Hc0 as [->|Hc0]); [..|by apply elem_of_nil in Hc0].
  - pose proof (Ta _ _ Hqi Hqj Hlt). lra.
  - pose proof (Tr _ _ Hqi Hqj Hlt). lra.
  - pose proof (Tg _ _ Hqi Hqj Hlt). lra.
  - pose proof (Tc _ _ Hqi Hqj Hlt). lra.
Qed.

Lemma investment_score_monotone_witness :
  exists d' si sj,
    investment_score 0 [two_rows] = Ok (tt, <[0%nat := d']> [two_rows]) /\
    cell d' INVESTMENT 1 = Some (Num si) /\
    cell d' INVESTMENT 0 = Some (Num sj) /\
    si <= sj /\
    ((exists c qi qj, c ∈ scored_cols /\ input_at two_rows c 1 qi /\
                      input_at two_rows c 0 qj /\ qi < qj) -> si < sj).
Proof.
  apply (investment_score_monotone 0%nat two_rows [two_rows] 1%nat 0%nat);
    [reflexivity | reflexivity |].
  intros c Hc. unfold scored_cols in Hc.
  repeat (apply elem_of_cons in Hc as [->|Hc]); [..|by apply elem_of_nil in Hc];
    do 2 eexists;
    (split; [eexists; split; reflexivity|]);
    (split; [eexists; split; reflexivity|]);
    unfold Qle; simpl; lia.
Defined.
(** ** Rows of one frame in another *)

Lemma elem_of_mpos (m : list bool) (j : nat) : j ∈ mpos m <-> m !! j = Some true.
Proof.
  split.
  - intros [i Hi]%list_elem_of_lookup_1. by eapply mpos_lookup.
  - intros [i Hi]%mpos_complete. by eapply list_elem_of_lookup_2.
Qed.

Lemma mpos_in_order (m : list bool) : in_order (mpos m).
Proof. intros i i' j j'. apply mpos_increasing. Qed.

Lemma in_order_NoDup (js : list nat) : in_order js -> NoDup js.
Proof.
  intros Hord. apply NoDup_alt. intros i i' j Hi Hi'.
  destruct (Nat.lt_trichotomy i i') as [Hlt|[->|Hlt]]; [|done|].
  - pose proof (Hord _ _ _ _ Hlt Hi Hi'). lia.
  - pose proof (Hord _ _ _ _ Hlt Hi' Hi). lia.
Qed.

(** [d[mask]] holds the rows of [d] where the mask is true. *)
Lemma getitem_mask_rows (d sel : DataFrame) (m : BoolSeries) :
  wf_frame d -> length (bvalues m) = length (index d) ->
  getitem_mask d m = Ok sel ->
  rows_at d sel (mpos (bvalues m)).
Proof.
  intros Hwf Hlen H. unfold getitem_mask in H. destruct (decide _) in H; [|done].
  injection H as <-. split; simpl.
  { by apply length_mfilter_mpos. }
  intros i j Hj. pose proof (mpos_lookup _ _ _ Hj) as Hbit.
  split; [rewrite <- Hlen; by eapply lookup_lt_Some|].
  split; [rewrite mfilter_lookup by done; by rewrite Hj|].
  intros c. unfold cell. simpl. rewrite assoc_map.
  destruct (assoc c (columns d)) as [vs|] eqn:E; [|done]. simpl.
  rewrite mfilter_lookup by (by rewrite Hlen, (wf_frame_assoc _ _ _ Hwf E)).
  by rewrite Hj.
Qed.

Lemma take_rows_rows_at (d p : DataFrame) (js : list nat) :
  take_rows d js = Ok p -> rows_at d p js.
Proof.
  intros [Hlen Hrows]%take_rows_Ok. split; [done|].
  intros i j Hj. destruct (Hrows i j Hj) as (Hlt & Hidx & Hcells).
  do 2 (split; [done|]). intros c. specialize (Hcells c). unfold cell at 2.
  destruct (assoc c (columns d)) as [vs|] eqn:E; [|done].
  destruct Hcells as [_ ->]. unfold cell. by rewrite E.
Qed.

(** Rows of rows. *)
Lemma rows_at_compose (d sel p : DataFrame) (js1 js0 : list nat) :
  rows_at d sel js1 -> rows_at sel p js0 ->
  exists js, rows_at d p js /\ Forall2 (fun i0 j => js1 !! i0 = Some j) js0 js.
Proof.
  intros [L1 R1] [L0 R0].
  assert (forall i0, i0 ∈ js0 -> is_Some (js1 !! i0)) as Hsome.
  { intros i0 [i Hi]%list_elem_of_lookup_1. destruct (R0 i i0 Hi) as (Hlt & _).
    apply lookup_lt_is_Some. lia. }
  exists (map (fun i0 => default 0%nat (js1 !! i0)) js0).
  assert (Forall2 (fun i0 j => js1 !! i0 = Some j) js0
            (map (fun i0 => default 0%nat (js1 !! i0)) js0)) as HF.
  { clear -Hsome. induction js0 as [|i0 js0 IH]; simpl; constructor.
    - destruct (Hsome i0) as [j ->]; [left|done].
    - apply IH. intros i1 Hi1. apply Hsome. by right. }
  split; [|done]. split; [by rewrite length_map|].
  intros i j Hj. rewrite list_lookup_fmap in Hj.
  destruct (js0 !! i) as [i0|] eqn:Hi0; [|done]. simpl in Hj.
  destruct (Hsome i0) as [j' Hj']; [by eapply list_elem_of_lookup_2|].
  rewrite Hj' in Hj. simpl in Hj. injection Hj as <-.
  destruct (R0 i i0 Hi0) as (_ & Hidx0 & Hc0).
  destruct (R1 i0 j' Hj') as (Hlt & Hidx1 & Hc1).
  split; [done|]. split; [congruence|]. intros c. by rewrite Hc0, Hc1.
Qed.
(** ** The selector: exactly the passing rows *)

(** The mask of lines 154-156, bit by bit. *)
Lemma promising_bits_passes (d : DataFrame) (vi vg vr : list value)
    (xi xg xr : list float) (j : nat) (b : bool) :
  assoc INVESTMENT (columns d) = Some vi ->
  assoc GDP (columns d) = Some vg ->
  assoc RENEWABLE (columns d) = Some vr ->
  mapM (as_float TypeError) vi = Ok xi ->
  mapM (as_float TypeError) vg = Ok xg ->
  mapM (as_float TypeError) vr = Ok xr ->
  promising_bits xi xg xr !! j = Some b -> b = passes d j.
Proof.
  intros Hvi Hvg Hvr Hxi Hxg Hxr H. unfold promising_bits in H.
  apply lookup_zip_with_Some in H as (b12 & b3 & -> & H12 & H3).
  apply lookup_zip_with_Some in H12 as (b1 & b2 & -> & H1 & H2).
  rewrite list_lookup_fmap in H1, H2, H3.
  destruct (xi !! j) as [s|] eqn:Es; [|done].
  destruct (xg !! j) as [g|] eqn:Eg; [|done].
  destruct (xr !! j) as [r|] eqn:Er; [|done].
  simpl in *. injection H1 as <-. injection H2 as <-. injection H3 as <-.
  unfold passes, cell. rewrite Hvi, Hvg, Hvr. simpl.
  by rewrite (as_float_lookup _ _ _ _ _ Hxi Es), (as_float_lookup _ _ _ _ _ Hxg Eg),
    (as_float_lookup _ _ _ _ _ Hxr Er).
Qed.

(** The survivors are the rows of the snapshot that pass, in snapshot
    order. *)
Lemma survivors_rows (d sel : DataFrame) :
  wf_frame d -> survivors d = Ok sel ->
  exists js, rows_at d sel js /\ in_order js /\
    forall j, j ∈ js <-> (j < length (index d))%nat /\ passes d j = true.
Proof.
  intros Hwf H.
  apply survivors_Ok in H
    as (vi & vg & vr & xi & xg & xr & Hvi & Hvg & Hvr & Hxi & Hxg & Hxr & ->).
  set (mask := promising_bits xi xg xr) in *.
  assert (length mask = length (index d)) as Lmask.
  { apply length_promising_bits.
    - by rewrite (mapM_Ok_length _ _ _ Hxi), (wf_frame_assoc _ _ _ Hwf Hvi).
    - by rewrite (mapM_Ok_length _ _ _ Hxg), (wf_frame_assoc _ _ _ Hwf Hvg).
    - by rewrite (mapM_Ok_length _ _ _ Hxr), (wf_frame_assoc _ _ _ Hwf Hvr). }
  exists (mpos mask). split.
  { apply (getitem_mask_rows d _ (mkBoolSeries (index d) mask)); [done..|].
    unfold getitem_mask. simpl. by rewrite decide_True. }
  split; [apply mpos_in_order|].
  intros j. rewrite elem_of_mpos. split.
  - intros Hj. split; [rewrite <- Lmask; by eapply lookup_lt_Some|].
    symmetry. by eapply promising_bits_passes.
  - intros [Hlt Hp]. rewrite <- Lmask in Hlt.
    apply lookup_lt_is_Some in Hlt as [b Hb].
    pose proof (promising_bits_passes _ _ _ _ _ _ _ _ _ Hvi Hvg Hvr Hxi Hxg Hxr Hb) as E.
    rewrite Hb. congruence.
Qed.

(** The sort takes the survivors at a permutation of their positions. *)
Lemma promising_countries_perm (argsort : list Q -> list nat) (l : loc)
    (d sel p : DataFrame) (h h' : heap) :
  h !! l = Some d -> wf_frame d ->
  survivors d = Ok sel ->
  promising_countries argsort l h = Ok (p, h') ->
  sorts (reverse (scores_of sel)) (argsort (reverse (scores_of sel))) = true ->
  h' = h /\
  exists js, js ≡ₚ seq 0 (length (index sel)) /\ take_rows sel js = Ok p.
Proof.
  intros Hd Hwf Hsel H Hsorts.
  destruct (promising_countries_Ok _ _ _ _ _ _ Hd H) as (sel' & Hsel' & Hsort & ->).
  split; [done|].
  assert (sel' = sel) as -> by congruence.
  destruct (survivors_scores _ _ Hwf Hsel) as (Hinv & Hlen & Wsel).
  set (ss := scores_of sel) in *.
  apply sort_values_Ok in Hsort as (vs & items & js & Hvs & Hitems & Hjs & Htake).
  assert (vs = map (fun s => Num s) ss) as -> by congruence.
  rewrite mapM_as_float_Num in Hitems. injection Hitems as <-.
  pose proof (nargsort_descending _ _ _ Hsorts Hjs) as Ejs.
  pose proof (sorts_Permutation _ _ Hsorts) as Hperm. rewrite length_reverse in Hperm.
  exists js. split; [|done].
  rewrite Ejs, <- Hlen. by apply flip_Permutation.
Qed.

Lemma Forall2_lookup_NoDup (js1 js0 js : list nat) :
  NoDup js1 -> NoDup js0 ->
  Forall2 (fun i0 j => js1 !! i0 = Some j) js0 js -> NoDup js.
Proof.
  intros N1 N0 HF. induction HF as [|i0 j js0 js Hj HF IH]; [constructor|].
  apply NoDup_cons in N0 as [Hnin N0]. constructor; [|by apply IH].
  intros [k Hk]%list_elem_of_lookup_1.
  destruct (Forall2_lookup_r _ _ _ _ _ HF Hk) as (i1 & Hi1 & Hj1).
  assert (i0 = i1) as -> by apply (NoDup_lookup js1 i0 i1 j N1 Hj Hj1).
  apply Hnin. by eapply list_elem_of_lookup_2.
Qed.

(** ** X6: the recommendations are the passing rows, each once *)

(** X6.  If argsort returns a sorting permutation of the survivors' scores,
    the recommendation list holds exactly the rows of the snapshot that pass
    the three thresholds, each of them once and with all its cells; the
    selector changes nothing in the store. *)
Theorem recommendations_are_the_passing_rows (argsort : list Q -> list nat) (l : loc)
    (d sel p : DataFrame) (h h' : heap) :
  h !! l = Some d -> wf_frame d ->
  survivors d = Ok sel ->
  promising_countries argsort l h = Ok (p, h') ->
  sorts (reverse (scores_of sel)) (argsort (reverse (scores_of sel))) = true ->
  h' = h /\
  exists js, rows_at d p js /\ NoDup js /\
    forall j, j ∈ js <-> (j < length (index d))%nat /\ passes d j = true.
Proof.
  intros Hd Hwf Hsel H Hsorts.
  destruct (promising_countries_perm _ _ _ _ _ _ _ Hd Hwf Hsel H Hsorts)
    as (-> & js0 & Hperm & Htake).
  split; [done|].
  destruct (survivors_rows _ _ Hwf Hsel) as (js1 & Hrows1 & Hord & Hmem).
  destruct (rows_at_compose _ _ _ _ _ Hrows1 (take_rows_rows_at _ _ _ Htake))
    as (js & Hrows & HF).
  exists js. split; [done|]. split.
  { eapply Forall2_lookup_NoDup; [by apply in_order_NoDup| |done].
    rewrite Hperm. apply NoDup_seq. }
  intros j. rewrite <- Hmem. split.
  - intros [k Hk]%list_elem_of_lookup_1.
    destruct (Forall2_lookup_r _ _ _ _ _ HF Hk) as (i0 & _ & Hj).
    by eapply list_elem_of_lookup_2.
  - intros [i0 Hi0]%list_elem_of_lookup_1.
    assert (i0 ∈ js0) as [k Hk]%list_elem_of_lookup_1.
    { rewrite Hperm. apply elem_of_seq. split; [lia|].
      destruct Hrows1 as [-> _]. simpl. by eapply lookup_lt_Some. }
    destruct (Forall2_lookup_l _ _ _ _ _ HF Hk) as (j' & Hj' & Hi0').
    assert (j' = j) as -> by congruence. by eapply list_elem_of_lookup_2.
Qed.

Lemma recommendations_are_the_passing_rows_witness :
  exists d sel p,
    investment_score 0 [tied_rows] = Ok (tt, [d]) /\
    survivors d = Ok sel /\
    promising_countries Npy.argsort 0 [d] = Ok (p, [d]) /\
    [d] = [d] /\
    exists js, rows_at d p js /\ NoDup js /\
      forall j, j ∈ js <-> (j < length (index d))%nat /\ passes d j = true.
Proof.
  do 3 eexists. split; [vm_compute; reflexivity|].
  match goal with |- survivors ?d0 = _ /\ _ =>
    split; [vm_compute; reflexivity|]; split; [vm_compute; reflexivity|];
    eapply (recommendations_are_the_passing_rows Npy.argsort 0%nat d0 _ _ [d0] [d0])
  end.
  - reflexivity.
  - repeat constructor.
  - vm_compute; reflexivity.
  - vm_compute; reflexivity.
  - vm_compute; reflexivity.
Defined.
(** ** The frames behind the scatter plot and the trend chart *)

Lemma cell_lt (d : DataFrame) (c : string) (i : nat) (v : value) :
  wf_frame d -> cell d c i = Some v -> (i < length (index d))%nat.
Proof.
  intros Hwf H. unfold cell in H.
  destruct (assoc c (columns d)) as [vs|] eqn:E; [|done]. simpl in H.
  rewrite <- (wf_frame_assoc _ _ _ Hwf E). by eapply lookup_lt_Some.
Qed.

Lemma dropna_two_Ok (d sel : DataFrame) (c1 c2 : string) :
  dropna d [c1; c2] = Ok sel ->
  exists v1 v2,
    assoc c1 (columns d) = Some v1 /\ assoc c2 (columns d) = Some v2 /\
    getitem_mask d
      (mkBoolSeries (index d)
         (zip_with andb (map (fun v => negb (isna v)) v1)
            (zip_with andb (map (fun v => negb (isna v)) v2)
               (replicate (length (index d)) true)))) = Ok sel.
Proof.
  unfold dropna. intros H. stepR H as cols Hcols. simpl in Hcols.
  destruct (assoc c1 (columns d)) as [v1|]; [|done].
  destruct (assoc c2 (columns d)) as [v2|]; [|done].
  simpl in Hcols. injection Hcols as <-. by exists v1, v2.
Qed.

Lemma notna_mask_lookup (v1 v2 : list value) (n j : nat) :
  length v1 = n -> length v2 = n ->
  zip_with andb (map (fun v => negb (isna v)) v1)
    (zip_with andb (map (fun v => negb (isna v)) v2) (replicate n true)) !! j = Some true
  <-> exists g r, v1 !! j = Some g /\ v2 !! j = Some r /\
                  isna g = false /\ isna r = false.
Proof.
  intros L1 L2. rewrite lookup_zip_with_Some. split.
  - intros (b1 & b23 & E & H1 & H23).
    apply lookup_zip_with_Some in H23 as (b2 & b3 & -> & H2 & H3).
    rewrite list_lookup_fmap in H1, H2.
    destruct (v1 !! j) as [g|]; [|done]. destruct (v2 !! j) as [r|]; [|done].
    simpl in *. injection H1 as <-. injection H2 as <-.
    exists g, r. symmetry in E. apply andb_true_iff in E as [E1 E2].
    apply andb_true_iff in E2 as [E2 _].
    by rewrite negb_true_iff in E1, E2.
  - intros (g & r & Hg & Hr & Ng & Nr).
    exists true, true. split; [done|]. split.
    + by rewrite list_lookup_fmap, Hg; simpl; rewrite Ng.
    + apply lookup_zip_with_Some. exists true, true. split; [done|]. split.
      * by rewrite list_lookup_fmap, Hr; simpl; rewrite Nr.
      * apply lookup_replicate. split; [done|]. rewrite <- L1.
        by eapply lookup_lt_Some.
Qed.

Lemma scatter_data_Ok (l : loc) (d sc : DataFrame) (h h' : heap) :
  h !! l = Some d -> wf_frame d ->
  scatter_data l h = Ok (sc, h') ->
  h' = h /\ wf_frame sc /\
  exists js, rows_at d sc js /\ in_order js /\
    forall j, j ∈ js <->
      exists g r, cell d GDP j = Some g /\ cell d RENEWABLE j = Some r /\
                  isna g = false /\ isna r = false.
Proof.
  intros Hd Hwf H. unfold scatter_data in H.
  stepM H as d' h1 Hg. apply get_Ok in Hg as [Hd' ->].
  assert (d' = d) as -> by congruence.
  apply lift_Ok in H as [H ->]. split; [done|].
  apply dropna_two_Ok in H as (vg & vr & Hvg & Hvr & H).
  split; [by eapply wf_getitem_mask|].
  pose proof (wf_frame_assoc _ _ _ Hwf Hvg) as Lg.
  pose proof (wf_frame_assoc _ _ _ Hwf Hvr) as Lr.
  eexists. split.
  { eapply getitem_mask_rows; [done| |exact H]. simpl.
    rewrite !length_zip_with, !length_map, length_replicate. lia. }
  split; [apply mpos_in_order|].
  intros j. simpl. rewrite elem_of_mpos, (notna_mask_lookup _ _ _ _ Lg Lr).
  unfold cell. by rewrite Hvg, Hvr.
Qed.

(** ** X7: the rows of the scatter plot *)

(** X7.  The frame handed to the scatter plot holds the rows of the
    snapshot in which neither gdp per capita nor the renewable share is
    missing, in snapshot order and with all their cells; so no cell of these
    two columns is missing in it; computing it changes nothing in the
    store. *)
Theorem scatter_plot_rows (l : loc) (d sc : DataFrame) (h h' : heap) :
  h !! l = Some d -> wf_frame d ->
  scatter_data l h = Ok (sc, h') ->
  h' = h /\
  (exists js, rows_at d sc js /\ in_order js /\
     forall j, j ∈ js <->
       exists g r, cell d GDP j = Some g /\ cell d RENEWABLE j = Some r /\
                   isna g = false /\ isna r = false) /\
  (forall i v, cell sc GDP i = Some v \/ cell sc RENEWABLE i = Some v ->
               isna v = false).
Proof.
  intros Hd Hwf H.
  destruct (scatter_data_Ok _ _ _ _ _ Hd Hwf H)
    as (-> & Wsc & js & Hrows & Hord & Hmem).
  split; [done|]. split; [by exists js|].
  intros i v Hv.
  assert (i < length js)%nat as Hi.
  { destruct Hrows as [<- _]. destruct Hv as [Hv|Hv]; by eapply cell_lt. }
  apply lookup_lt_is_Some in Hi as [j Hj].
  destruct Hrows as [_ Hrows]. destruct (Hrows i j Hj) as (_ & _ & Hcells).
  destruct (proj1 (Hmem j)) as (g & r & Hg & Hr & Ng & Nr);
    [by eapply list_elem_of_lookup_2|].
  rewrite !Hcells in Hv. destruct Hv as [Hv|Hv]; congruence.
Qed.

Lemma scatter_plot_rows_witness :
  exists d sc,
    investment_score 0 [mkFrame [0; 1; 2]%nat
                          [ (ENTITY, [Str "A"; Str "B"; Str "C"]);
                            (ACCESS, [Num 80; Num 20; Num 50]);
                            (RENEWABLE, [Num 50; NaN; Num 30]);
                            (GDP, [Num 5000; Num 1000; NaN]);
                            (CAPACITY, [Num 10; Num 1; Num 5]) ]] = Ok (tt, [d]) /\
    scatter_data 0 [d] = Ok (sc, [d]) /\
    index sc = [0%nat] /\
    [d] = [d] /\
    (exists js, rows_at d sc js /\ in_order js /\
       forall j, j ∈ js <->
         exists g r, cell d GDP j = Some g /\ cell d RENEWABLE j = Some r /\
                     isna g = false /\ isna r = false) /\
    (forall i v, cell sc GDP i = Some v \/ cell sc RENEWABLE i = Some v ->
                 isna v = false).
Proof.
  do 2 eexists. split; [vm_compute; reflexivity|].
  split; [vm_compute; reflexivity|]. split; [reflexivity|].
  match goal with |- [?d0] = _ /\ _ =>
    apply (scatter_plot_rows 0%nat d0 _ [d0] [d0])
  end.
  - reflexivity.
  - repeat constructor.
  - vm_compute; reflexivity.
Defined.

(** ** X8: what is recommended is plotted *)

(** X8.  Every row of the recommendation list is a row of the frame handed
    to the scatter plot, with the same label and the same cells: a row that
    passes the thresholds has a gdp per capita and a renewable share. *)
Theorem recommended_rows_are_plotted (argsort : list Q -> list nat) (l : loc)
    (d p sc : DataFrame) (h h1 h2 : heap) :
  h !! l = Some d -> wf_frame d ->
  promising_countries argsort l h = Ok (p, h1) ->
  scatter_data l h = Ok (sc, h2) ->
  forall i, (i < length (index p))%nat ->
    exists k, index sc !! k = index p !! i /\ forall c, cell sc c k = cell p c i.
Proof.
  intros Hd Hwf Hp Hsc i Hi.
  destruct (promising_row _ _ _ _ _ _ _ Hd Hwf Hp Hi) as (j & Hj & Hidx & Hcells & Hpass).
  destruct (scatter_data_Ok _ _ _ _ _ Hd Hwf Hsc)
    as (_ & _ & js & [_ Hrows] & _ & Hmem).
  apply passes_spec in Hpass as (s & g & r & _ & _ & Hg & _ & Hr & _).
  assert (j ∈ js) as [k Hk]%list_elem_of_lookup_1.
  { apply Hmem. by exists (Num g), (Num r). }
  destruct (Hrows k j Hk) as (_ & Hidx' & Hcells').
  exists k. split; [congruence|]. intros c. by rewrite Hcells', Hcells.
Qed.

Lemma recommended_rows_are_plotted_witness :
  exists d p sc,
    investment_score 0 [two_rows] = Ok (tt, [d]) /\
    (promising_countries Npy.argsort 0 [d] = Ok (p, [d]) /\
     scatter_data 0 [d] = Ok (sc, [d])) /\
    forall i, (i < length (index p))%nat ->
      exists k, index sc !! k = index p !! i /\ forall c, cell sc c k = cell p c i.
Proof.
  do 3 eexists. split; [vm_compute; reflexivity|].
  match goal with |- (promising_countries _ _ [?d0] = _ /\ _) /\ _ =>
    split; [split; vm_compute; reflexivity|];
    apply (recommended_rows_are_plotted Npy.argsort 0%nat d0 _ _ [d0] [d0] [d0])
  end.
  - reflexivity.
  - repeat constructor.
  - vm_compute; reflexivity.
  - vm_compute; reflexivity.
Defined.
(** ** The country selector and the trend chart *)



Lemma unique_from_sublist (seen vs : list value) : sublist (unique_from seen vs) vs.
Proof.
  revert seen. induction vs as [|v vs IH]; intros seen; simpl; [constructor|].
  destruct (existsb (same_value v) seen); by constructor.
Qed.




Lemma country_options_Ok (l : loc) (d : DataFrame) (o : list value) (h h' : heap) :
  h !! l = Some d -> country_options l h = Ok (o, h') ->
  h' = h /\ exists es, assoc ENTITY (columns d) = Some es /\ o = unique_from [] es.
Proof.
  intros Hd H. unfold country_options in H.
  stepM H as e h1 He. apply col_Ok in He as (d' & es & Hd' & Hes & -> & ->).
  assert (d' = d) as -> by congruence.
  apply M_ret_Ok in H as [-> ->]. split; [done|]. by exists es.
Qed.

(** ** X9: the options of the country selector *)



Lemma isin_mask_lookup (es : list value) (selected : list string) (j : nat) :
  map (fun v => match v with
                | Str e => bool_decide (e ∈ selected)
                | Flt _ => false
                end) es !! j = Some true
  <-> exists e, es !! j = Some (Str e) /\ e ∈ selected.
Proof.
  rewrite list_lookup_fmap. split.
  - destruct (es !! j) as [[x|e]|]; simpl; try done.
    intros [= He%bool_decide_eq_true]. by exists e.
  - intros (e & -> & He). simpl. f_equal. by apply bool_decide_eq_true.
Qed.

Lemma trend_df_Ok (l : loc) (d t : DataFrame) (selected : list string) (h h' : heap) :
  h !! l = Some d -> wf_frame d ->
  trend_df l selected h = Ok (t, h') ->
  h' = h /\
  exists js, rows_at d t js /\ in_order js /\
    forall j, j ∈ js <-> exists e, cell d ENTITY j = Some (Str e) /\ e ∈ selected.
Proof.
  intros Hd Hwf H. unfold trend_df in H.
  stepM H as d' h1 Hg. apply get_Ok in Hg as [Hd' ->].
  assert (d' = d) as -> by congruence.
  stepM H as e h2 He. apply col_Ok in He as (d' & es & Hd'' & Hes & -> & ->).
  assert (d' = d) as -> by congruence.
  apply lift_Ok in H as [H ->]. split; [done|].
  pose proof (wf_frame_assoc _ _ _ Hwf Hes) as Les.
  eexists. split.
  { eapply getitem_mask_rows; [done| |exact H]. simpl. by rewrite length_map. }
  split; [apply mpos_in_order|].
  intros j. simpl. rewrite elem_of_mpos, isin_mask_lookup.
  unfold cell. by rewrite Hes.
Qed.

(** ** X10: the rows of the trend chart *)

(** X10.  The frame behind the trend chart holds the rows of the full
    table whose Entity is one of the selected countries, in file order and
    with all their cells, and changes nothing in the store; a selected
    country that is one of the selector's options has at least one row in
    it. *)
Theorem trend_chart_rows (l : loc) (d t : DataFrame) (selected : list string)
    (h h' : heap) :
  h !! l = Some d -> wf_frame d ->
  trend_df l selected h = Ok (t, h') ->
  h' = h /\
  (exists js, rows_at d t js /\ in_order js /\
     forall j, j ∈ js <-> exists e, cell d ENTITY j = Some (Str e) /\ e ∈ selected) /\
  (forall o h2 e, country_options l h = Ok (o, h2) -> Str e ∈ o -> e ∈ selected ->
                  exists i, cell t ENTITY i = Some (Str e)).
Proof.
  intros Hd Hwf H.
  destruct (trend_df_Ok _ _ _ _ _ _ Hd Hwf H) as (-> & js & Hrows & Hord & Hmem).
  split; [done|]. split; [by exists js|].
  intros o h2 e Ho Hin Hsel.
  destruct (country_options_Ok _ _ _ _ _ Hd Ho) as (_ & es & Hes & ->).
  assert (Str e ∈ es) as [j Hj]%list_elem_of_lookup_1.
  { eapply elem_of_sublist; [done|apply unique_from_sublist]. }
  assert (j ∈ js) as [i Hi]%list_elem_of_lookup_1.
  { apply Hmem. exists e. split; [|done]. unfold cell. by rewrite Hes. }
  destruct Hrows as [_ Hrows]. destruct (Hrows i j Hi) as (_ & _ & Hcells).
  exists i. rewrite Hcells. unfold cell. by rewrite Hes.
Qed.

Lemma trend_chart_rows_witness :
  exists t,
    trend_df 0 ["A"; "C"] [read_csv sample_file] = Ok (t, [read_csv sample_file]) /\
    index t = [0; 2]%nat /\
    [read_csv sample_file] = [read_csv sample_file] /\
    (exists js, rows_at (read_csv sample_file) t js /\ in_order js /\
       forall j, j ∈ js <->
         exists e, cell (read_csv sample_file) ENTITY j = Some (Str e) /\
                   e ∈ ["A"; "C"]) /\
    (forall o h2 e, country_options 0 [read_csv sample_file] = Ok (o, h2) ->
                    Str e ∈ o -> e ∈ ["A"; "C"] ->
                    exists i, cell t ENTITY i = Some (Str e)).
Proof.
  eexists. split; [vm_compute; reflexivity|]. split; [reflexivity|].
  apply (trend_chart_rows 0%nat (read_csv sample_file)).
  - reflexivity.
  - repeat constructor.
  - vm_compute; reflexivity.
Defined.
(** ** The key metrics *)

Lemma nanmin_None (xs : list float) (q : Q) : nanmin xs = None -> Some q ∉ xs.
Proof.
  induction xs as [|x xs IH]; simpl.
  - intros _ H. by apply elem_of_nil in H.
  - destruct x as [x|]; simpl.
    + by destruct (nanmin xs).
    + intros H [E|Hin]%elem_of_cons; [discriminate | by apply IH].
Qed.

Lemma nanmin_lower (xs : list float) (m q : Q) :
  nanmin xs = Some m -> Some q ∈ xs -> m <= q.
Proof.
  revert m. induction xs as [|x xs IH]; intros m; simpl.
  - intros _ H. by apply elem_of_nil in H.
  - intros Hm [<-|Hin]%elem_of_cons.
    + destruct (nanmin xs) as [x'|]; simpl in Hm; injection Hm as <-.
      * apply Q.le_min_l.
      * apply Qle_refl.
    + destruct x as [x|]; simpl in Hm.
      * destruct (nanmin xs) as [x'|] eqn:E; simpl in Hm; injection Hm as <-.
        -- eapply Qle_trans; [apply Q.le_min_r | by apply IH].
        -- by apply (nanmin_None _ q) in E.
      * auto.
Qed.

Lemma nanmin_nanmax_None (xs : list float) : nanmin xs = None <-> nanmax xs = None.
Proof.
  induction xs as [|[x|] xs IH]; simpl; [done| |done].
  destruct (nanmin xs), (nanmax xs); simpl; split; done.
Qed.

Lemma nan_all_missing (xs : list float) :
  (forall q, Some q ∉ xs) -> nanmax xs = None /\ non_nan xs = [].
Proof.
  induction xs as [|[x|] xs IH]; intros H; simpl; [done| |].
  - destruct (H x). left.
  - apply IH. intros q Hq. apply (H q). by right.
Qed.





Lemma key_metrics_Ok (l : loc) (d : DataFrame) (k : key_values) (h h' : heap) :
  h !! l = Some d -> key_metrics l h = Ok (k, h') ->
  h' = h /\
  exists es ys rs ac xy xr xa,
    assoc ENTITY (columns d) = Some es /\
    assoc YEAR (columns d) = Some ys /\
    assoc RENEWABLE (columns d) = Some rs /\
    assoc ACCESS (columns d) = Some ac /\
    mapM (as_float TypeError) ys = Ok xy /\
    mapM (as_float TypeError) rs = Ok xr /\
    mapM (as_float TypeError) ac = Ok xa /\
    k = mkKeyValues (series_nunique (mkSeries (index d) es))
          (nanmin xy, nanmax xy) (nanmean xr) (nanmean xa).
Proof.
  intros Hd H. unfold key_metrics in H.
  stepM H as e h1 He. apply col_Ok in He as (d1 & es & Hd1 & Hes & -> & ->).
  stepM H as y h2 Hy. apply col_Ok in Hy as (d2 & ys & Hd2 & Hys & -> & ->).
  stepM H as lo h3 Hlo. apply lift_Ok in Hlo as [Hlo ->].
  stepM H as y' h4 Hy'. apply col_Ok in Hy' as (d3 & ys' & Hd3 & Hys' & -> & ->).
  stepM H as hi h5 Hhi. apply lift_Ok in Hhi as [Hhi ->].
  stepM H as r h6 Hr. apply col_Ok in Hr as (d4 & rs & Hd4 & Hrs & -> & ->).
  stepM H as mr h7 Hmr. apply lift_Ok in Hmr as [Hmr ->].
  stepM H as a h8 Ha. apply col_Ok in Ha as (d5 & ac & Hd5 & Hac & -> & ->).
  stepM H as ma h9 Hma. apply lift_Ok in Hma as [Hma ->].
  apply M_ret_Ok in H as [-> ->]. split; [done|].
  assert (d1 = d) as -> by congruence. assert (d2 = d) as -> by congruence.
  assert (d3 = d) as -> by congruence. assert (d4 = d) as -> by congruence.
  assert (d5 = d) as -> by congruence. assert (ys' = ys) as -> by congruence.
  unfold series_min, series_max, series_mean in *. simpl in *.
  stepR Hlo as xy Hxy. injection Hlo as <-.
  stepR Hhi as xy' Hxy'. injection Hhi as <-.
  assert (xy' = xy) as -> by congruence.
  stepR Hmr as xr Hxr. injection Hmr as <-.
  stepR Hma as xa Hxa. injection Hma as <-.
  by exists es, ys, rs, ac, xy, xr, xa.
Qed.

(** The numbers of a column and the floats read from it. *)
Lemma as_float_cells (d : DataFrame) (c : string) (vs : list value) (xs : list float)
    (e : exn) (q : Q) :
  assoc c (columns d) = Some vs -> mapM (as_float e) vs = Ok xs ->
  Some q ∈ xs <-> exists j, cell d c j = Some (Num q).
Proof.
  intros Hvs Hxs. unfold cell. rewrite Hvs. simpl. split.
  - intros [j Hj]%list_elem_of_lookup_1. exists j. by eapply as_float_lookup.
  - intros [j Hj]. apply mapM_Ok_Forall2 in Hxs.
    destruct (Forall2_lookup_l _ _ _ _ _ Hxs Hj) as (x & Hx & Hf).
    simpl in Hf. injection Hf as <-. by eapply list_elem_of_lookup_2.
Qed.

(** ** X11: the years covered *)

(** X11.  After the load, the Years Covered metric runs from the least to
    the greatest year of the full table, its upper end is the
    [latest_year] the loader returned, and every year of the table lies
    between the two ends; both ends are NaN when no row has a year.
    Computing the metrics changes nothing in the store. *)
Theorem years_covered_span (parse : string -> option float) (file : csv_file)
    (df latest : loc) (y : float) (k : key_values) (h h1 h2 : heap) :
  load_data parse file h = Ok ((df, latest, y), h1) ->
  key_metrics df h1 = Ok (k, h2) ->
  h2 = h1 /\
  (years_covered k).2 = y /\
  exists full,
    h1 !! df = Some full /\
    (forall j q, cell full YEAR j = Some (Num q) ->
       exists lo hi, years_covered k = (Some lo, Some hi) /\ lo <= q /\ q <= hi) /\
    (forall lo hi, years_covered k = (Some lo, Some hi) ->
       exists j j' q q', cell full YEAR j = Some (Num q) /\ q == lo /\
                         cell full YEAR j' = Some (Num q') /\ q' == hi) /\
    ((forall j q, cell full YEAR j <> Some (Num q)) -> years_covered k = (None, None)).
Proof.
  intros Hload Hk.
  apply load_data_Ok in Hload
    as (o1 & o2 & o3 & yv & full & sel & score & -> & -> & Ho1 & Ho2 & Ho3 &
        Hfull & Hyv & Hmax & _ & _ & ->).
  assert ((h ++ [full; mkFrame (index sel)
                         (assign SUSTAINABILITY (svalues score) (columns sel))])
            !! length h = Some full) as Hdf
    by (by rewrite lookup_app_r, Nat.sub_diag by lia).
  destruct (key_metrics_Ok _ _ _ _ _ Hdf Hk)
    as (-> & es & ys & rs & ac & xy & xr & xa & _ & Hys & _ & _ & Hxy & _ & _ & ->).
  split; [done|]. simpl.
  assert (ys = yv) as -> by congruence.
  unfold series_max in Hmax. simpl in Hmax. rewrite Hxy in Hmax. simpl in Hmax.
  injection Hmax as <-. split; [done|].
  exists full. split; [done|].
  pose proof (as_float_cells full YEAR yv xy TypeError) as Hcells.
  split; [|split].
  - intros j q Hj.
    assert (Some q ∈ xy) as Hq by (apply (Hcells q Hyv Hxy); by exists j).
    destruct (nanmax xy) as [hi|] eqn:Ehi; [|by apply (nanmax_None _ q) in Ehi].
    destruct (nanmin xy) as [lo|] eqn:Elo; [|by apply (nanmin_None _ q) in Elo].
    exists lo, hi. split; [done|]. split.
    + by eapply nanmin_lower.
    + by eapply nanmax_upper.
  - intros lo hi [= Elo Ehi].
    assert (exists q, Some q ∈ xy /\ q == lo) as (q & Hq & Eq).
    { clear -Elo. revert lo Elo. induction xy as [|[x|] xy IH]; intros lo; simpl; [done| |].
      - destruct (nanmin xy) as [x'|] eqn:E; simpl; intros [= <-].
        + destruct (Q.min_dec x x') as [Hx|Hx].
          * exists x. split; [left | by symmetry].
          * destruct (IH x' eq_refl) as (q & Hq & Hq').
            exists q. split; [by right | by rewrite Hx].
        + exists x. split; [left | reflexivity].
      - intros (q & Hq & Hq')%IH. exists q. split; [by right | done]. }
    destruct (nanmax_attained _ _ Ehi) as (q' & Hq' & Eq').
    apply (Hcells q Hyv Hxy) in Hq as [j Hj].
    apply (Hcells q' Hyv Hxy) in Hq' as [j' Hj'].
    by exists j, j', q, q'.
  - intros Hnone.
    assert (forall q, Some q ∉ xy) as Hall.
    { intros q Hq. apply (Hcells q Hyv Hxy) in Hq as [j Hj]. by destruct (Hnone j q). }
    destruct (nan_all_missing _ Hall) as [Emax _].
    by rewrite Emax, (proj2 (nanmin_nanmax_None xy) Emax).
Qed.

Lemma years_covered_span_witness :
  exists h1 k,
    load_data parse_decimal sample_file [] = Ok ((0%nat, 1%nat, Some 2020), h1) /\
    key_metrics 0 h1 = Ok (k, h1) /\
    years_covered k = (Some 2018, Some 2020) /\
    h1 = h1 /\
    (years_covered k).2 = Some 2020 /\
    exists full,
      h1 !! 0%nat = Some full /\
      (forall j q, cell full YEAR j = Some (Num q) ->
         exists lo hi, years_covered k = (Some lo, Some hi) /\ lo <= q /\ q <= hi) /\
      (forall lo hi, years_covered k = (Some lo, Some hi) ->
         exists j j' q q', cell full YEAR j = Some (Num q) /\ q == lo /\
                           cell full YEAR j' = Some (Num q') /\ q' == hi) /\
      ((forall j q, cell full YEAR j <> Some (Num q)) ->
       years_covered k = (None, None)).
Proof.
  do 2 eexists. split; [vm_compute; reflexivity|].
  split; [vm_compute; reflexivity|]. split; [reflexivity|].
  match goal with |- ?H1 = _ /\ _ =>
    apply (years_covered_span parse_decimal sample_file 0%nat 1%nat (Some 2020) _ [] H1 H1)
  end; vm_compute; reflexivity.
Defined.

(** ** X12: the two averages *)


(** ** The recommendation cards *)







(** ** X13: what the recommendation section shows *)


(** ** The bar chart: the ten largest renewable shares *)

(** *** Positions of the numbers and of the missing entries *)

Lemma elem_of_non_nans_from (k : nat) (items : list float) (j : nat) (q : Q) :
  (j, q) ∈ non_nans_from k items <->
  (k <= j)%nat /\ items !! (j - k)%nat = Some (Some q).
Proof.
  revert k. induction items as [|[x|] items IH]; intros k; simpl.
  - rewrite elem_of_nil. split; [done|]. by intros [_ ?].
  - rewrite elem_of_cons, IH. split.
    + intros [[= -> ->]|[Hle H]].
      * split; [lia|]. by rewrite Nat.sub_diag.
      * split; [lia|]. by replace (j - k)%nat with (S (j - S k)) by lia.
    + intros [Hle H]. destruct (decide (j = k)) as [->|Hne].
      * left. rewrite Nat.sub_diag in H. simpl in H. congruence.
      * right. split; [lia|].
        by replace (j - k)%nat with (S (j - S k)) in H by lia.
  - rewrite IH. split; intros [Hle H].
    + split; [lia|]. by replace (j - k)%nat with (S (j - S k)) by lia.
    + destruct (decide (j = k)) as [->|Hne].
      * by rewrite Nat.sub_diag in H.
      * split; [lia|]. by replace (j - k)%nat with (S (j - S k)) in H by lia.
Qed.

Lemma elem_of_nans_from (k : nat) (items : list float) (j : nat) :
  j ∈ nans_from k items <-> (k <= j)%nat /\ items !! (j - k)%nat = Some None.
Proof.
  revert k. induction items as [|[x|] items IH]; intros k; simpl.
  - rewrite elem_of_nil. split; [done|]. by intros [_ ?].
  - rewrite IH. split; intros [Hle H].
    + split; [lia|]. by replace (j - k)%nat with (S (j - S k)) by lia.
    + destruct (decide (j = k)) as [->|Hne].
      * by rewrite Nat.sub_diag in H.
      * split; [lia|]. by replace (j - k)%nat with (S (j - S k)) in H by lia.
  - rewrite elem_of_cons, IH. split.
    + intros [->|[Hle H]].
      * split; [lia|]. by rewrite Nat.sub_diag.
      * split; [lia|]. by replace (j - k)%nat with (S (j - S k)) by lia.
    + intros [Hle H]. destruct (decide (j = k)) as [->|Hne]; [by left|].
      right. split; [lia|].
      by replace (j - k)%nat with (S (j - S k)) in H by lia.
Qed.

Lemma non_nans_from_snd (k : nat) (items : list float) :
  (non_nans_from k items).*2 = non_nan items.
Proof.
  revert k. induction items as [|[x|] items IH]; intros k; simpl; [done| |apply IH].
  unfold non_nan. simpl. f_equal. apply IH.
Qed.

Lemma NoDup_non_nans_from (k : nat) (items : list float) :
  NoDup (non_nans_from k items).*1.
Proof.
  revert k. induction items as [|[x|] items IH]; intros k; simpl;
    [constructor| |apply IH].
  constructor; [|apply IH].
  intros [[j q] [-> Hin]]%list_elem_of_fmap. simpl in Hin.
  apply elem_of_non_nans_from in Hin as [Hle _]. lia.
Qed.

Lemma NoDup_nans_from (k : nat) (items : list float) : NoDup (nans_from k items).
Proof.
  revert k. induction items as [|[x|] items IH]; intros k; simpl;
    [constructor|apply IH|].
  constructor; [|apply IH].
  intros Hin%elem_of_nans_from. lia.
Qed.

Lemma length_non_nans_nans (k : nat) (items : list float) :
  (length (non_nans_from k items) + length (nans_from k items))%nat = length items.
Proof.
  revert k. induction items as [|[x|] items IH]; intros k; simpl; [done|..];
    specialize (IH (S k)); lia.
Qed.

Lemma non_nans_from_functional (k : nat) (items : list float) (j : nat) (q q' : Q) :
  (j, q) ∈ non_nans_from k items -> (j, q') ∈ non_nans_from k items -> q = q'.
Proof. rewrite !elem_of_non_nans_from. intros [_ H] [_ H']. congruence. Qed.

(** *** The stable sort *)

Section StableSort.

Context {A : Type} (le : A -> A -> bool).
Hypothesis le_total : forall a b, le a b = true \/ le b a = true.
Hypothesis le_trans : forall a b c, le a b = true -> le b c = true -> le a c = true.

Lemma insert_sorted_Permutation (x : A) (l : list A) : insert_sorted le x l ≡ₚ x :: l.
Proof.
  induction l as [|y l IH]; simpl; [done|].
  destruct (le x y); [done|]. rewrite IH. apply Permutation_swap.
Qed.

Lemma stable_sort_Permutation (l : list A) : stable_sort le l ≡ₚ l.
Proof.
  induction l as [|x l IH]; simpl; [done|].
  by rewrite insert_sorted_Permutation, IH.
Qed.

Lemma insert_sorted_sorted (x : A) (l : list A) :
  sorted_by le l -> sorted_by le (insert_sorted le x l).
Proof.
  induction l as [|y l IH]; simpl; [done|]. intros [Hy Hl].
  destruct (le x y) eqn:E; simpl.
  - split; [|done]. constructor; [done|].
    eapply Forall_impl; [exact Hy|]. intros b Hb. by eapply le_trans.
  - split; [|by apply IH].
    rewrite insert_sorted_Permutation. constructor; [|done].
    destruct (le_total x y) as [H|H]; [congruence | done].
Qed.

Lemma stable_sort_sorted (l : list A) : sorted_by le (stable_sort le l).
Proof.
  induction l as [|x l IH]; simpl; [done|]. by apply insert_sorted_sorted.
Qed.

Lemma sorted_by_lookup (l : list A) (i i' : nat) (a b : A) :
  sorted_by le l -> (i < i')%nat -> l !! i = Some a -> l !! i' = Some b ->
  le a b = true.
Proof.
  revert i i'. induction l as [|x l IH]; intros i i'; simpl; [done|].
  intros [Hx Hl] Hlt Ha Hb. destruct i' as [|i']; [lia|]. simpl in Hb.
  destruct i as [|i]; simpl in Ha.
  - injection Ha as <-. rewrite Forall_forall in Hx.
    apply Hx. by eapply list_elem_of_lookup_2.
  - eapply (IH i i'); [done|lia|done..].
Qed.

Lemma sorted_by_take_drop (l : list A) (k : nat) (a b : A) :
  sorted_by le l -> a ∈ take k l -> b ∈ drop k l -> le a b = true.
Proof.
  intros Hs [i Hi]%list_elem_of_lookup_1 [i' Hi']%list_elem_of_lookup_1.
  apply lookup_take_Some in Hi as [Hi Hlt]. rewrite lookup_drop in Hi'.
  eapply (sorted_by_lookup l i (k + i')); [done|lia|done..].
Qed.

End StableSort.

Lemma Qle_bool_total (a b : Q) : Qle_bool a b = true \/ Qle_bool b a = true.
Proof.
  destruct (Qlt_le_dec b a) as [H|H].
  - right. apply Qle_bool_iff. lra.
  - left. by apply Qle_bool_iff.
Qed.

Lemma Qle_bool_trans (a b c : Q) :
  Qle_bool a b = true -> Qle_bool b c = true -> Qle_bool a c = true.
Proof. rewrite !Qle_bool_iff. apply Qle_trans. Qed.
(** *** The order statistic *)

Lemma filter_sublist {A : Type} (f : A -> bool) (l : list A) :
  sublist (List.filter f l) l.
Proof.
  induction l as [|x l IH]; simpl; [constructor|].
  destruct (f x); by constructor.
Qed.

Lemma length_filter_Permutation {A : Type} (f : A -> bool) (l k : list A) :
  l ≡ₚ k -> length (List.filter f l) = length (List.filter f k).
Proof.
  induction 1 as [|x l k _ IH|x y l|l k m _ IH1 _ IH2]; simpl; [done|..].
  - destruct (f x); simpl; by rewrite IH.
  - destruct (f x), (f y); done.
  - congruence.
Qed.

(** At least [k + 1] entries are at most the [k]-th smallest. *)
Lemma kth_smallest_count (arr : list Q) (k : nat) :
  (k < length arr)%nat ->
  (S k <= length (List.filter (fun x => Qle_bool x (kth_smallest arr k)) arr))%nat.
Proof.
  intros Hk. unfold kth_smallest.
  set (S0 := stable_sort Qle_bool arr).
  pose proof (stable_sort_Permutation Qle_bool arr) as Hperm. fold S0 in Hperm.
  pose proof (stable_sort_sorted Qle_bool Qle_bool_total Qle_bool_trans arr) as Hs.
  fold S0 in Hs.
  assert (length S0 = length arr) as HL by (by rewrite Hperm).
  destruct (lookup_lt_is_Some_2 S0 k) as [x Hx]; [lia|].
  rewrite (nth_lookup_Some _ _ _ _ Hx).
  rewrite <- (length_filter_Permutation _ _ _ Hperm).
  rewrite <- (take_drop (S k) S0) at 1. rewrite List.filter_app, length_app.
  rewrite forallb_filter_id.
  { rewrite length_take. lia. }
  apply forallb_forall. intros a Ha%list_elem_of_In.
  apply list_elem_of_lookup_1 in Ha as [i Hi].
  apply lookup_take_Some in Hi as [Hi Hlt].
  destruct (decide (i = k)) as [->|Hne].
  - assert (a = x) as -> by congruence. apply Qle_bool_iff, Qle_refl.
  - eapply (sorted_by_lookup Qle_bool S0 i k); [done|lia|done..].
Qed.

Lemma neg_neg (pv : nat * Q) :
  (fun pv : nat * Q => (pv.1, - pv.2)) ((fun pv : nat * Q => (pv.1, - pv.2)) pv) = pv.
Proof.
  destruct pv as [j [a b]]. unfold Qopp. simpl. by rewrite Z.opp_involutive.
Qed.

(** *** The fast method of [nlargest] *)

Lemma nlargest_indexer_fast (argsort : list Q -> list nat) (n : nat)
    (items : list float) (js : list nat) :
  (0 < n)%nat -> (n < length items)%nat ->
  nlargest_indexer argsort n items = Ok js ->
  exists T, largest_first n items T /\ js = take n (T.*1 ++ nans_from 0 items).
Proof.
  intros Hn Hlen. unfold nlargest_indexer.
  destruct (Nat.eqb_spec n 0) as [|_]; [lia|].
  destruct (Nat.leb_spec (length items) n) as [|_]; [lia|].
  set (P := non_nans_from 0 items).
  set (neg := fun pv : nat * Q => (pv.1, - pv.2)).
  assert (forall pv, neg (neg pv) = pv) as Hnn by apply neg_neg.
  destruct (map neg P) as [|a0 arr'] eqn:Earr.
  { intros [= <-]. exists []. split; [|done].
    assert (P = []) as HP by (by destruct P).
    unfold largest_first. fold P. rewrite HP. simpl.
    split; [constructor|]. split; [done|]. split; [lia|]. split; [done|].
    by intros a b ?%elem_of_nil. }
  set (arr := a0 :: arr') in *.
  set (n' := Nat.min n (length arr)).
  set (kth := kth_smallest arr.*2 (n' - 1)).
  set (ns := List.filter (fun pv : nat * Q => Qle_bool pv.2 kth) arr).
  set (le2 := fun a b : nat * Q => Qle_bool a.2 b.2).
  set (sorted := stable_sort le2 ns).
  intros [= <-].
  assert (forall a b, le2 a b = true \/ le2 b a = true) as Htot
    by (intros a b; apply Qle_bool_total).
  assert (forall a b c, le2 a b = true -> le2 b c = true -> le2 a c = true) as Htr
    by (intros a b c; apply Qle_bool_trans).
  pose proof (stable_sort_Permutation le2 ns) as Hperm. fold sorted in Hperm.
  pose proof (stable_sort_sorted le2 Htot Htr ns) as Hsorted. fold sorted in Hsorted.
  assert (length arr = length P) as Larr by (by rewrite <- Earr, length_map).
  assert (1 <= n' /\ n' <= length arr)%nat as [Hn1 Hn2] by (simpl in *; lia).
  assert (n' <= length ns)%nat as Hns.
  { pose proof (kth_smallest_count arr.*2 (n' - 1)) as Hc.
    rewrite length_fmap in Hc. specialize (Hc ltac:(lia)). fold kth in Hc.
    change (arr.*2) with (map snd arr) in Hc.
    rewrite filter_map_swap, length_map in Hc. fold ns in Hc. lia. }
  assert (forall a, a ∈ sorted <-> a ∈ arr /\ Qle_bool a.2 kth = true) as Hin.
  { intros a. rewrite Hperm. unfold ns. rewrite !list_elem_of_In. apply filter_In. }
  assert (forall a, a ∈ arr <-> neg a ∈ P) as Harr.
  { intros a. rewrite <- Earr, list_elem_of_fmap. split.
    - intros (p & -> & Hp). by rewrite Hnn.
    - intros Hp. exists (neg a). split; [by rewrite Hnn | done]. }
  assert (NoDup sorted.*1) as Nsorted.
  { rewrite Hperm. eapply sublist_NoDup; [|apply fmap_sublist, filter_sublist].
    assert (arr.*1 = P.*1) as ->; [|apply NoDup_non_nans_from].
    rewrite <- Earr, <- list_fmap_compose. done. }
  exists (map neg (take n' sorted)).
  assert ((map neg (take n' sorted)).*1 = (take n' sorted).*1) as Efst
    by (by rewrite <- list_fmap_compose).
  split; [|by rewrite Efst].
  unfold largest_first. fold P. split; [|split; [|split; [|split]]].
  - rewrite Efst, fmap_take. eapply sublist_NoDup; [done|apply sublist_take].
  - intros pv [a [-> Ha]]%list_elem_of_fmap.
    apply Harr, Hin. eapply elem_of_sublist; [done|apply sublist_take].
  - rewrite length_map, length_take, (Permutation_length Hperm). lia.
  - intros i i' a b Hlt Ha Hb. rewrite list_lookup_fmap in Ha, Hb.
    destruct (take n' sorted !! i) as [a'|] eqn:Ea; [|done].
    destruct (take n' sorted !! i') as [b'|] eqn:Eb; [|done].
    injection Ha as <-. injection Hb as <-.
    apply lookup_take_Some in Ea as [Ea _]. apply lookup_take_Some in Eb as [Eb _].
    pose proof (sorted_by_lookup le2 sorted i i' a' b' Hsorted Hlt Ea Eb) as Hle.
    apply Qle_bool_iff in Hle. simpl. lra.
  - intros a b [a' [-> Ha']]%list_elem_of_fmap Hb Hnb.
    assert (neg b ∈ arr) as Hb' by (apply Harr; by rewrite Hnn).
    assert (neg b ∉ take n' sorted) as Hnb'.
    { intros H. apply Hnb. apply list_elem_of_fmap. exists (neg b).
      split; [by rewrite Hnn | done]. }
    assert (a' ∈ sorted) as Ha by (eapply elem_of_sublist; [done|apply sublist_take]).
    destruct (Qle_bool (neg b).2 kth) eqn:E.
    + assert (neg b ∈ sorted) as Hbs by (by apply Hin).
      rewrite <- (take_drop n' sorted) in Hbs.
      apply elem_of_app in Hbs as [Hbs|Hbs]; [done|].
      pose proof (sorted_by_take_drop le2 sorted n' a' (neg b) Hsorted Ha' Hbs) as Hle.
      apply Qle_bool_iff in Hle. simpl in *. lra.
    + apply Hin in Ha as [_ Hle]. apply Qle_bool_iff in Hle.
      assert (~ (neg b).2 <= kth) as Hgt.
      { intros H. apply Qle_bool_iff in H. congruence. }
      simpl in *. lra.
Qed.
(** *** The slow method of [nlargest] *)

Lemma map_lookup_seq {A : Type} (l : list A) (d : A) :
  map (fun a => default d (l !! a)) (seq 0 (length l)) = l.
Proof.
  apply list_eq. intros i. rewrite list_lookup_fmap.
  destruct (decide (i < length l)%nat) as [Hi|Hi].
  - rewrite lookup_seq_lt by done. simpl.
    destruct (lookup_lt_is_Some_2 l i) as [x Hx]; [done|]. by rewrite Hx.
  - rewrite lookup_seq_ge by lia. simpl. symmetry. apply lookup_ge_None. lia.
Qed.

Lemma nlargest_indexer_slow (argsort : list Q -> list nat) (n : nat)
    (items : list float) (js : list nat) :
  (0 < n)%nat -> (length items <= n)%nat ->
  sorts (reverse (non_nan items)) (argsort (reverse (non_nan items))) = true ->
  nlargest_indexer argsort n items = Ok js ->
  exists T, largest_first n items T /\ js = take n (T.*1 ++ nans_from 0 items).
Proof.
  intros Hn Hlen Hsorts. unfold nlargest_indexer.
  destruct (Nat.eqb_spec n 0) as [|_]; [lia|].
  destruct (Nat.leb_spec (length items) n) as [_|]; [|lia].
  intros H. stepR H as indexer Hidx. injection H as <-.
  unfold nargsort in Hidx. set (P := non_nans_from 0 items) in *.
  stepR Hidx as ind0 Hind. injection Hidx as <-.
  assert ((reverse P).*2 = reverse (non_nan items)) as Ekeys
    by (by rewrite fmap_reverse; unfold P; rewrite non_nans_from_snd).
  rewrite Ekeys in Hind.
  set (keys := reverse (non_nan items)) in *.
  set (perm := argsort keys) in *.
  pose proof (sorts_Permutation _ _ Hsorts) as Hperm. fold perm in Hperm.
  assert (length keys = length P) as Lkeys.
  { rewrite <- Ekeys, length_fmap, length_reverse. done. }
  rewrite Lkeys in Hperm.
  apply take_pos_Ok in Hind.
  set (f := fun a => default (0%nat, 0) (reverse P !! a)).
  set (U := map f perm).
  assert (U ≡ₚ P) as HU.
  { unfold U. rewrite Hperm. rewrite <- (length_reverse P).
    unfold f. rewrite map_lookup_seq. apply reverse_Permutation. }
  assert (forall k c, perm !! k = Some c ->
            exists pv, reverse P !! c = Some pv /\ U !! k = Some pv /\
                       nth c keys 0 = pv.2) as HUk.
  { intros k c Hc.
    assert (c < length P)%nat as Hlt.
    { apply list_elem_of_lookup_2 in Hc. rewrite Hperm in Hc.
      apply elem_of_seq in Hc. lia. }
    destruct (lookup_lt_is_Some_2 (reverse P) c) as [pv Hpv];
      [by rewrite length_reverse|].
    exists pv. split; [done|]. split.
    - unfold U. rewrite list_lookup_fmap, Hc. simpl. unfold f. by rewrite Hpv.
    - apply nth_lookup_Some. rewrite <- Ekeys, list_lookup_fmap, Hpv. done. }
  assert (U.*1 = ind0) as EU.
  { apply list_eq. intros k. rewrite list_lookup_fmap.
    destruct (perm !! k) as [c|] eqn:Hc.
    - destruct (HUk k c Hc) as (pv & Hpv & -> & _). simpl.
      destruct (Forall2_lookup_l _ _ _ _ _ Hind Hc) as (y & -> & Hy).
      rewrite list_lookup_fmap, Hpv in Hy. simpl in Hy. done.
    - assert (U !! k = None) as ->.
      { apply lookup_ge_None. unfold U. rewrite length_map.
        by apply lookup_ge_None. }
      symmetry. apply lookup_ge_None. rewrite <- (Forall2_length _ _ _ Hind).
      by apply lookup_ge_None. }
  exists (reverse U). split; [|by rewrite fmap_reverse, EU].
  assert (length U = length P) as LU by (by rewrite HU).
  pose proof (length_non_nans_nans 0 items) as Lsplit. fold P in Lsplit.
  unfold largest_first. fold P. split; [|split; [|split; [|split]]].
  - rewrite reverse_Permutation, HU. apply NoDup_non_nans_from.
  - intros pv. by rewrite reverse_Permutation, HU.
  - rewrite length_reverse. lia.
  - intros i i' a b Hlt Ha Hb.
    assert (i' < length U)%nat as Hi'.
    { apply lookup_lt_Some in Hb. by rewrite length_reverse in Hb. }
    rewrite reverse_lookup in Ha, Hb by lia.
    assert (length perm = length U) as Lperm by (unfold U; by rewrite length_map).
    destruct (lookup_lt_is_Some_2 perm (length U - S i)) as [c Hc]; [lia|].
    destruct (lookup_lt_is_Some_2 perm (length U - S i')) as [c' Hc']; [lia|].
    destruct (HUk _ _ Hc) as (pv & _ & Hpv & Epv).
    destruct (HUk _ _ Hc') as (pv' & _ & Hpv' & Epv').
    assert (pv = a) as -> by congruence. assert (pv' = b) as -> by congruence.
    unfold sorts in Hsorts. apply andb_true_iff in Hsorts as [_ Hasc].
    pose proof (ascending_along_lookup keys perm (length U - S i') (length U - S i)
                  c' c Hasc) as Hle.
    rewrite Epv, Epv' in Hle. apply Hle; [lia|done..].
  - intros a b _ Hb Hnb. destruct Hnb. by rewrite reverse_Permutation, HU.
Qed.

(** *** The positions [nlargest] returns *)

Lemma nlargest_indexer_spec (argsort : list Q -> list nat) (n : nat)
    (items : list float) (js : list nat) :
  ((length items <= n)%nat ->
   sorts (reverse (non_nan items)) (argsort (reverse (non_nan items))) = true) ->
  nlargest_indexer argsort n items = Ok js ->
  exists T, largest_first n items T /\ js = take n (T.*1 ++ nans_from 0 items).
Proof.
  intros Hsorts H. destruct (decide (n = 0)%nat) as [->|Hn].
  { unfold nlargest_indexer in H. simpl in H. injection H as <-.
    exists []. split; [|done]. unfold largest_first. simpl.
    split; [constructor|]. split; [by intros pv ?%elem_of_nil|].
    split; [done|]. split; [done|]. by intros a b ?%elem_of_nil. }
  destruct (decide (length items <= n)%nat) as [Hle|Hgt].
  - eapply nlargest_indexer_slow; [lia|done|by apply Hsorts|done].
  - eapply nlargest_indexer_fast; [lia|lia|done].
Qed.

Lemma largest_first_indexer (n : nat) (items : list float) (T : list (nat * Q))
    (js : list nat) :
  largest_first n items T -> js = take n (T.*1 ++ nans_from 0 items) ->
  NoDup js /\
  length js = Nat.min n (length items) /\
  (forall j, j ∈ js -> (j < length items)%nat) /\
  (forall i i' j j' q', (i < i')%nat -> js !! i = Some j -> js !! i' = Some j' ->
     items !! j' = Some (Some q') ->
     exists q, items !! j = Some (Some q) /\ q' <= q) /\
  (forall j j' q', j ∈ js -> j' ∉ js -> items !! j' = Some (Some q') ->
     exists q, items !! j = Some (Some q) /\ q' <= q).
Proof.
  intros (HN & Hsub & HL & Hdesc & Htop) ->.
  set (P := non_nans_from 0 items) in *. set (N := nans_from 0 items).
  pose proof (length_non_nans_nans 0 items) as Lsplit. fold P N in Lsplit.
  assert (forall j q, (j, q) ∈ P <-> items !! j = Some (Some q)) as HP.
  { intros j q. unfold P. rewrite elem_of_non_nans_from, Nat.sub_0_r.
    split; [by intros [_ ?] | intros; split; [lia|done]]. }
  assert (forall j, j ∈ N <-> items !! j = Some None) as HNan.
  { intros j. unfold N. rewrite elem_of_nans_from, Nat.sub_0_r.
    split; [by intros [_ ?] | intros; split; [lia|done]]. }
  assert (forall j, j ∈ T.*1 -> exists q, (j, q) ∈ T /\ items !! j = Some (Some q)) as HT.
  { intros j [[j' q] [-> Hin]]%list_elem_of_fmap. exists q. split; [done|].
    by apply HP, Hsub. }
  assert (length T <= n)%nat as HLn by lia.
  assert (take n (T.*1 ++ N) = T.*1 ++ take (n - length T) N) as Etake.
  { rewrite take_app, length_fmap. f_equal. apply take_ge. rewrite length_fmap. lia. }
  assert (NoDup (T.*1 ++ N)) as Hnd.
  { apply NoDup_app. split; [done|]. split; [|apply NoDup_nans_from].
    intros j (q & _ & Hq)%HT Hn%HNan. congruence. }
  split; [eapply sublist_NoDup; [exact Hnd|apply sublist_take]|].
  split; [rewrite length_take, length_app, length_fmap; lia|].
  split.
  { intros j Hj. apply (elem_of_sublist _ (T.*1 ++ N)) in Hj; [|apply sublist_take].
    apply elem_of_app in Hj as [(q & _ & Hq)%HT|Hn%HNan]; by eapply lookup_lt_Some. }
  split.
  - intros i i' j j' q' Hlt Hj Hj' Hq'. rewrite Etake in Hj, Hj'.
    assert (i' < length T.*1)%nat as Hi'.
    { destruct (decide (i' < length T.*1)%nat) as [|Hge]; [done|].
      rewrite lookup_app_r in Hj' by lia.
      apply list_elem_of_lookup_2, (elem_of_sublist _ N) in Hj'; [|apply sublist_take].
      apply HNan in Hj'. congruence. }
    rewrite lookup_app_l in Hj, Hj' by lia.
    rewrite list_lookup_fmap in Hj, Hj'.
    destruct (T !! i) as [[j0 q]|] eqn:Ea; [|done].
    destruct (T !! i') as [[j0' q0']|] eqn:Eb; [|done].
    simpl in Hj, Hj'. injection Hj as ->. injection Hj' as ->.
    assert (q0' = q') as ->.
    { apply list_elem_of_lookup_2, Hsub, HP in Eb. congruence. }
    exists q. split.
    + by apply list_elem_of_lookup_2, Hsub, HP in Ea.
    + apply (Hdesc i i' (j, q) (j', q') Hlt Ea Eb).
  - intros j j' q' Hj Hnj' Hq'. rewrite Etake in Hj, Hnj'.
    assert ((j', q') ∈ P) as Hb by (by apply HP).
    assert ((j', q') ∉ T) as HnT.
    { intros Hin. apply Hnj', elem_of_app. left.
      apply list_elem_of_fmap. by exists (j', q'). }
    apply elem_of_app in Hj as [(q & Hq & Hitem)%HT|Hj].
    + exists q. split; [done|]. apply (Htop (j, q) (j', q') Hq Hb HnT).
    + exfalso. assert (length T < n)%nat as Hlt.
      { destruct (decide (length T < n)%nat) as [|Hge]; [done|].
        replace (n - length T)%nat with 0%nat in Hj by lia.
        by apply elem_of_nil in Hj. }
      assert (length T = length P) as HLP by lia.
      assert (T ≡ₚ P) as Hperm.
      { apply submseteq_length_Permutation; [|lia].
        apply NoDup_submseteq; [by eapply NoDup_fmap_1|done]. }
      apply HnT. by rewrite Hperm.
Qed.
Lemma nlargest_Ok (argsort : list Q -> list nat) (n : nat) (d t : DataFrame)
    (c : string) :
  nlargest argsort n d c = Ok t ->
  exists vs xs js,
    assoc c (columns d) = Some vs /\
    mapM (as_float TypeError) vs = Ok xs /\
    nlargest_indexer argsort n xs = Ok js /\
    take_rows d js = Ok t.
Proof.
  unfold nlargest, getitem. intros H.
  destruct (assoc c (columns d)) as [vs|]; [|done]. simpl in H.
  stepR H as xs Hxs. stepR H as js Hjs. by exists vs, xs, js.
Qed.

(** ** X14: the rows of the bar chart *)

(** X14.  The frame behind the bar chart holds ten rows of the snapshot (all
    of them when the snapshot has at most ten), no row twice and each with
    all its cells; it lists them by descending renewable share, rows without
    a share last, and no row left out has a larger share than a row shown.
    Where the snapshot has at most ten rows the order comes from the default
    sort, of which the statement assumes that argsort returns a sorting
    permutation.  Nothing in the store changes. *)
Theorem top_countries_are_the_largest (argsort : list Q -> list nat) (l : loc)
    (d t : DataFrame) (vs : list value) (xs : list float) (h h' : heap) :
  h !! l = Some d -> wf_frame d ->
  assoc RENEWABLE (columns d) = Some vs ->
  mapM (as_float TypeError) vs = Ok xs ->
  ((length (index d) <= 10)%nat ->
   sorts (reverse (non_nan xs)) (argsort (reverse (non_nan xs))) = true) ->
  top_countries argsort l h = Ok (t, h') ->
  h' = h /\
  exists js,
    rows_at d t js /\ NoDup js /\
    length js = Nat.min 10 (length (index d)) /\
    (forall i i' j j' q', (i < i')%nat -> js !! i = Some j -> js !! i' = Some j' ->
       cell d RENEWABLE j' = Some (Num q') ->
       exists q, cell d RENEWABLE j = Some (Num q) /\ q' <= q) /\
    (forall j j' q', j ∈ js -> j' ∉ js -> cell d RENEWABLE j' = Some (Num q') ->
       exists q, cell d RENEWABLE j = Some (Num q) /\ q' <= q).
Proof.
  intros Hd Hwf Hvs Hxs Hsorts H. unfold top_countries in H.
  stepM H as d' h1 Hg. apply get_Ok in Hg as [Hd' ->].
  assert (d' = d) as -> by congruence.
  apply lift_Ok in H as [H ->]. split; [done|].
  apply nlargest_Ok in H as (vs' & xs' & js & Hvs' & Hxs' & Hjs & Htake).
  assert (vs' = vs) as -> by congruence. assert (xs' = xs) as -> by congruence.
  assert (length xs = length (index d)) as Lxs.
  { by rewrite (mapM_Ok_length _ _ _ Hxs), (wf_frame_assoc _ _ _ Hwf Hvs). }
  rewrite <- Lxs in Hsorts.
  destruct (nlargest_indexer_spec _ _ _ _ Hsorts Hjs) as (T & HT & Ejs).
  destruct (largest_first_indexer _ _ _ _ HT Ejs) as (Hnd & Hlen & _ & Hdesc & Htop).
  assert (forall j q, cell d RENEWABLE j = Some (Num q) <-> xs !! j = Some (Some q))
    as Hcell.
  { intros j q. unfold cell. rewrite Hvs. simpl. split.
    - intros Hj. apply mapM_Ok_Forall2 in Hxs.
      destruct (Forall2_lookup_l _ _ _ _ _ Hxs Hj) as (x & Hx & Hf).
      simpl in Hf. by injection Hf as <-.
    - intros Hj. by eapply as_float_lookup. }
  exists js. split; [by apply take_rows_rows_at|]. split; [done|].
  split; [by rewrite <- Lxs|]. split.
  - intros i i' j j' q' Hlt Hj Hj' Hq'. apply Hcell in Hq'.
    destruct (Hdesc i i' j j' q' Hlt Hj Hj' Hq') as (q & Hq & Hle).
    exists q. split; [by apply Hcell | done].
  - intros j j' q' Hj Hj' Hq'. apply Hcell in Hq'.
    destruct (Htop j j' q' Hj Hj' Hq') as (q & Hq & Hle).
    exists q. split; [by apply Hcell | done].
Qed.

Lemma top_countries_are_the_largest_witness :
  exists t,
    top_countries Npy.argsort 0 [eight_rows] = Ok (t, [eight_rows]) /\
    index t = [6; 5; 4; 3; 2; 1; 0; 7]%nat /\
    [eight_rows] = [eight_rows] /\
    exists js,
      rows_at eight_rows t js /\ NoDup js /\
      length js = Nat.min 10 (length (index eight_rows)) /\
      (forall i i' j j' q', (i < i')%nat -> js !! i = Some j -> js !! i' = Some j' ->
         cell eight_rows RENEWABLE j' = Some (Num q') ->
         exists q, cell eight_rows RENEWABLE j = Some (Num q) /\ q' <= q) /\
      (forall j j' q', j ∈ js -> j' ∉ js ->
         cell eight_rows RENEWABLE j' = Some (Num q') ->
         exists q, cell eight_rows RENEWABLE j = Some (Num q) /\ q' <= q).
Proof.
  eexists. split; [vm_compute; reflexivity|]. split; [reflexivity|].
  eapply (top_countries_are_the_largest Npy.argsort 0%nat eight_rows _ _ _
            [eight_rows] [eight_rows]).
  - reflexivity.
  - repeat constructor.
  - reflexivity.
  - vm_compute; reflexivity.
  - intros _. vm_compute; reflexivity.
  - vm_compute; reflexivity.
Defined.
(** *** Ties in the fast method *)

Lemma sorted_by_sublist {A : Type} (le : A -> A -> bool) (l k : list A) :
  sublist l k -> sorted_by le k -> sorted_by le l.
Proof.
  induction 1 as [|x l k Hsub IH|x l k Hsub IH]; simpl; [done|..].
  - intros [Hx Hk]. split; [|by apply IH].
    apply Forall_forall. intros b Hb. rewrite Forall_forall in Hx.
    apply Hx. by eapply elem_of_sublist.
  - intros [_ Hk]. by apply IH.
Qed.

Lemma sorted_by_fmap {A B : Type} (le : B -> B -> bool) (f : A -> B) (l : list A) :
  sorted_by le (map f l) <-> sorted_by (fun a b => le (f a) (f b)) l.
Proof.
  induction l as [|x l IH]; simpl; [done|].
  rewrite IH. by rewrite Forall_fmap.
Qed.

Lemma non_nans_from_increasing (k : nat) (items : list float) :
  sorted_by (fun a b : nat * Q => (a.1 <? b.1)%nat) (non_nans_from k items).
Proof.
  revert k. induction items as [|[x|] items IH]; intros k; simpl; [done| |apply IH].
  split; [|apply IH]. apply Forall_forall. intros [j q] Hin.
  apply elem_of_non_nans_from in Hin as [Hle _]. simpl. apply Nat.ltb_lt. lia.
Qed.

(** The stable sort of entries that come with increasing positions orders
    them by key and, for equal keys, by position. *)
Lemma insert_sorted_lex (x : nat * Q) (l : list (nat * Q)) :
  sorted_by (fun a b : nat * Q =>
               Qle_bool a.2 b.2 && (negb (Qle_bool b.2 a.2) || (a.1 <=? b.1)%nat)) l ->
  Forall (fun b : nat * Q => (x.1 < b.1)%nat) l ->
  sorted_by (fun a b : nat * Q =>
               Qle_bool a.2 b.2 && (negb (Qle_bool b.2 a.2) || (a.1 <=? b.1)%nat))
    (insert_sorted (fun a b : nat * Q => Qle_bool a.2 b.2) x l).
Proof.
  induction l as [|y l IH]; simpl; [done|]. intros [Hy Hl] Hpos.
  apply Forall_cons in Hpos as [Hxy Hpos].
  destruct (Qle_bool x.2 y.2) eqn:E; simpl.
  - split; [|done]. constructor.
    + rewrite E. simpl. apply orb_true_iff. right. apply Nat.leb_le. lia.
    + rewrite Forall_forall in Hy, Hpos. apply Forall_forall. intros b Hb.
      specialize (Hy b Hb). specialize (Hpos b Hb). simpl in Hpos.
      apply andb_true_iff in Hy as [Hyb _].
      rewrite (Qle_bool_trans _ _ _ E Hyb). simpl.
      apply orb_true_iff. right. apply Nat.leb_le. lia.
  - split; [|by apply IH].
    rewrite insert_sorted_Permutation. constructor; [|done].
    destruct (Qle_bool_total x.2 y.2) as [H|H]; [congruence|].
    by rewrite H, E.
Qed.

Lemma stable_sort_lex (l : list (nat * Q)) :
  sorted_by (fun a b : nat * Q => (a.1 <? b.1)%nat) l ->
  sorted_by (fun a b : nat * Q =>
               Qle_bool a.2 b.2 && (negb (Qle_bool b.2 a.2) || (a.1 <=? b.1)%nat))
    (stable_sort (fun a b : nat * Q => Qle_bool a.2 b.2) l).
Proof.
  induction l as [|x l IH]; simpl; [done|]. intros [Hx Hl].
  apply insert_sorted_lex; [by apply IH|].
  rewrite stable_sort_Permutation.
  eapply Forall_impl; [exact Hx|]. intros b Hb. by apply Nat.ltb_lt.
Qed.

Lemma nlargest_indexer_ties (argsort : list Q -> list nat) (n : nat)
    (items : list float) (js : list nat) (j j' i' : nat) (q q' : Q) :
  (n < length items)%nat ->
  nlargest_indexer argsort n items = Ok js ->
  (j < j')%nat -> items !! j = Some (Some q) -> items !! j' = Some (Some q') ->
  q == q' -> js !! i' = Some j' ->
  exists i, (i < i')%nat /\ js !! i = Some j.
Proof.
  intros Hlen H Hlt Hq Hq' Heq Hi'. unfold nlargest_indexer in H.
  destruct (Nat.eqb_spec n 0) as [->|Hn]; [by injection H as <-|].
  destruct (Nat.leb_spec (length items) n) as [|_]; [lia|].
  set (P := non_nans_from 0 items) in *.
  set (neg := fun pv : nat * Q => (pv.1, - pv.2)) in *.
  assert (forall pv, neg (neg pv) = pv) as Hnn by apply neg_neg.
  assert (forall k x, (k, x) ∈ P <-> items !! k = Some (Some x)) as HP.
  { intros k x. unfold P. rewrite elem_of_non_nans_from, Nat.sub_0_r.
    split; [by intros [_ ?] | intros; split; [lia|done]]. }
  assert (forall k, k ∈ nans_from 0 items <-> items !! k = Some None) as HNan.
  { intros k. rewrite elem_of_nans_from, Nat.sub_0_r.
    split; [by intros [_ ?] | intros; split; [lia|done]]. }
  destruct (map neg P) as [|a0 arr'] eqn:Earr.
  { assert (P = []) as HP0 by (by destruct P).
    assert ((j, q) ∈ P) as Hin by (by apply HP). rewrite HP0 in Hin.
    by apply elem_of_nil in Hin. }
  set (arr := a0 :: arr') in *.
  set (n' := Nat.min n (length arr)) in *.
  set (kth := kth_smallest arr.*2 (n' - 1)) in *.
  set (ns := List.filter (fun pv : nat * Q => Qle_bool pv.2 kth) arr) in *.
  set (le2 := fun a b : nat * Q => Qle_bool a.2 b.2) in *.
  set (sorted := stable_sort le2 ns) in *.
  injection H as <-.
  pose proof (stable_sort_Permutation le2 ns) as Hperm. fold sorted in Hperm.
  assert (forall a, a ∈ sorted <-> a ∈ arr /\ Qle_bool a.2 kth = true) as Hin.
  { intros a. rewrite Hperm. unfold ns. rewrite !list_elem_of_In. apply filter_In. }
  assert (forall a, a ∈ arr <-> neg a ∈ P) as Harr.
  { intros a. rewrite <- Earr, list_elem_of_fmap. split.
    - intros (p & -> & Hp). by rewrite Hnn.
    - intros Hp. exists (neg a). split; [by rewrite Hnn | done]. }
  assert (sorted_by (fun a b : nat * Q =>
            Qle_bool a.2 b.2 && (negb (Qle_bool b.2 a.2) || (a.1 <=? b.1)%nat)) sorted)
    as Hlex.
  { apply stable_sort_lex. eapply sorted_by_sublist; [apply filter_sublist|].
    rewrite <- Earr. apply sorted_by_fmap. simpl. apply non_nans_from_increasing. }
  (* the later row is among the sorted entries, at [i'] *)
  apply lookup_take_Some in Hi' as [Hi' Hi'n].
  assert (i' < length (take n' sorted).*1)%nat as Hi'len.
  { destruct (decide (i' < length (take n' sorted).*1)%nat) as [|Hge]; [done|].
    rewrite lookup_app_r in Hi' by lia.
    apply list_elem_of_lookup_2, HNan in Hi'. congruence. }
  rewrite lookup_app_l in Hi' by done. rewrite list_lookup_fmap in Hi'.
  destruct (take n' sorted !! i') as [[j0 x']|] eqn:Eb; [|done].
  simpl in Hi'. injection Hi' as ->.
  apply lookup_take_Some in Eb as [Eb Hb'n].
  assert (x' = - q') as ->.
  { assert ((j', x') ∈ arr) as Hb by (apply Hin; by eapply list_elem_of_lookup_2).
    apply Harr, HP in Hb. simpl in Hb. rewrite Hq' in Hb.
    injection Hb as ->. symmetry.
    destruct x' as [a b]. unfold Qopp. simpl. by rewrite Z.opp_involutive. }
  (* the earlier row is among them too *)
  assert ((j, - q) ∈ sorted) as Ha.
  { apply Hin. split.
    - apply Harr. unfold neg. simpl. apply HP.
      rewrite Hq. do 2 f_equal. destruct q as [a b]. unfold Qopp. simpl.
      by rewrite Z.opp_involutive.
    - assert ((j', - q') ∈ sorted) as Hb by (by eapply list_elem_of_lookup_2).
      apply Hin in Hb as [_ Hb]. simpl in *.
      apply Qle_bool_iff in Hb. apply Qle_bool_iff. lra. }
  apply list_elem_of_lookup_1 in Ha as [i Ha].
  assert (i < i')%nat as Hii'.
  { destruct (Nat.lt_trichotomy i i') as [|[->|Hgt]]; [done|..].
    - rewrite Eb in Ha. injection Ha as ->. lia.
    - pose proof (sorted_by_lookup _ sorted i' i _ _ Hlex Hgt Eb Ha) as Hle.
      simpl in Hle. apply andb_true_iff in Hle as [_ Hle].
      apply orb_true_iff in Hle as [Hle|Hle%Nat.leb_le]; [|lia].
      apply negb_true_iff in Hle.
      assert (Qle_bool (- q) (- q') = true) as Hc; [|congruence].
      apply Qle_bool_iff. lra. }
  exists i. split; [done|].
  apply lookup_take_Some. split; [|lia].
  rewrite lookup_app_l.
  - rewrite list_lookup_fmap, lookup_take_lt, Ha by lia. done.
  - rewrite length_fmap, length_take.
    apply lookup_lt_Some in Ha. lia.
Qed.

(** ** X15: ties in the bar chart *)

(** X15.  When the snapshot has more than ten rows, ties in the bar chart
    go to the earlier row, whatever argsort does: if a row with a renewable
    share is shown, every earlier row of the snapshot with the same share is
    shown as well, and before it. *)
Theorem top_countries_ties_keep_first (argsort : list Q -> list nat) (l : loc)
    (d t : DataFrame) (h h' : heap) :
  h !! l = Some d -> wf_frame d ->
  (10 < length (index d))%nat ->
  top_countries argsort l h = Ok (t, h') ->
  exists js,
    rows_at d t js /\ length js = 10%nat /\
    forall j j' i' q q',
      (j < j')%nat ->
      cell d RENEWABLE j = Some (Num q) -> cell d RENEWABLE j' = Some (Num q') ->
      q == q' ->
      js !! i' = Some j' ->
      exists i, (i < i')%nat /\ js !! i = Some j.
Proof.
  intros Hd Hwf Hlen H. unfold top_countries in H.
  stepM H as d' h1 Hg. apply get_Ok in Hg as [Hd' ->].
  assert (d' = d) as -> by congruence.
  apply lift_Ok in H as [H ->].
  apply nlargest_Ok in H as (vs & xs & js & Hvs & Hxs & Hjs & Htake).
  assert (length xs = length (index d)) as Lxs.
  { by rewrite (mapM_Ok_length _ _ _ Hxs), (wf_frame_assoc _ _ _ Hwf Hvs). }
  assert (forall j q, cell d RENEWABLE j = Some (Num q) -> xs !! j = Some (Some q))
    as Hcell.
  { intros j q. unfold cell. rewrite Hvs. simpl.
    intros Hj. apply mapM_Ok_Forall2 in Hxs.
    destruct (Forall2_lookup_l _ _ _ _ _ Hxs Hj) as (x & Hx & Hf).
    simpl in Hf. by injection Hf as <-. }
  exists js. split; [by apply take_rows_rows_at|]. split.
  { destruct (nlargest_indexer_spec argsort 10 xs js) as (T & HT & Ejs);
      [lia|done|].
    destruct (largest_first_indexer _ _ _ _ HT Ejs) as (_ & -> & _). lia. }
  intros j j' i' q q' Hlt Hq Hq' Heq Hi'.
  eapply (nlargest_indexer_ties argsort 10 xs js j j' i' q q'); try done; [lia|..];
    by apply Hcell.
Qed.

Lemma top_countries_ties_keep_first_witness :
  exists t,
    top_countries Npy.argsort 0 [tied_rows] = Ok (t, [tied_rows]) /\
    index t = seq 0 10 /\
    exists js,
      rows_at tied_rows t js /\ length js = 10%nat /\
      forall j j' i' q q',
        (j < j')%nat ->
        cell tied_rows RENEWABLE j = Some (Num q) ->
        cell tied_rows RENEWABLE j' = Some (Num q') ->
        q == q' ->
        js !! i' = Some j' ->
        exists i, (i < i')%nat /\ js !! i = Some j.
Proof.
  eexists. split; [vm_compute; reflexivity|]. split; [reflexivity|].
  eapply (top_countries_ties_keep_first Npy.argsort 0%nat tied_rows _
            [tied_rows] [tied_rows]).
  - reflexivity.
  - repeat constructor.
  - simpl. lia.
  - vm_compute; reflexivity.
Defined.
(** ** The page is computed *)

















(** *** numpy's quicksort returns positions of its array *)

Section NpyRange.

Variable num : nat.
Hypothesis num_pos : (0 < num)%nat.

Local Abbreviation ok t := (Forall (fun a : nat => (a < num)%nat) t).














End NpyRange.









(** ** X16: the script's computations go through on every complete file *)


(** ** X17: columns the loader does not read *)




(** ** X18: what the page changes *)

(** X18.  When all the computations of the script have run, the store holds
    two objects more than before: the full table exactly as the loader
    returned it, and the snapshot, which differs from the loader's only in
    the Investment Score column; computing the metrics, the three chart
    frames, the selector and the cards changes nothing. *)
Theorem page_changes_only_the_score (parse : string -> option float)
    (argsort : list Q -> list nat) (file : csv_file)
    (selected_countries : list string) (v : page_values) (h h' : heap) :
  page parse argsort file selected_countries h = Ok (v, h') ->
  exists y full snap snap',
    load_data parse file h = Ok ((length h, S (length h), y), h ++ [full; snap]) /\
    h' = h ++ [full; snap'] /\
    index snap' = index snap /\
    (forall c i, c <> INVESTMENT -> cell snap' c i = cell snap c i).
Proof.
  intros H. unfold page in H.
  stepM H as r h1 Hld. destruct r as [[df latest] y]. simpl in H.
  pose proof Hld as Hld'.
  apply load_data_Ok in Hld'
    as (o1 & o2 & o3 & yv & full & sel & score & -> & -> & _ & _ & _ &
        _ & _ & _ & _ & _ & ->).
  set (snap := mkFrame (index sel)
                 (assign SUSTAINABILITY (svalues score) (columns sel))) in *.
  assert ((h ++ [full; snap]) !! length h = Some full) as Hdf
    by (by rewrite lookup_app_r, Nat.sub_diag by lia).
  assert ((h ++ [full; snap]) !! S (length h) = Some snap) as Hl.
  { rewrite lookup_app_r by lia.
    by replace (S (length h) - length h)%nat with 1%nat by lia. }
  stepM H as k h2 Hk. apply (key_metrics_Ok _ _ _ _ _ Hdf) in Hk as [-> _].
  stepM H as u h3 Hs.
  apply investment_score_Ok in Hs as (d & s & Hd & _ & _ & Hidx & ->).
  assert (d = snap) as -> by congruence.
  rewrite insert_app_r_alt in H by lia.
  replace (S (length h) - length h)%nat with 1%nat in H by lia. simpl in H.
  stepM H as sc h4 Hsc. unfold scatter_data in Hsc.
  stepM Hsc as d1 h5 Hg. apply get_Ok in Hg as [_ ->]. apply lift_Ok in Hsc as [_ ->].
  stepM H as t h6 Ht. unfold top_countries in Ht.
  stepM Ht as d2 h7 Hg. apply get_Ok in Hg as [_ ->]. apply lift_Ok in Ht as [_ ->].
  stepM H as o h8 Ho. unfold country_options in Ho.
  stepM Ho as e h9 He. apply col_Ok in He as (? & ? & _ & _ & _ & ->).
  apply M_ret_Ok in Ho as [_ ->].
  stepM H as tr h10 Htr. unfold trend_df in Htr.
  stepM Htr as d3 h11 Hg. apply get_Ok in Hg as [_ ->].
  stepM Htr as e' h12 He. apply col_Ok in He as (? & ? & _ & _ & _ & ->).
  apply lift_Ok in Htr as [_ ->].
  stepM H as c h13 Hc. unfold recommendations in Hc.
  stepM Hc as p h14 Hp. unfold promising_countries in Hp.
  stepM Hp as d4 h15 Hg. apply get_Ok in Hg as [_ ->]. apply lift_Ok in Hp as [_ ->].
  apply lift_Ok in Hc as [_ ->].
  apply M_ret_Ok in H as [_ ->].
  exists y, full, snap. eexists. split; [done|]. split; [done|]. split; [done|].
  intros c' i Hc'. unfold snap. by rewrite cell_assign_ne.
Qed.

Lemma page_changes_only_the_score_witness :
  exists v h',
    page parse_decimal Npy.argsort sample_file ["A"; "C"] [] = Ok (v, h') /\
    exists y full snap snap',
      load_data parse_decimal sample_file []
      = Ok ((length (@nil DataFrame), S (length (@nil DataFrame)), y),
            [] ++ [full; snap]) /\
      h' = [] ++ [full; snap'] /\
      index snap' = index snap /\
      (forall c i, c <> INVESTMENT -> cell snap' c i = cell snap c i).
Proof.
  do 2 eexists. split; [vm_compute; reflexivity|].
  eapply (page_changes_only_the_score parse_decimal Npy.argsort sample_file ["A"; "C"]).
  vm_compute. reflexivity.
Defined.
